(** * pexels-photo-fetcher: a shallow embedding of [main.go]

    The program queries the Pexels search API, follows the server-supplied
    [next_page] cursor, and stores the [large2x] variant of every photo in a
    destination directory.  This file embeds the program in Rocq and proves
    its specification.

    Go strings are byte sequences; they are embedded as [string], whose
    characters ([ascii]) are exactly the 256 byte values.  Go's [int] is
    embedded as [Z]; where the program does arithmetic on it the 64-bit
    wrap-around is written out. *)

From stdpp Require Import gmap strings list.
From Stdlib Require Import ZArith Ascii String Lia.

Local Open Scope string_scope.
Local Open Scope Z_scope.

(** ** Package [strings] of the Go standard library *)

Definition byteZ (c : ascii) : Z := Z.of_N (N_of_ascii c).

Definition len (s : string) : Z := Z.of_nat (String.length s).

(** [s[i:]] and [s[:i]] for an index within bounds. *)
Fixpoint string_drop (n : nat) (s : string) : string :=
  match n, s with
  | O, _ => s
  | S n', String _ s' => string_drop n' s'
  | S _, EmptyString => EmptyString
  end.

Fixpoint string_take (n : nat) (s : string) : string :=
  match n, s with
  | O, _ => EmptyString
  | S n', String c s' => String c (string_take n' s')
  | S _, EmptyString => EmptyString
  end.

Definition slice_from (s : string) (i : Z) : string := string_drop (Z.to_nat i) s.
Definition slice_to (s : string) (i : Z) : string := string_take (Z.to_nat i) s.

Fixpoint strings_HasPrefix (s pre : string) {struct pre} : bool :=
  match pre, s with
  | EmptyString, _ => true
  | String p pre', String c s' => Ascii.eqb c p && strings_HasPrefix s' pre'
  | String _ _, EmptyString => false
  end.

Fixpoint strings_HasSuffix (s suf : string) : bool :=
  String.eqb s suf ||
  match s with
  | EmptyString => false
  | String _ s' => strings_HasSuffix s' suf
  end.

(** [strings.Index]: the first position at which [substr] occurs, or -1. *)
Fixpoint strings_Index (s substr : string) : Z :=
  if strings_HasPrefix s substr then 0
  else match s with
       | EmptyString => -1
       | String _ s' =>
           let i := strings_Index s' substr in
           if i =? -1 then -1 else i + 1
       end.

(** [strings.LastIndex]: the last position at which [substr] occurs, or -1.
    The scan keeps, in [found], the last match seen before position [i]. *)
Fixpoint lastIndex_from (s substr : string) (i found : Z) : Z :=
  let found' := if strings_HasPrefix s substr then i else found in
  match s with
  | EmptyString => found'
  | String _ s' => lastIndex_from s' substr (i + 1) found'
  end.

Definition strings_LastIndex (s substr : string) : Z :=
  lastIndex_from s substr 0 (-1).

Definition strings_Contains (s substr : string) : bool :=
  negb (strings_Index s substr =? -1).

(** [strings.Cut]: [before, after, found]. *)
Definition strings_Cut (s sep : string) : string * string * bool :=
  let i := strings_Index s sep in
  if i =? -1 then (s, "", false)
  else (slice_to s i, slice_from s (i + len sep), true).

(** [strings.Count] for a separator of one byte, which is how the program's
    libraries call it. *)
Fixpoint count_byte (s : string) (c : ascii) : Z :=
  match s with
  | EmptyString => 0
  | String d s' => (if Ascii.eqb d c then 1 else 0) + count_byte s' c
  end.

Fixpoint string_forallb (p : ascii -> bool) (s : string) : bool :=
  match s with
  | EmptyString => true
  | String c s' => p c && string_forallb p s'
  end.

Definition string_existsb (p : ascii -> bool) (s : string) : bool :=
  negb (string_forallb (fun c => negb (p c)) s).

(** ASCII lower-casing, [strings.ToLower] on the bytes it changes. *)
Definition lower_byte (c : ascii) : ascii :=
  if (65 <=? byteZ c) && (byteZ c <=? 90)
  then ascii_of_N (N_of_ascii c + 32) else c.

Fixpoint string_map (f : ascii -> ascii) (s : string) : string :=
  match s with
  | EmptyString => EmptyString
  | String c s' => String (f c) (string_map f s')
  end.

(** ** Package [path]: [path.Base] *)

(** Strip trailing slashes. *)
Fixpoint trim_trailing_slashes (s : string) : string :=
  match s with
  | EmptyString => EmptyString
  | String c s' =>
      match trim_trailing_slashes s' with
      | EmptyString => if Ascii.eqb c "/" then EmptyString else String c EmptyString
      | t => String c t
      end
  end.

Definition path_Base (p : string) : string :=
  if String.eqb p "" then "."
  else
    let p := trim_trailing_slashes p in
    let i := strings_LastIndex p "/" in
    let p := if 0 <=? i then slice_from p (i + 1) else p in
    if String.eqb p "" then "/" else p.

(** ** The file name of a photo ([processPhoto], lines 165-170) *)

(** "Cut off query args": the URL up to its last question mark. *)
Definition cutQueryArgs (photoURL : string) : string :=
  let idx := strings_LastIndex photoURL "?" in
  if negb (idx =? -1) then slice_to photoURL idx else photoURL.

Definition photoName (photoURL : string) : string :=
  path_Base (cutQueryArgs photoURL).

(** The derivation as the specification words it: everything from and
    including the first question mark is removed, then the final path segment
    is taken. *)
Definition deriveFilename_spec (variantURL : string) : string :=
  let idx := strings_Index variantURL "?" in
  path_Base (if negb (idx =? -1) then slice_to variantURL idx else variantURL).


(** ** Errors

    Go's [error] values.  [ErrorString] is [errors.New] (and any error of
    the operating system or the transport); [Errorf] is [fmt.Errorf] with
    its format and string operands, [Errorf_w] the same with the error that
    its [%w] verb wraps. *)
Inductive error : Type :=
| ErrorString (msg : string)
| EscapeError (s : string)
| InvalidHostError (s : string)
| url_Error (op url : string) (err : error)
| Errorf (format : string) (operands : list string)
| Errorf_w (format : string) (operands : list string) (wrapped : error).

(** ** Package [net/url] (Go 1.20) *)

Module url.

Inductive encoding : Type :=
| encodePath | encodePathSegment | encodeHost | encodeZone
| encodeUserPassword | encodeQueryComponent | encodeFragment.

Definition encoding_eqb (a b : encoding) : bool :=
  match a, b with
  | encodePath, encodePath | encodePathSegment, encodePathSegment
  | encodeHost, encodeHost | encodeZone, encodeZone
  | encodeUserPassword, encodeUserPassword
  | encodeQueryComponent, encodeQueryComponent
  | encodeFragment, encodeFragment => true
  | _, _ => false
  end.

Definition between (lo hi c : ascii) : bool :=
  (byteZ lo <=? byteZ c) && (byteZ c <=? byteZ hi).

Definition byte_in (c : ascii) (set : string) : bool :=
  string_existsb (Ascii.eqb c) set.

Definition dquote : ascii := ascii_of_N 34.

Definition ishex (c : ascii) : bool :=
  between "0" "9" c || between "a" "f" c || between "A" "F" c.

Definition unhex (c : ascii) : Z :=
  if between "0" "9" c then byteZ c - byteZ "0"
  else if between "a" "f" c then byteZ c - byteZ "a" + 10
  else if between "A" "F" c then byteZ c - byteZ "A" + 10
  else 0.

Definition byte_of_Z (z : Z) : ascii := ascii_of_N (Z.to_N (z mod 256)).

Definition upperhex (i : Z) : ascii :=
  match String.get (Z.to_nat i) "0123456789ABCDEF" with
  | Some c => c
  | None => "0"%char
  end.

Definition shouldEscape (c : ascii) (mode : encoding) : bool :=
  if between "a" "z" c || between "A" "Z" c || between "0" "9" c then false
  else if (encoding_eqb mode encodeHost || encoding_eqb mode encodeZone)
          && (byte_in c "!$&'()*+,;=:[]<>" || Ascii.eqb c dquote) then false
  else if byte_in c "-_.~" then false
  else if byte_in c "$&+,/:;=?@" then
    match mode with
    | encodePath => Ascii.eqb c "?"
    | encodePathSegment => byte_in c "/;,?"
    | encodeUserPassword => byte_in c "@/?:"
    | encodeQueryComponent => true
    | encodeFragment => false
    | encodeHost | encodeZone => true
    end
  else if encoding_eqb mode encodeFragment && byte_in c "!()*" then false
  else true.

(** The first pass of [unescape]: every [%] is followed by two hex digits,
    and hosts only use what they may. *)
Fixpoint unescape_check (s : string) (mode : encoding) : option error :=
  match s with
  | EmptyString => None
  | String c rest =>
      if Ascii.eqb c "%" then
        match rest with
        | String h1 (String h2 rest') =>
            if ishex h1 && ishex h2 then
              let esc := string_take 3 s in
              if encoding_eqb mode encodeHost && (unhex h1 <? 8)
                 && negb (String.eqb esc "%25")
              then Some (EscapeError esc)
              else
                let v := byte_of_Z (Z.lor (Z.shiftl (unhex h1) 4) (unhex h2)) in
                if encoding_eqb mode encodeZone && negb (String.eqb esc "%25")
                   && negb (Ascii.eqb v " ") && shouldEscape v encodeHost
                then Some (EscapeError esc)
                else unescape_check rest' mode
            else Some (EscapeError (string_take 3 s))
        | _ => Some (EscapeError (string_take 3 s))
        end
      else if (encoding_eqb mode encodeHost || encoding_eqb mode encodeZone)
              && (byteZ c <? 128) && shouldEscape c encodeHost
      then Some (InvalidHostError (String c EmptyString))
      else unescape_check rest mode
  end.

(** The second pass of [unescape], run on a string that passed the first. *)
Fixpoint unescape_build (s : string) (mode : encoding) : string :=
  match s with
  | EmptyString => EmptyString
  | String c rest =>
      if Ascii.eqb c "%" then
        match rest with
        | String h1 (String h2 rest') =>
            String (byte_of_Z (Z.lor (Z.shiftl (unhex h1) 4) (unhex h2)))
                   (unescape_build rest' mode)
        | _ => String c (unescape_build rest mode)
        end
      else if Ascii.eqb c "+" then
        String (if encoding_eqb mode encodeQueryComponent then " "%char else "+"%char)
               (unescape_build rest mode)
      else String c (unescape_build rest mode)
  end.

Definition unescape (s : string) (mode : encoding) : string + error :=
  match unescape_check s mode with
  | Some e => inr e
  | None => inl (unescape_build s mode)
  end.

Fixpoint escape (s : string) (mode : encoding) : string :=
  match s with
  | EmptyString => EmptyString
  | String c rest =>
      if Ascii.eqb c " " && encoding_eqb mode encodeQueryComponent then
        String "+" (escape rest mode)
      else if shouldEscape c mode then
        String "%" (String (upperhex (Z.shiftr (byteZ c) 4))
                   (String (upperhex (Z.land (byteZ c) 15)) (escape rest mode)))
      else String c (escape rest mode)
  end.

Definition QueryEscape (s : string) : string := escape s encodeQueryComponent.
Definition QueryUnescape (s : string) : string + error :=
  unescape s encodeQueryComponent.


Record Userinfo : Type := {
  username : string;
  password : string;
  passwordSet : bool
}.

Record URL : Type := {
  Scheme : string;
  Opaque : string;
  User : option Userinfo;
  Host : string;
  Path : string;
  RawPath : string;
  OmitHost : bool;
  ForceQuery : bool;
  RawQuery : string;
  Fragment : string;
  RawFragment : string
}.

Definition stringContainsCTLByte (s : string) : bool :=
  string_existsb (fun c => (byteZ c <? 32) || (byteZ c =? 127)) s.

Definition is_letter (c : ascii) : bool := between "a" "z" c || between "A" "Z" c.
Definition is_digit (c : ascii) : bool := between "0" "9" c.

(** [getScheme]: the loop over [rawURL], at position [i] with [rest] still
    to scan. *)
Fixpoint getScheme_from (rawURL rest : string) (i : Z) : (string * string) + error :=
  match rest with
  | EmptyString => inl ("", rawURL)
  | String c rest' =>
      if is_letter c then getScheme_from rawURL rest' (i + 1)
      else if is_digit c || byte_in c "+-." then
        if i =? 0 then inl ("", rawURL) else getScheme_from rawURL rest' (i + 1)
      else if Ascii.eqb c ":" then
        if i =? 0 then inr (ErrorString "missing protocol scheme")
        else inl (slice_to rawURL i, slice_from rawURL (i + 1))
      else inl ("", rawURL)
  end.

Definition getScheme (rawURL : string) : (string * string) + error :=
  getScheme_from rawURL rawURL 0.

Definition validOptionalPort (port : string) : bool :=
  match port with
  | EmptyString => true
  | String c digits => Ascii.eqb c ":" && string_forallb is_digit digits
  end.

Definition validUserinfo (s : string) : bool :=
  string_forallb
    (fun r => is_letter r || is_digit r || byte_in r "-._:~!$&'()*+,;=%@") s.

Definition parseHost (host : string) : string + error :=
  let plain :=
    match unescape host encodeHost with
    | inr e => inr e
    | inl h => inl h
    end in
  if strings_HasPrefix host "[" then
    let i := strings_LastIndex host "]" in
    if i <? 0 then inr (ErrorString "missing ']' in host")
    else
      let colonPort := slice_from host (i + 1) in
      if negb (validOptionalPort colonPort)
      then inr (Errorf "invalid port %q after host" [colonPort])
      else
        let zone := strings_Index (slice_to host i) "%25" in
        if 0 <=? zone then
          match unescape (slice_to host zone) encodeHost with
          | inr e => inr e
          | inl host1 =>
              match unescape (slice_from (slice_to host i) zone) encodeZone with
              | inr e => inr e
              | inl host2 =>
                  match unescape (slice_from host i) encodeHost with
                  | inr e => inr e
                  | inl host3 => inl (host1 ++ host2 ++ host3)
                  end
              end
          end
        else plain
  else
    let i := strings_LastIndex host ":" in
    if negb (i =? -1) && negb (validOptionalPort (slice_from host i))
    then inr (Errorf "invalid port %q after host" [slice_from host i])
    else plain.

Definition parseAuthority (authority : string)
  : (option Userinfo * string) + error :=
  let i := strings_LastIndex authority "@" in
  let hostpart := if i <? 0 then authority else slice_from authority (i + 1) in
  match parseHost hostpart with
  | inr e => inr e
  | inl host =>
      if i <? 0 then inl (None, host)
      else
        let userinfo := slice_to authority i in
        if negb (validUserinfo userinfo)
        then inr (ErrorString "net/url: invalid userinfo")
        else if negb (strings_Contains userinfo ":") then
          match unescape userinfo encodeUserPassword with
          | inr e => inr e
          | inl u =>
              inl (Some {| username := u; password := ""; passwordSet := false |},
                   host)
          end
        else
          let '(uname, pass, _) := strings_Cut userinfo ":" in
          match unescape uname encodeUserPassword with
          | inr e => inr e
          | inl u =>
              match unescape pass encodeUserPassword with
              | inr e => inr e
              | inl p =>
                  inl (Some {| username := u; password := p; passwordSet := true |},
                       host)
              end
          end
  end.

(** [parse]: the scheme, the query, the authority and the path of [rawURL]. *)
Definition parse (rawURL : string) (viaRequest : bool) : URL + error :=
  if stringContainsCTLByte rawURL
  then inr (ErrorString "net/url: invalid control character in URL")
  else if String.eqb rawURL "" && viaRequest then inr (ErrorString "empty url")
  else if String.eqb rawURL "*" then
    inl {| Scheme := ""; Opaque := ""; User := None; Host := ""; Path := "*";
           RawPath := ""; OmitHost := false; ForceQuery := false;
           RawQuery := ""; Fragment := ""; RawFragment := "" |}
  else
    match getScheme rawURL with
    | inr e => inr e
    | inl (scheme0, rest0) =>
        let scheme := string_map lower_byte scheme0 in
        let '(rest1, rawQuery, forceQuery) :=
          if strings_HasSuffix rest0 "?" && (count_byte rest0 "?" =? 1)
          then (slice_to rest0 (len rest0 - 1), "", true)
          else let '(r, q, _) := strings_Cut rest0 "?" in (r, q, false) in
        let rooted := strings_HasPrefix rest1 "/" in
        if negb rooted && negb (String.eqb scheme "") then
          inl {| Scheme := scheme; Opaque := rest1; User := None; Host := "";
                 Path := ""; RawPath := ""; OmitHost := false;
                 ForceQuery := forceQuery; RawQuery := rawQuery;
                 Fragment := ""; RawFragment := "" |}
        else if negb rooted && viaRequest
        then inr (ErrorString "invalid URI for request")
        else if negb rooted
                && strings_Contains (fst (fst (strings_Cut rest1 "/"))) ":"
        then inr (ErrorString "first path segment in URL cannot contain colon")
        else
          let with_authority :=
            (negb (String.eqb scheme "")
             || (negb viaRequest && negb (strings_HasPrefix rest1 "///")))
            && strings_HasPrefix rest1 "//" in
          let authority0 := slice_from rest1 2 in
          let i := strings_Index authority0 "/" in
          let authority := if 0 <=? i then slice_to authority0 i else authority0 in
          let rest2 :=
            if with_authority
            then (if 0 <=? i then slice_from authority0 i else "")
            else rest1 in
          match (if with_authority then parseAuthority authority
                 else inl (None, "")) with
          | inr e => inr e
          | inl (user, host) =>
              let omitHost :=
                negb with_authority && negb (String.eqb scheme "")
                && strings_HasPrefix rest1 "/" in
              (* setPath *)
              match unescape rest2 encodePath with
              | inr e => inr e
              | inl path =>
                  let rawPath :=
                    if String.eqb rest2 (escape path encodePath) then "" else rest2 in
                  inl {| Scheme := scheme; Opaque := ""; User := user;
                         Host := host; Path := path; RawPath := rawPath;
                         OmitHost := omitHost; ForceQuery := forceQuery;
                         RawQuery := rawQuery; Fragment := ""; RawFragment := "" |}
              end
          end
    end.

(** [url.Parse]: the fragment is cut off first, then [parse] runs on the
    rest; every error is wrapped as a parse error of that rest. *)
Definition Parse (rawURL : string) : URL + error :=
  let '(u, frag, _) := strings_Cut rawURL "#" in
  match parse u false with
  | inr e => inr (url_Error "parse" u e)
  | inl url =>
      if String.eqb frag "" then inl url
      else
        (* setFragment *)
        match unescape frag encodeFragment with
        | inr e => inr (url_Error "parse" rawURL e)
        | inl f =>
            inl {| Scheme := Scheme url; Opaque := Opaque url; User := User url;
                   Host := Host url; Path := Path url; RawPath := RawPath url;
                   OmitHost := OmitHost url; ForceQuery := ForceQuery url;
                   RawQuery := RawQuery url; Fragment := f;
                   RawFragment :=
                     if String.eqb frag (escape f encodeFragment) then "" else frag |}
        end
  end.


(** *** [url.Values], [ParseQuery] and [URL.Query] *)

(** [Values] is [map[string][]string]. *)
Abbreviation Values := (gmap string (list string)).

Definition Values_Get (v : Values) (key : string) : string :=
  match v !! key with
  | Some (x :: _) => x
  | _ => ""
  end.

Definition Values_Set (v : Values) (key value : string) : Values :=
  <[key := [value]]> v.

Definition Values_Add (v : Values) (key value : string) : Values :=
  <[key := (default [] (v !! key) ++ [value])%list]> v.

(** [parseQuery]: the loop [for query != ""], which cuts one [&]-separated
    pair off [query] per iteration; [fuel] bounds the iterations and the
    length of the query is always enough. The first error is remembered and
    the pair that caused it is skipped. *)
Fixpoint parseQuery_loop (fuel : nat) (m : Values) (query : string)
    (err : option error) : Values * option error :=
  match fuel with
  | O => (m, err)
  | S fuel' =>
      if String.eqb query "" then (m, err)
      else
        let '(key, query', _) := strings_Cut query "&" in
        if strings_Contains key ";" then
          parseQuery_loop fuel' m query'
            (Some (Errorf "invalid semicolon separator in query" []))
        else if String.eqb key "" then parseQuery_loop fuel' m query' err
        else
          let '(key, value, _) := strings_Cut key "=" in
          match QueryUnescape key with
          | inr err1 =>
              parseQuery_loop fuel' m query'
                (match err with None => Some err1 | Some _ => err end)
          | inl key =>
              match QueryUnescape value with
              | inr err1 =>
                  parseQuery_loop fuel' m query'
                    (match err with None => Some err1 | Some _ => err end)
              | inl value => parseQuery_loop fuel' (Values_Add m key value) query' err
              end
          end
  end.

Definition ParseQuery (query : string) : Values * option error :=
  parseQuery_loop (S (String.length query)) ∅ query None.

(** [u.Query()] drops the error of [ParseQuery]. *)
Definition URL_Query (u : URL) : Values := fst (ParseQuery (RawQuery u)).

(** Byte-wise lexicographic order, as [slices.Sort] orders strings. *)
Fixpoint insert_sorted (k : string) (l : list string) : list string :=
  match l with
  | [] => [k]
  | x :: l' => if String.leb k x then k :: l else x :: insert_sorted k l'
  end.

Definition sort_strings (l : list string) : list string :=
  foldr insert_sorted [] l.

(** [Values.Encode]: "URL encoded" form, sorted by key. *)
Definition Values_Encode (v : Values) : string :=
  let keys := sort_strings (map fst (map_to_list v)) in
  fold_left
    (fun buf k =>
       let keyEscaped := QueryEscape k in
       fold_left
         (fun buf value =>
            (if 0 <? len buf then buf ++ "&" else buf)
              ++ keyEscaped ++ "=" ++ QueryEscape value)
         (default [] (v !! k)) buf)
    keys "".

(** *** [URL.String] *)

Definition validEncoded (s : string) (mode : encoding) : bool :=
  string_forallb
    (fun c => byte_in c "!$&'()*+,;=:@[]%" || negb (shouldEscape c mode)) s.

Definition URL_EscapedPath (u : URL) : string :=
  let raw_ok :=
    negb (String.eqb (RawPath u) "") && validEncoded (RawPath u) encodePath
    && match unescape (RawPath u) encodePath with
       | inl p => String.eqb p (Path u)
       | inr _ => false
       end in
  if raw_ok then RawPath u
  else if String.eqb (Path u) "*" then "*"
  else escape (Path u) encodePath.

Definition URL_EscapedFragment (u : URL) : string :=
  let raw_ok :=
    negb (String.eqb (RawFragment u) "") && validEncoded (RawFragment u) encodeFragment
    && match unescape (RawFragment u) encodeFragment with
       | inl f => String.eqb f (Fragment u)
       | inr _ => false
       end in
  if raw_ok then RawFragment u else escape (Fragment u) encodeFragment.

Definition Userinfo_String (u : Userinfo) : string :=
  let s := escape (username u) encodeUserPassword in
  if passwordSet u then s ++ ":" ++ escape (password u) encodeUserPassword else s.

Definition is_nil {A} (o : option A) : bool :=
  match o with None => true | Some _ => false end.

Definition URL_String (u : URL) : string :=
  let buf := if negb (String.eqb (Scheme u) "") then Scheme u ++ ":" else "" in
  let buf :=
    if negb (String.eqb (Opaque u) "") then buf ++ Opaque u
    else
      let buf :=
        if negb (String.eqb (Scheme u) "") || negb (String.eqb (Host u) "")
           || negb (is_nil (User u))
        then
          if OmitHost u && String.eqb (Host u) "" && is_nil (User u) then buf
          else
            let buf :=
              if negb (String.eqb (Host u) "") || negb (String.eqb (Path u) "")
                 || negb (is_nil (User u))
              then buf ++ "//" else buf in
            let buf :=
              match User u with
              | Some ui => buf ++ Userinfo_String ui ++ "@"
              | None => buf
              end in
            if negb (String.eqb (Host u) "")
            then buf ++ escape (Host u) encodeHost else buf
        else buf in
      let path := URL_EscapedPath u in
      let buf :=
        if negb (String.eqb path "") && negb (strings_HasPrefix path "/")
           && negb (String.eqb (Host u) "")
        then buf ++ "/" else buf in
      let buf :=
        if (len buf =? 0)
           && strings_Contains (fst (fst (strings_Cut path "/"))) ":"
        then buf ++ "./" else buf in
      buf ++ path in
  let buf :=
    if ForceQuery u || negb (String.eqb (RawQuery u) "")
    then buf ++ "?" ++ RawQuery u else buf in
  if negb (String.eqb (Fragment u) "")
  then buf ++ "#" ++ URL_EscapedFragment u else buf.

Definition URL_with_RawQuery (u : URL) (q : string) : URL :=
  {| Scheme := Scheme u; Opaque := Opaque u; User := User u; Host := Host u;
     Path := Path u; RawPath := RawPath u; OmitHost := OmitHost u;
     ForceQuery := ForceQuery u; RawQuery := q; Fragment := Fragment u;
     RawFragment := RawFragment u |}.

End url.

(** ** [compileFirstURL] ([main.go], lines 110-124) *)

Definition firstURL : string := "https://api.pexels.com/v1/search?per_page=80&page=1".

Definition compileFirstURL (query : string) : string * option error :=
  match url.Parse firstURL with
  | inr err => ("", Some (Errorf_w "parse first url %s: %w" [firstURL] err))
  | inl u =>
      let q := url.URL_Query u in
      let q := url.Values_Set q "query" query in
      let u := url.URL_with_RawQuery u (url.Values_Encode q) in
      (url.URL_String u, None)
  end.

(** ** The response types ([main.go], lines 18-49) *)

Record Src : Type := {
  Original : string;
  Large2x : string;
  Large : string;
  Medium : string;
  Small : string;
  Portrait : string;
  Landscape : string;
  Tiny : string
}.

(** The field [Src] of a photo is [PhotoSrc] here, the name [Src] being
    taken by its type. *)
Record Photo : Type := {
  ID : Z;
  Width : Z;
  Height : Z;
  URL : string;
  Photographer : string;
  PhotographerURL : string;
  PhotographerID : Z;
  PhotoSrc : Src;
  Liked : bool
}.

Record Response : Type := {
  TotalResults : Z;
  Page : Z;
  PerPage : Z;
  Photos : list Photo;
  NextPage : string
}.

(** ** The outside world

    An HTTP request as the program builds it: method, URL and header.
    [http.NewRequest] parses the URL and fails when [url.Parse] does. *)
Record Request : Type := {
  Method : string;
  RequestURL : string;
  Header : gmap string (list string)
}.

Definition http_NewRequest (method rawurl : string) : Request + error :=
  match url.Parse rawurl with
  | inr err => inr err
  | inl _ => inl {| Method := method; RequestURL := rawurl; Header := ∅ |}
  end.

(** [Header.Add] for a key that is already in canonical form. *)
Definition Header_Add (r : Request) (key value : string) : Request :=
  {| Method := Method r; RequestURL := RequestURL r;
     Header := <[key := (default [] (Header r !! key) ++ [value])%list]> (Header r) |}.

(** A response body is a stream: it delivers [body_bytes] and then ends,
    with end-of-file or with a read error. *)
Record Body : Type := {
  body_bytes : string;
  body_err : option error
}.

Record HttpResponse : Type := {
  StatusCode : Z;
  RespBody : Body
}.

Definition StatusOK : Z := 200.

Definition ioutil_ReadAll (b : Body) : string * option error :=
  (body_bytes b, body_err b).

(** What the program cannot decide itself: the answers of the network, of
    the JSON decoder on the [Response] type, and of the file system.  The
    server is a function of the request: asked the same, it answers the
    same.  [filepath.Join] depends on the operating system and is left to
    the world as well. *)
Record World : Type := {
  client_Do : Request -> HttpResponse + error;
  json_Unmarshal : string -> Response + error;
  os_Mkdir : string -> option error;
  os_IsExist : error -> bool;
  os_Create : string -> option error;
  (** writing to the file at a path fails after that many bytes *)
  write_limit : string -> option (nat * error);
  filepath_Join : string -> string -> string
}.

(** ** Effects

    The program's state is the content of the files it wrote and the trace
    of what it did: the directory it made, the requests it sent, the files
    it created and filled, the lines it logged.  Closing a response body or
    a file leaves no mark in it.  A computation returns a value, or ends the
    process ([os.Exit] by way of [log.Fatal]), or runs out of fuel inside
    the pagination loop. *)
Inductive LogArg : Type :=
| AStr (s : string)
| AInt (n : Z)
| AErr (e : error)
| ABytes (b : string).

Inductive Event : Type :=
| EvMkdir (path : string)
| EvDo (r : Request)
| EvCreate (path : string)
| EvCopy (path data : string)
| EvLog (format : string) (args : list LogArg)
| EvFatal (format : string) (args : list LogArg).

Record Sys : Type := {
  files : gmap string string;
  trace : list Event
}.

Inductive Result (A : Type) : Type :=
| Ret (a : A)
| Exit (status : Z)
| OutOfFuel.

Arguments Ret {A} a.
Arguments Exit {A} status.
Arguments OutOfFuel {A}.

Definition M (A : Type) : Type := Sys -> Result A * Sys.

Definition ret {A} (a : A) : M A := fun s => (Ret a, s).

Definition bind {A B} (m : M A) (k : A -> M B) : M B :=
  fun s =>
    match m s with
    | (Ret a, s') => k a s'
    | (Exit c, s') => (Exit c, s')
    | (OutOfFuel, s') => (OutOfFuel, s')
    end.

Notation "'let*' x ':=' m 'in' k" := (bind m (fun x => k))
  (at level 10, x name, m at level 100, k at level 200).

Definition emit (e : Event) : M unit :=
  fun s => (Ret tt, {| files := files s; trace := (trace s ++ [e])%list |}).

Definition log_Printf (format : string) (args : list LogArg) : M unit :=
  emit (EvLog format args).

(** [log.Fatal] and [log.Fatalf]: the message, then [os.Exit(1)]. *)
Definition log_Fatalf {A} (format : string) (args : list LogArg) : M A :=
  fun s => (Exit 1, {| files := files s; trace := (trace s ++ [EvFatal format args])%list |}).

Definition out_of_fuel {A} : M A := fun s => (OutOfFuel, s).

Definition exit_status {A} (r : Result A) : option Z :=
  match r with
  | Ret _ => Some 0
  | Exit c => Some c
  | OutOfFuel => None
  end.

(** Go's [int] on a 64-bit platform. *)
Definition wrap64 (z : Z) : Z := (z + 2 ^ 63) mod 2 ^ 64 - 2 ^ 63.
Definition int_add (a b : Z) : Z := wrap64 (a + b).

Section Program.

Variable w : World.

Definition do_request (req : Request) : M (HttpResponse + error) :=
  let* _ := emit (EvDo req) in ret (client_Do w req).

Definition mkdir (path : string) : M (option error) :=
  let* _ := emit (EvMkdir path) in ret (os_Mkdir w path).

(** [os.Create]: the file exists and is empty afterwards, unless the call
    fails. *)
Definition create (path : string) : M (option error) :=
  fun s =>
    let tr := (trace s ++ [EvCreate path])%list in
    match os_Create w path with
    | Some err => (Ret (Some err), {| files := files s; trace := tr |})
    | None => (Ret None, {| files := <[path := ""]> (files s); trace := tr |})
    end.

(** [io.Copy(f, img)]: the bytes of the stream go to the file until the
    stream ends or a write fails. *)
Definition io_Copy (path : string) (img : Body) : M (option error) :=
  fun s =>
    let '(data, err) :=
      match write_limit w path with
      | Some (k, werr) =>
          if (k <? String.length (body_bytes img))%nat
          then (string_take k (body_bytes img), Some werr)
          else (body_bytes img, body_err img)
      | None => (body_bytes img, body_err img)
      end in
    (Ret err, {| files := <[path := data]> (files s);
                 trace := (trace s ++ [EvCopy path data])%list |}).

(** *** [downloadImage] (lines 186-202) *)
Definition downloadImage (rawurl : string) : M (Body + error) :=
  match http_NewRequest "GET" rawurl with
  | inr err => ret (inr (Errorf_w "create new request: %w" [] err))
  | inl req =>
      let* r := do_request req in
      match r with
      | inr err => ret (inr (Errorf_w "cannot send request: %w" [] err))
      | inl resp =>
          if negb (StatusCode resp =? StatusOK)
          then ret (inr (Errorf "got non-200 response" []))
          else ret (inl (RespBody resp))
      end
  end.

(** *** [processPhoto] (lines 158-184) *)
Definition processPhoto (photoURL dst : string) : M (option error) :=
  let* r := downloadImage photoURL in
  match r with
  | inr err => ret (Some (Errorf_w "download image: %w" [] err))
  | inl img =>
      let name := photoName photoURL in
      let fullPath := filepath_Join w dst name in
      let* c := create fullPath in
      match c with
      | Some err => ret (Some (Errorf_w "create file %s: %w" [fullPath] err))
      | None =>
          let* e := io_Copy fullPath img in
          match e with
          | Some err => ret (Some (Errorf_w "write file %s: %w" [fullPath] err))
          | None => ret None
          end
      end
  end.

(** *** [sendRequest] (lines 126-156) *)
Definition sendRequest (rawurl key : string) : M (Response + error) :=
  match http_NewRequest "GET" rawurl with
  | inr err => ret (inr (Errorf_w "create new request: %w" [] err))
  | inl req =>
      let req := Header_Add req "Authorization" key in
      let* r := do_request req in
      match r with
      | inr err => ret (inr (Errorf_w "cannot send request: %w" [] err))
      | inl resp =>
          if negb (StatusCode resp =? StatusOK)
          then ret (inr (Errorf "got non-200 response" []))
          else
            match ioutil_ReadAll (RespBody resp) with
            | (_, Some err) => ret (inr (Errorf_w "cannot read response: %w" [] err))
            | (body, None) =>
                match json_Unmarshal w body with
                | inr err =>
                    log_Fatalf "cannot unmarshal json: %s, body: %q" [AErr err; ABytes body]
                | inl response => ret (inl response)
                end
            end
      end
  end.

(** *** [main] (lines 51-108) *)

(** The loop over the photos of one page (lines 93-98). *)
Fixpoint photosLoop (photos : list Photo) (dst : string) : M unit :=
  match photos with
  | [] => ret tt
  | p :: photos' =>
      let photoURL := Large2x (PhotoSrc p) in
      let* e := processPhoto photoURL dst in
      match e with
      | Some err => log_Fatalf "failed to process photo %s: %s" [AStr photoURL; AErr err]
      | None => photosLoop photos' dst
      end
  end.

(** The pagination loop (lines 85-105).  It has no bound of its own: [fuel]
    counts the iterations the model is allowed, and [OutOfFuel] is the loop
    still running when they are used up. *)
Fixpoint pageLoop (fuel : nat) (nextPage key dst : string) (totalCount : Z) : M Z :=
  match fuel with
  | O => out_of_fuel
  | S fuel' =>
      let* r := sendRequest nextPage key in
      match r with
      | inr err => log_Fatalf "send request: %s, url: %s" [AErr err; AStr nextPage]
      | inl resp =>
          let totalCount := int_add totalCount (Z.of_nat (List.length (Photos resp))) in
          let* _ := photosLoop (Photos resp) dst in
          let* _ := log_Printf "processed: %d" [AInt totalCount] in
          let nextPage := NextPage resp in
          if String.eqb nextPage "" then ret totalCount
          else pageLoop fuel' nextPage key dst totalCount
      end
  end.

(** [main] from line 58 on.  [key], [dst] and [query] are the values of the
    three flags once [flag.Parse] (lines 52-56) has returned; the parsing of
    the command line is not part of the model: on a command line that
    [flag.Parse] does not accept the process ends there, before anything
    below (status 2, or status 0 after printing the usage for [-h]). *)
Definition main (fuel : nat) (key dst query : string) : M unit :=
  if String.eqb key "" then log_Fatalf "no key provided" []
  else
    let* dst :=
      if String.eqb dst "" then
        let* _ := log_Printf "using default destination %q at work directory"
                    [AStr "output"] in
        ret "output"
      else ret dst in
    let* e := mkdir dst in
    let* _ :=
      match e with
      | Some err =>
          if negb (os_IsExist w err)
          then log_Fatalf "cannot create destination directory: %s" [AErr err]
          else ret tt
      | None => ret tt
      end in
    match compileFirstURL query with
    | (_, Some err) => log_Fatalf "compile first url: %s" [AErr err]
    | (nextPage, None) =>
        let* totalCount := pageLoop fuel nextPage key dst 0 in
        log_Printf "done, total count is %d" [AInt totalCount]
    end.

End Program.

(** ** Notions the properties are stated with *)

Definition empty_sys : Sys := {| files := ∅; trace := [] |}.

Definition add_events (s : Sys) (evs : list Event) : Sys :=
  {| files := files s; trace := (trace s ++ evs)%list |}.

(** What a computation added to the trace. *)
Definition new_events (s s' : Sys) : list Event :=
  drop (List.length (trace s)) (trace s').

Fixpoint requests (evs : list Event) : list Request :=
  match evs with
  | [] => []
  | EvDo r :: evs' => r :: requests evs'
  | _ :: evs' => requests evs'
  end.

Fixpoint created (evs : list Event) : list string :=
  match evs with
  | [] => []
  | EvCreate p :: evs' => p :: created evs'
  | _ :: evs' => created evs'
  end.

(** The request of a page and the request of an image, as [sendRequest]
    and [downloadImage] build them. *)
Definition pageRequest (uri key : string) : Request :=
  Header_Add {| Method := "GET"; RequestURL := uri; Header := ∅ |} "Authorization" key.

Definition imageRequest (uri : string) : Request :=
  {| Method := "GET"; RequestURL := uri; Header := ∅ |}.

Definition parses (uri : string) : Prop := exists u, url.Parse uri = inl u.

Definition ok_response (body : string) : HttpResponse :=
  {| StatusCode := 200; RespBody := {| body_bytes := body; body_err := None |} |}.

(** The server answers the page request for [uri] with status 200 and a
    body that decodes to [r]. *)
Definition page_served (w : World) (uri key : string) (r : Response) : Prop :=
  parses uri /\
  exists body, client_Do w (pageRequest uri key) = inl (ok_response body)
               /\ json_Unmarshal w body = inl r.

Definition photo_path (w : World) (dst : string) (p : Photo) : string :=
  filepath_Join w dst (photoName (Large2x (PhotoSrc p))).

(** The download of the photo's [large2x] variant succeeds with [data] and
    the file can be created and written in full. *)
Definition photo_stored (w : World) (dst : string) (p : Photo) (data : string) : Prop :=
  parses (Large2x (PhotoSrc p)) /\
  client_Do w (imageRequest (Large2x (PhotoSrc p))) = inl (ok_response data) /\
  os_Create w (photo_path w dst p) = None /\
  match write_limit w (photo_path w dst p) with
  | Some (k, _) => (String.length data <= k)%nat
  | None => True
  end.

Definition photos_stored (w : World) (dst : string) (photos : list Photo) : Prop :=
  Forall (fun p => exists data, photo_stored w dst p data) photos.

(** A chain of pages starting at [uri]: every page is served, every page
    but the last names the URI of its successor, the last has an empty
    [next_page]. *)
Fixpoint served_chain (w : World) (key uri : string) (pages : list Response) : Prop :=
  match pages with
  | [] => False
  | r :: rest =>
      page_served w uri key r /\
      match rest with
      | [] => NextPage r = ""
      | _ :: _ => NextPage r <> "" /\ served_chain w key (NextPage r) rest
      end
  end.

(** The requests of a run over such a chain: for each page its request,
    then the downloads of its photos. *)
Fixpoint chain_requests (key uri : string) (pages : list Response) : list Request :=
  match pages with
  | [] => []
  | r :: rest =>
      (pageRequest uri key
         :: map (fun p => imageRequest (Large2x (PhotoSrc p))) (Photos r))
        ++ chain_requests key (NextPage r) rest
  end.

Definition all_photos (pages : list Response) : list Photo :=
  List.concat (map Photos pages).

Definition count_photos (total : Z) (pages : list Response) : Z :=
  fold_left (fun t r => int_add t (Z.of_nat (List.length (Photos r)))) pages total.

(** The page that [sendRequest] returns for [uri], when it returns one; the
    answer does not depend on the state it runs in. *)
Definition fetch_page (w : World) (uri key : string) : option Response :=
  match fst (sendRequest w uri key empty_sys) with
  | Ret (inl r) => Some r
  | _ => None
  end.

(** The [n]-th page of the chain of cursors that starts at [uri]. *)
Fixpoint nth_page (w : World) (key uri : string) (n : nat) : option Response :=
  match fetch_page w uri key with
  | None => None
  | Some r =>
      match n with
      | O => Some r
      | S n' => if String.eqb (NextPage r) "" then None
                else nth_page w key (NextPage r) n'
      end
  end.

Definition first_uri (query : string) : string := fst (compileFirstURL query).

(** The server eventually returns an empty next-page cursor. *)
Definition eventually_empty (w : World) (key query : string) : Prop :=
  exists n r, nth_page w key (first_uri query) n = Some r /\ NextPage r = "".

(** The run ends: with enough fuel the loop is not still running. *)
Definition terminates (w : World) (key dst query : string) (s : Sys) : Prop :=
  exists fuel, fst (main w fuel key dst query s) <> OutOfFuel.

(** What [io.Copy] leaves in the file. *)
Definition copied (w : World) (path : string) (img : Body) : string * option error :=
  match write_limit w path with
  | Some (k, werr) =>
      if (k <? String.length (body_bytes img))%nat
      then (string_take k (body_bytes img), Some werr)
      else (body_bytes img, body_err img)
  | None => (body_bytes img, body_err img)
  end.

(** The state after a photo is stored: the requests and file operations of
    [processPhoto] on its success path, and the file with the image bytes. *)
Definition photo_data (w : World) (p : Photo) : string :=
  match client_Do w (imageRequest (Large2x (PhotoSrc p))) with
  | inl resp => body_bytes (RespBody resp)
  | inr _ => ""
  end.

Definition photo_events (w : World) (dst : string) (p : Photo) : list Event :=
  [EvDo (imageRequest (Large2x (PhotoSrc p)));
   EvCreate (photo_path w dst p);
   EvCopy (photo_path w dst p) (photo_data w p)].

Definition store_photo (w : World) (dst : string) (s : Sys) (p : Photo) : Sys :=
  {| files := <[photo_path w dst p := photo_data w p]> (files s);
     trace := (trace s ++ photo_events w dst p)%list |}.

Definition stored_events (w : World) (dst : string) (photos : list Photo) : list Event :=
  List.concat (map (photo_events w dst) photos).

(** The state after the loop went through a served chain of pages. *)
Fixpoint chain_state (w : World) (key dst uri : string) (pages : list Response)
    (total : Z) (s : Sys) : Sys :=
  match pages with
  | [] => s
  | r :: rest =>
      let total' := int_add total (Z.of_nat (List.length (Photos r))) in
      let s1 := add_events s [EvDo (pageRequest uri key)] in
      let s2 := fold_left (store_photo w dst) (Photos r) s1 in
      let s3 := add_events s2 [EvLog "processed: %d" [AInt total']] in
      chain_state w key dst (NextPage r) rest total' s3
  end.

(** What the loop adds to the trace over a served chain of pages whose
    photos are stored: for each page its request, then for each of its photos
    the download, the creation of the file and the copy of the image bytes
    into it, then the line with the running count; the request of the next
    page comes after all of that. *)
Fixpoint chain_events (w : World) (key dst uri : string) (pages : list Response)
    (total : Z) : list Event :=
  match pages with
  | [] => []
  | r :: rest =>
      let total' := int_add total (Z.of_nat (List.length (Photos r))) in
      (EvDo (pageRequest uri key) :: stored_events w dst (Photos r))
        ++ EvLog "processed: %d" [AInt total']
        :: chain_events w key dst (NextPage r) rest total'
  end.

(** Page requests are the requests that carry an [Authorization] header. *)
Definition is_page_request (r : Request) : bool :=
  match Header r !! "Authorization" with
  | Some _ => true
  | None => false
  end.

(** The destination directory [main] works with. *)
Definition destination (dst : string) : string :=
  if String.eqb dst "" then "output" else dst.

Definition mkdir_ok (w : World) (dir : string) : Prop :=
  match os_Mkdir w dir with
  | None => True
  | Some err => os_IsExist w err = true
  end.

(** The directory cannot be made, and not because it is there already. *)
Definition mkdir_fails (w : World) (dir : string) : Prop :=
  exists err, os_Mkdir w dir = Some err /\ os_IsExist w err = false.

(** What the server, the network and the file system do along the chain of
    cursors that starts at [uri], said without the program: [n] pages in a
    row are served, the photos of each can be downloaded and stored in
    [dir], the cursor of each is not empty, and [P] holds of the cursor of
    the last of them (of [uri] itself when [n] is [0]). *)
Fixpoint after_pages (w : World) (key dir : string) (n : nat) (uri : string)
    (P : string -> Prop) : Prop :=
  match n with
  | O => P uri
  | S n' =>
      exists r, page_served w uri key r
                /\ photos_stored w dir (Photos r)
                /\ NextPage r <> ""
                /\ after_pages w key dir n' (NextPage r) P
  end.

(** The page at [uri] is served with an empty cursor, and its photos can be
    downloaded and stored. *)
Definition last_page (w : World) (key dir uri : string) : Prop :=
  exists r, page_served w uri key r /\ photos_stored w dir (Photos r) /\ NextPage r = "".

(** A step fails at the page at [uri]: the page request does not succeed
    (the URI does not parse, the network call errors, the status is not 200,
    the body cannot be read or does not decode), or the page is served and
    one of its photos cannot be downloaded and stored. *)
Definition failing_page (w : World) (key dir uri : string) : Prop :=
  (~ exists r, page_served w uri key r)
  \/ exists r, page_served w uri key r /\ ~ photos_stored w dir (Photos r).

(** The chain of cursors never ends and nothing fails along it. *)
Definition goes_on_forever (w : World) (key dir uri : string) : Prop :=
  forall n, after_pages w key dir n uri (fun _ => True).

(** The bytes [QueryEscape] can produce: letters, digits, the four marks,
    and the [+] and [%] of its own encoding. *)
Definition qsafe (c : ascii) : bool :=
  url.is_letter c || url.is_digit c || url.byte_in c "-_.~+%".

(** The string has no byte [x]. *)
Definition lacks (x : ascii) (s : string) : bool :=
  string_forallb (fun c => negb (Ascii.eqb c x)) s.

(** The files after the photos are stored. *)
Definition store_files (w : World) (dst : string) (photos : list Photo)
    (fs : gmap string string) : gmap string string :=
  fold_left (fun fs p => <[photo_path w dst p := photo_data w p]> fs) photos fs.

(** ** Worlds to run the program in *)

Definition photo_of (large2x : string) : Photo :=
  {| ID := 0; Width := 0; Height := 0; URL := ""; Photographer := "";
     PhotographerURL := ""; PhotographerID := 0;
     PhotoSrc := {| Original := ""; Large2x := large2x; Large := ""; Medium := "";
                    Small := ""; Portrait := ""; Landscape := ""; Tiny := "" |};
     Liked := false |}.

Definition page_of (total : Z) (photos : list Photo) (next : string) : Response :=
  {| TotalResults := total; Page := 0; PerPage := 0; Photos := photos;
     NextPage := next |}.

(** A world given by its HTTP server and its JSON decoder; directories and
    files can always be created and written, and paths are joined with a
    slash. *)
Definition world_of (server : Request -> HttpResponse + error)
    (decode : string -> Response + error) : World :=
  {| client_Do := server;
     json_Unmarshal := decode;
     os_Mkdir := fun _ => None;
     os_IsExist := fun _ => false;
     os_Create := fun _ => None;
     write_limit := fun _ => None;
     filepath_Join := fun dir name => dir ++ "/" ++ name |}.

Definition no_decoder (body : string) : Response + error :=
  inr (ErrorString "unexpected end of JSON input").

(** Every request is answered with status 500. *)
Definition world_500 : World :=
  world_of (fun _ => inl {| StatusCode := 500;
                            RespBody := {| body_bytes := ""; body_err := None |} |})
           no_decoder.

(** The network is down. *)
Definition world_down : World :=
  world_of (fun _ => inr (ErrorString "dial tcp: connection refused")) no_decoder.

(** The server answers 200 with a body that is not JSON. *)
Definition world_html : World :=
  world_of (fun _ => inl (ok_response "<html>")) no_decoder.

(** The scenario of one page with one photo: the search answers with a page
    whose only photo is [https://x/cats1.jpg] and whose cursor is empty; the
    image host answers with the bytes [JPEG]. *)
Definition cats_body : string := "{total_results:1,photos:[{src:{large2x:https://x/cats1.jpg}}],next_page:}".

Definition cats_page : Response :=
  page_of 1 [photo_of "https://x/cats1.jpg"] "".

Definition world_cats : World :=
  world_of
    (fun r =>
       if String.eqb (RequestURL r) "https://x/cats1.jpg"
       then inl (ok_response "JPEG")
       else inl (ok_response cats_body))
    (fun body => if String.eqb body cats_body then inl cats_page else no_decoder body).

(** The same search answer, but the image host answers 404. *)
Definition world_404 : World :=
  world_of
    (fun r =>
       if String.eqb (RequestURL r) "https://x/cats1.jpg"
       then inl {| StatusCode := 404;
                   RespBody := {| body_bytes := "not found"; body_err := None |} |}
       else inl (ok_response cats_body))
    (fun body => if String.eqb body cats_body then inl cats_page else no_decoder body).

(** A server whose every page is empty and points to a further page. *)
Definition endless_page : Response := page_of 0 [] "https://api.pexels.com/v1/next".

Definition world_endless : World :=
  world_of (fun _ => inl (ok_response "{}")) (fun _ => inl endless_page).

(** Two pages: the first with two photos, the second with one. *)
Definition two_pages : list Response :=
  [ page_of 3 [photo_of "https://x/a.jpg?w=1"; photo_of "https://x/b.jpg"]
      "https://api.pexels.com/v1/search?page=2";
    page_of 3 [photo_of "https://x/c.jpg"] "" ].

Definition world_two_pages : World :=
  world_of
    (fun r =>
       if strings_HasPrefix (RequestURL r) "https://x/" then inl (ok_response "JPEG")
       else if String.eqb (RequestURL r) "https://api.pexels.com/v1/search?page=2"
       then inl (ok_response "page2")
       else inl (ok_response "page1"))
    (fun body =>
       if String.eqb body "page1" then inl (page_of 3 [photo_of "https://x/a.jpg?w=1"; photo_of "https://x/b.jpg"] "https://api.pexels.com/v1/search?page=2")
       else if String.eqb body "page2" then inl (page_of 3 [photo_of "https://x/c.jpg"] "")
       else no_decoder body).

(** The same two pages, but the image host answers every download with
    status 404. *)
Definition world_broken_images : World :=
  world_of
    (fun r =>
       if strings_HasPrefix (RequestURL r) "https://x/"
       then inl {| StatusCode := 404;
                   RespBody := {| body_bytes := "not found"; body_err := None |} |}
       else if String.eqb (RequestURL r) "https://api.pexels.com/v1/search?page=2"
       then inl (ok_response "page2")
       else inl (ok_response "page1"))
    (fun body =>
       if String.eqb body "page1" then inl (page_of 3 [photo_of "https://x/a.jpg?w=1"; photo_of "https://x/b.jpg"] "https://api.pexels.com/v1/search?page=2")
       else if String.eqb body "page2" then inl (page_of 3 [photo_of "https://x/c.jpg"] "")
       else no_decoder body).

(** ** Further notions *)

(** The position of the last byte [x] of a string, when it has one. *)
Fixpoint last_pos (x : ascii) (s : string) : option nat :=
  match s with
  | EmptyString => None
  | String c s' =>
      match last_pos x s' with
      | Some k => Some (S k)
      | None => if Ascii.eqb c x then Some O else None
      end
  end.

(** Printable ASCII: the bytes from [!] to [~]. *)
Definition printable (c : ascii) : bool := (33 <=? byteZ c) && (byteZ c <=? 126).

(** The two kinds of request the program makes. *)
Definition run_request (key : string) (r : Request) : Prop :=
  exists uri, r = pageRequest uri key \/ r = imageRequest uri.

(** A path that names a photo file in the directory [dir]. *)
Definition photo_file (w : World) (dir path : string) : Prop :=
  exists photoURL, path = filepath_Join w dir (photoName photoURL).

(** What a part of the run may do to the state: add to the trace requests
    of the two kinds and creations of photo files, add files, and change the
    content of the files it created and of no other. *)
Definition run_effect (w : World) (key dir : string) (s s' : Sys) : Prop :=
  exists evs,
    trace s' = (trace s ++ evs)%list
    /\ Forall (run_request key) (requests evs)
    /\ Forall (photo_file w dir) (created evs)
    /\ dom (files s) ⊆ dom (files s')
    /\ (forall path, path ∉ created evs -> files s' !! path = files s !! path).

(** How a computation may end: by returning, by running out of fuel, or by
    exiting with status 1 right after a fatal log line. *)
Definition ends_properly {A} (r : Result A * Sys) : Prop :=
  match fst r with
  | Ret _ => True
  | Exit status => status = 1 /\ exists format args,
                     last (trace (snd r)) = Some (EvFatal format args)
  | OutOfFuel => True
  end.

(** The world of the one-page scenario with a file system that refuses to
    make the directory. *)
Definition world_no_dir : World :=
  {| client_Do := client_Do world_cats;
     json_Unmarshal := json_Unmarshal world_cats;
     os_Mkdir := fun _ => Some (ErrorString "mkdir: permission denied");
     os_IsExist := fun _ => false;
     os_Create := fun _ => None;
     write_limit := fun _ => None;
     filepath_Join := fun dir name => dir ++ "/" ++ name |}.

(** The same scenario where the directory is already there. *)
Definition world_dir_exists : World :=
  {| client_Do := client_Do world_cats;
     json_Unmarshal := json_Unmarshal world_cats;
     os_Mkdir := fun _ => Some (ErrorString "mkdir: file exists");
     os_IsExist := fun _ => true;
     os_Create := fun _ => None;
     write_limit := fun _ => None;
     filepath_Join := fun dir name => dir ++ "/" ++ name |}.

(** The one-page scenario on a file system where no file can be created. *)
Definition world_read_only : World :=
  {| client_Do := client_Do world_cats;
     json_Unmarshal := json_Unmarshal world_cats;
     os_Mkdir := fun _ => None;
     os_IsExist := fun _ => false;
     os_Create := fun _ => Some (ErrorString "open: read-only file system");
     write_limit := fun _ => None;
     filepath_Join := fun dir name => dir ++ "/" ++ name |}.

(** The one-page scenario on a disk with room for two more bytes. *)
Definition world_disk_full : World :=
  {| client_Do := client_Do world_cats;
     json_Unmarshal := json_Unmarshal world_cats;
     os_Mkdir := fun _ => None;
     os_IsExist := fun _ => false;
     os_Create := fun _ => None;
     write_limit := fun _ => Some (2%nat, ErrorString "write: no space left on device");
     filepath_Join := fun dir name => dir ++ "/" ++ name |}.

(** An image host that answers every request with the requested URL as the
    body, so that different URLs give different files. *)
Definition world_echo : World :=
  world_of (fun r => inl (ok_response (RequestURL r))) no_decoder.

(** A server whose page bodies break off while they are read. *)
Definition world_truncated : World :=
  world_of
    (fun _ => inl {| StatusCode := 200;
                     RespBody := {| body_bytes := "{total_res";
                                    body_err := Some (ErrorString "unexpected EOF") |} |})
    no_decoder.

(** The totals that the loop logs after its pages, one per [processed]
    line. *)
Definition processed_total (e : Event) : option Z :=
  match e with
  | EvLog format [AInt n] => if String.eqb format "processed: %d" then Some n else None
  | _ => None
  end.

Definition progress (evs : list Event) : list Z := omap processed_total evs.

(** The number of photos of the first page, of the first two pages, and so
    on, counted from [total]. *)
Fixpoint running_totals (total : Z) (pages : list Response) : list Z :=
  match pages with
  | [] => []
  | r :: rest =>
      let total' := total + Z.of_nat (List.length (Photos r)) in
      total' :: running_totals total' rest
  end.

(** The bytes that the last photo of the list named [path] leaves there. *)
Fixpoint last_data (w : World) (dst path : string) (photos : list Photo) : option string :=
  match photos with
  | [] => None
  | p :: rest =>
      match last_data w dst path rest with
      | Some d => Some d
      | None => if String.eqb (photo_path w dst p) path then Some (photo_data w p) else None
      end
  end.

(** A served page whose cursor is not a URL. *)
Definition bad_cursor_page : Response :=
  page_of 2 [photo_of "https://x/cats1.jpg"] "https://api.pexels.com /v1/search?page=2".

Definition world_bad_cursor : World :=
  world_of
    (fun r =>
       if String.eqb (RequestURL r) "https://x/cats1.jpg"
       then inl (ok_response "JPEG")
       else inl (ok_response "page"))
    (fun _ => inl bad_cursor_page).
(** * Properties *)

(** ** The library embeddings on concrete inputs *)

Example photoName_corner :
  photoName "" = "." /\ photoName "///" = "/" /\ photoName "a/b/" = "b"
  /\ photoName "https://images.example.com/photos/42/pic.jpg" = "pic.jpg".
Proof. repeat split; vm_compute; reflexivity. Qed.

Example QueryEscape_ex :
  url.QueryEscape "black cat & co/ü?" = "black+cat+%26+co%2F%C3%BC%3F".
Proof. vm_compute. reflexivity. Qed.

Example QueryUnescape_ex :
  url.QueryUnescape "black+cat+%26+co%2f%C3%BC%3F" = inl "black cat & co/ü?"
  /\ url.QueryUnescape "100%" = inr (EscapeError "%")
  /\ url.QueryUnescape "a%zzb" = inr (EscapeError "%zz").
Proof. repeat split; vm_compute; reflexivity. Qed.

Example Parse_examples :
  url.Parse ":x" = inr (url_Error "parse" ":x" (ErrorString "missing protocol scheme"))
  /\ url.Parse "http://h:8o/" =
       inr (url_Error "parse" "http://h:8o/" (Errorf "invalid port %q after host" [":8o"]))
  /\ url.Parse "HTTP://u:p@h/a%20b?#f" =
       inl {| url.Scheme := "http"; url.Opaque := "";
              url.User := Some {| url.username := "u"; url.password := "p";
                                  url.passwordSet := true |};
              url.Host := "h"; url.Path := "/a b"; url.RawPath := "";
              url.OmitHost := false; url.ForceQuery := true;
              url.RawQuery := ""; url.Fragment := "f"; url.RawFragment := "" |}.
Proof. repeat split; vm_compute; reflexivity. Qed.

Example URL_String_examples :
  (forall u, url.Parse "HTTP://u:p@h/a%20b?#f" = inl u ->
             url.URL_String u = "http://u:p@h/a%20b?#f")
  /\ (forall u, url.Parse "mailto:a@b.c" = inl u -> url.URL_String u = "mailto:a@b.c")
  /\ (forall u, url.Parse "/x/y?z=1" = inl u -> url.URL_String u = "/x/y?z=1").
Proof.
  repeat split; intros u H; vm_compute in H; injection H as <-; vm_compute; reflexivity.
Qed.

Example Values_Encode_sorted :
  url.Values_Encode (url.Values_Set (url.Values_Set (url.Values_Set ∅ "b" "2") "a" "1 x") "c" "")
  = "a=1+x&b=2&c=".
Proof. vm_compute. reflexivity. Qed.

Example compileFirstURL_examples :
  compileFirstURL "cats"
  = ("https://api.pexels.com/v1/search?page=1&per_page=80&query=cats", None)
  /\ compileFirstURL "a b&c=d/é"
     = ("https://api.pexels.com/v1/search?page=1&per_page=80&query=a+b%26c%3Dd%2F%C3%A9",
        None).
Proof. split; vm_compute; reflexivity. Qed.

(** ** Bytes *)

(** A property of bytes that holds of each of the 256 holds of all. *)
Lemma byte_cases (P : ascii -> bool) :
  forallb (fun n => P (ascii_of_nat n)) (seq 0 256) = true -> forall c, P c = true.
Proof.
  intros H c. rewrite forallb_forall in H.
  rewrite <- (ascii_nat_embedding c). apply H.
  apply in_seq. pose proof (nat_ascii_bounded c). lia.
Qed.

Lemma unescaped_byte c :
  implb (negb (url.shouldEscape c url.encodeQueryComponent))
        (qsafe c && negb (Ascii.eqb c "%") && negb (Ascii.eqb c "+")) = true.
Proof.
  revert c. apply (byte_cases (fun c => implb _ _)). vm_compute. reflexivity.
Qed.

Lemma hex_byte c :
  let hi := url.upperhex (Z.shiftr (byteZ c) 4) in
  let lo := url.upperhex (Z.land (byteZ c) 15) in
  url.ishex hi && url.ishex lo && qsafe hi && qsafe lo
  && Ascii.eqb (url.byte_of_Z (Z.lor (Z.shiftl (url.unhex hi) 4) (url.unhex lo))) c
  = true.
Proof.
  revert c. apply (byte_cases (fun c => _ && _)). vm_compute. reflexivity.
Qed.

Lemma qsafe_plain c :
  implb (qsafe c)
        (negb (url.byte_in c "#?&=;:/@") && negb ((byteZ c <? 32) || (byteZ c =? 127)))
  = true.
Proof.
  revert c. apply (byte_cases (fun c => implb _ _)). vm_compute. reflexivity.
Qed.

Lemma escape_cons c r m :
  url.escape (String c r) m =
  if Ascii.eqb c " " && url.encoding_eqb m url.encodeQueryComponent then
    String "+" (url.escape r m)
  else if url.shouldEscape c m then
    String "%" (String (url.upperhex (Z.shiftr (byteZ c) 4))
               (String (url.upperhex (Z.land (byteZ c) 15)) (url.escape r m)))
  else String c (url.escape r m).
Proof. reflexivity. Qed.

Ltac split_andb H :=
  repeat (let H' := fresh H in apply andb_prop in H; destruct H as [H H']).

Lemma QueryEscape_qsafe q : string_forallb qsafe (url.QueryEscape q) = true.
Proof.
  unfold url.QueryEscape. induction q as [|c q IH]; [reflexivity|].
  rewrite escape_cons.
  destruct (Ascii.eqb c " " && _) eqn:Hsp.
  - cbn [string_forallb]. rewrite IH. reflexivity.
  - destruct (url.shouldEscape c _) eqn:Hesc.
    + pose proof (hex_byte c) as H. cbv zeta in H. split_andb H.
      cbn [string_forallb]. rewrite IH, H1, H2. reflexivity.
    + pose proof (unescaped_byte c) as H. rewrite Hesc in H. cbn [negb implb] in H.
      split_andb H. cbn [string_forallb]. rewrite IH, H. reflexivity.
Qed.

Lemma unescape_check_cons c r m :
  url.unescape_check (String c r) m =
  if Ascii.eqb c "%" then
    match r with
    | String h1 (String h2 r') =>
        if url.ishex h1 && url.ishex h2 then
          let esc := string_take 3 (String c r) in
          if url.encoding_eqb m url.encodeHost && (url.unhex h1 <? 8)
             && negb (String.eqb esc "%25")
          then Some (EscapeError esc)
          else
            let v := url.byte_of_Z (Z.lor (Z.shiftl (url.unhex h1) 4) (url.unhex h2)) in
            if url.encoding_eqb m url.encodeZone && negb (String.eqb esc "%25")
               && negb (Ascii.eqb v " ") && url.shouldEscape v url.encodeHost
            then Some (EscapeError esc)
            else url.unescape_check r' m
        else Some (EscapeError (string_take 3 (String c r)))
    | _ => Some (EscapeError (string_take 3 (String c r)))
    end
  else if (url.encoding_eqb m url.encodeHost || url.encoding_eqb m url.encodeZone)
          && (byteZ c <? 128) && url.shouldEscape c url.encodeHost
  then Some (InvalidHostError (String c EmptyString))
  else url.unescape_check r m.
Proof. reflexivity. Qed.

Lemma unescape_build_cons c r m :
  url.unescape_build (String c r) m =
  if Ascii.eqb c "%" then
    match r with
    | String h1 (String h2 r') =>
        String (url.byte_of_Z (Z.lor (Z.shiftl (url.unhex h1) 4) (url.unhex h2)))
               (url.unescape_build r' m)
    | _ => String c (url.unescape_build r m)
    end
  else if Ascii.eqb c "+" then
    String (if url.encoding_eqb m url.encodeQueryComponent then " "%char else "+"%char)
           (url.unescape_build r m)
  else String c (url.unescape_build r m).
Proof. reflexivity. Qed.

(** Decoding undoes encoding, byte for byte. *)
Lemma QueryUnescape_QueryEscape q : url.QueryUnescape (url.QueryEscape q) = inl q.
Proof.
  unfold url.QueryUnescape, url.QueryEscape, url.unescape.
  assert (Hc : url.unescape_check (url.escape q url.encodeQueryComponent)
                 url.encodeQueryComponent = None
               /\ url.unescape_build (url.escape q url.encodeQueryComponent)
                    url.encodeQueryComponent = q).
  { induction q as [|c q [IHc IHb]]; [split; reflexivity|].
    rewrite escape_cons.
    destruct (Ascii.eqb c " " && _) eqn:Hsp.
    - apply andb_prop in Hsp as [Hsp _]. apply Ascii.eqb_eq in Hsp. subst c.
      rewrite unescape_check_cons, unescape_build_cons. cbn. rewrite IHc, IHb.
      split; reflexivity.
    - destruct (url.shouldEscape c _) eqn:Hesc.
      + pose proof (hex_byte c) as H. cbv zeta in H. split_andb H.
        apply Ascii.eqb_eq in H0.
        rewrite unescape_check_cons, unescape_build_cons.
        rewrite H, H3. cbn -[url.unhex url.upperhex url.byte_of_Z Z.shiftl Z.lor Z.shiftr Z.land].
        rewrite IHc, IHb, H0. split; reflexivity.
      + pose proof (unescaped_byte c) as H. rewrite Hesc in H. cbn [negb implb] in H.
        split_andb H. apply negb_true_iff in H0, H1.
        rewrite unescape_check_cons, unescape_build_cons. rewrite H1, H0.
        cbn. rewrite IHc, IHb. split; reflexivity. }
  destruct Hc as [-> ->]. reflexivity.
Qed.

(** ** Scanning a string that ends in an escaped query *)

Lemma string_forallb_app p a b :
  string_forallb p (a ++ b) = string_forallb p a && string_forallb p b.
Proof.
  induction a as [|c a IH]; [reflexivity|].
  simpl. rewrite IH. apply andb_assoc.
Qed.

Lemma string_forallb_impl (p q : ascii -> bool) s :
  (forall c, implb (p c) (q c) = true) ->
  string_forallb p s = true -> string_forallb q s = true.
Proof.
  intros Hpq. induction s as [|c s IH]; [reflexivity|].
  cbn [string_forallb]. intros H. apply andb_prop in H as [Hc Hs].
  specialize (Hpq c). rewrite Hc in Hpq. cbn in Hpq. rewrite Hpq, IH; auto.
Qed.

Lemma lacks_app x a b : lacks x (a ++ b) = lacks x a && lacks x b.
Proof. apply string_forallb_app. Qed.

Lemma qsafe_lacks x s :
  url.byte_in x "#?&=;:/@" = true ->
  string_forallb qsafe s = true -> lacks x s = true.
Proof.
  intros Hx. apply string_forallb_impl. intros c.
  pose proof (qsafe_plain c) as H. destruct (qsafe c); [|reflexivity].
  cbn [implb] in *. apply andb_prop in H as [H _].
  destruct (Ascii.eqb_spec c x) as [->|]; [|reflexivity].
  rewrite Hx in H. discriminate.
Qed.

Lemma qsafe_no_CTL s :
  string_forallb qsafe s = true -> url.stringContainsCTLByte s = false.
Proof.
  intros H. unfold url.stringContainsCTLByte, string_existsb.
  apply negb_false_iff. revert H. apply string_forallb_impl. intros c.
  pose proof (qsafe_plain c) as H. destruct (qsafe c); [|reflexivity].
  cbn [implb] in *. apply andb_prop in H as [_ H]. exact H.
Qed.

Lemma stringContainsCTLByte_app a b :
  url.stringContainsCTLByte (a ++ b)
  = url.stringContainsCTLByte a || url.stringContainsCTLByte b.
Proof.
  unfold url.stringContainsCTLByte, string_existsb.
  rewrite string_forallb_app. apply negb_andb.
Qed.

Lemma strings_Index_cons c s sub :
  strings_Index (String c s) sub =
  if strings_HasPrefix (String c s) sub then 0
  else let i := strings_Index s sub in if i =? -1 then -1 else i + 1.
Proof. reflexivity. Qed.

Lemma HasPrefix_byte c s x :
  strings_HasPrefix (String c s) (String x "") = Ascii.eqb c x.
Proof. cbn. apply andb_true_r. Qed.

Lemma HasPrefix_length s sub :
  strings_HasPrefix s sub = true -> (String.length sub <= String.length s)%nat.
Proof.
  revert s. induction sub as [|p sub IH]; intros s H; [cbn; lia|].
  destruct s as [|c s]; [discriminate|]. cbn in H.
  apply andb_prop in H as [_ H]. apply IH in H. cbn. lia.
Qed.

Lemma strings_Index_range s sub :
  strings_Index s sub <> -1 ->
  0 <= strings_Index s sub /\ strings_Index s sub + len sub <= len s.
Proof.
  unfold len. induction s as [|c s IH].
  - unfold strings_Index. destruct (strings_HasPrefix "" sub) eqn:E; [|congruence].
    apply HasPrefix_length in E. lia.
  - rewrite strings_Index_cons. destruct (strings_HasPrefix _ _) eqn:E.
    + apply HasPrefix_length in E. lia.
    + cbv zeta. destruct (Z.eqb_spec (strings_Index s sub) (-1)); [congruence|].
      intros _. cbn [String.length]. lia.
Qed.

Lemma strings_Index_lacks x s :
  lacks x s = true -> strings_Index s (String x "") = -1.
Proof.
  induction s as [|c s IH]; [reflexivity|].
  cbn [lacks string_forallb]. fold (lacks x s). intros H.
  apply andb_prop in H as [Hc Hs]. rewrite strings_Index_cons, HasPrefix_byte.
  apply negb_true_iff in Hc. rewrite Hc. cbv zeta. rewrite (IH Hs). reflexivity.
Qed.

(** A separator byte found in the first part of a string is found there
    whatever follows. *)
Lemma strings_Index_app_found x a b :
  strings_Index a (String x "") <> -1 ->
  strings_Index (a ++ b) (String x "") = strings_Index a (String x "").
Proof.
  induction a as [|c a IH]; [cbn; congruence|].
  change (String c a ++ b) with (String c (a ++ b)).
  rewrite !strings_Index_cons, !HasPrefix_byte.
  destruct (Ascii.eqb c x); [reflexivity|]. cbv zeta. intros H.
  assert (E : strings_Index a (String x "") <> -1).
  { intros E. rewrite E in H. apply H. reflexivity. }
  rewrite (IH E). reflexivity.
Qed.

Lemma strings_Index_app_lacks x a b :
  lacks x a = true -> lacks x b = true ->
  strings_Index (a ++ b) (String x "") = -1.
Proof.
  intros Ha Hb. apply strings_Index_lacks. rewrite lacks_app, Ha, Hb. reflexivity.
Qed.

Lemma string_take_app n a b :
  (n <= String.length a)%nat -> string_take n (a ++ b) = string_take n a.
Proof.
  revert a. induction n as [|n IH]; intros a Hn; [reflexivity|].
  destruct a as [|c a]; simpl in *; [lia|]. rewrite IH; [reflexivity|lia].
Qed.

Lemma string_drop_app n a b :
  (n <= String.length a)%nat -> string_drop n (a ++ b) = string_drop n a ++ b.
Proof.
  revert a. induction n as [|n IH]; intros a Hn; [reflexivity|].
  destruct a as [|c a]; simpl in *; [lia|]. rewrite IH; [reflexivity|lia].
Qed.

(** [strings.Cut] at a separator byte that occurs in the first part. *)
Lemma strings_Cut_app_found x a b :
  strings_Index a (String x "") <> -1 ->
  strings_Cut (a ++ b) (String x "")
  = (let '(before, after, found) := strings_Cut a (String x "") in
     (before, after ++ b, found)).
Proof.
  intros H. unfold strings_Cut. rewrite (strings_Index_app_found _ _ _ H).
  pose proof (strings_Index_range a (String x "") H) as E.
  apply Z.eqb_neq in H. rewrite H. unfold slice_to, slice_from, len in *.
  cbn [String.length] in *.
  rewrite string_take_app, string_drop_app by lia. reflexivity.
Qed.

Lemma strings_Cut_lacks x s :
  lacks x s = true -> strings_Cut s (String x "") = (s, "", false).
Proof. intros H. unfold strings_Cut. rewrite (strings_Index_lacks _ _ H). reflexivity. Qed.

Lemma append_nonempty a c b : String.eqb (a ++ String c b) "" = false.
Proof. destruct a; reflexivity. Qed.

Lemma HasSuffix_cons c s suf :
  strings_HasSuffix (String c s) suf
  = String.eqb (String c s) suf || strings_HasSuffix s suf.
Proof. reflexivity. Qed.

Lemma eqb_byte c s x :
  String.eqb (String c s) (String x "") = Ascii.eqb c x && String.eqb s "".
Proof. reflexivity. Qed.

Lemma HasSuffix_lacks x s :
  lacks x s = true -> strings_HasSuffix s (String x "") = false.
Proof.
  induction s as [|c s IH]; [reflexivity|].
  cbn [lacks string_forallb]. fold (lacks x s). intros H.
  apply andb_prop in H as [Hc Hs]. rewrite HasSuffix_cons, eqb_byte.
  apply negb_true_iff in Hc. rewrite Hc, (IH Hs). reflexivity.
Qed.

(** A string whose last bytes are not [x] does not end in [x]. *)
Lemma HasSuffix_app_lacks x a c b :
  lacks x (String c b) = true ->
  strings_HasSuffix (a ++ String c b) (String x "") = false.
Proof.
  intros H. induction a as [|d a IH]; [apply HasSuffix_lacks, H|].
  change (String d a ++ String c b) with (String d (a ++ String c b)).
  rewrite HasSuffix_cons, eqb_byte, IH, append_nonempty, andb_false_r. reflexivity.
Qed.

(** ** The first request URL *)

Lemma Parse_firstURL :
  url.Parse firstURL
  = inl {| url.Scheme := "https"; url.Opaque := ""; url.User := None;
           url.Host := "api.pexels.com"; url.Path := "/v1/search"; url.RawPath := "";
           url.OmitHost := false; url.ForceQuery := false;
           url.RawQuery := "per_page=80&page=1"; url.Fragment := "";
           url.RawFragment := "" |}.
Proof. vm_compute. reflexivity. Qed.

(** The parameters of the template, parsed: two keys, one value each. *)
Lemma ParseQuery_template :
  url.ParseQuery "per_page=80&page=1"
  = (<["page" := ["1"]]> (<["per_page" := ["80"]]> ∅), None).
Proof. vm_compute. reflexivity. Qed.

(** [Encode] writes the keys in sorted order: [page], [per_page], [query]. *)
Lemma Values_Encode_query q :
  url.Values_Encode
    (url.Values_Set (<["page" := ["1"]]> (<["per_page" := ["80"]]> ∅)) "query" q)
  = "page=1&per_page=80&query=" ++ url.QueryEscape q.
Proof.
  unfold url.Values_Encode, url.Values_Set.
  set (m := <["query" := [q]]> _).
  assert (Hkeys : url.sort_strings (map fst (map_to_list m)) = ["page"; "per_page"; "query"]).
  { subst m. vm_compute. reflexivity. }
  rewrite Hkeys. cbn [fold_left].
  assert (H1 : m !! "page" = Some ["1"]) by (subst m; vm_compute; reflexivity).
  assert (H2 : m !! "per_page" = Some ["80"]) by (subst m; vm_compute; reflexivity).
  assert (H3 : m !! "query" = Some [q]) by (subst m; apply lookup_insert_eq).
  rewrite H1, H2, H3. unfold default, id. cbn [fold_left].
  generalize (url.QueryEscape q) as e. intros e. vm_compute. reflexivity.
Qed.

Lemma URL_String_first c rq :
  url.URL_String
    (url.URL_with_RawQuery
       {| url.Scheme := "https"; url.Opaque := ""; url.User := None;
          url.Host := "api.pexels.com"; url.Path := "/v1/search"; url.RawPath := "";
          url.OmitHost := false; url.ForceQuery := false;
          url.RawQuery := "per_page=80&page=1"; url.Fragment := "";
          url.RawFragment := "" |} (String c rq))
  = "https://api.pexels.com/v1/search?" ++ String c rq.
Proof. vm_compute. reflexivity. Qed.

(** What [compileFirstURL] returns, for every query. *)
Lemma compileFirstURL_eq q :
  compileFirstURL q
  = ("https://api.pexels.com/v1/search?page=1&per_page=80&query=" ++ url.QueryEscape q,
     None).
Proof.
  unfold compileFirstURL. rewrite Parse_firstURL.
  unfold url.URL_Query. cbn [url.RawQuery]. rewrite ParseQuery_template. cbn [fst].
  rewrite Values_Encode_query.
  change ("page=1&per_page=80&query=" ++ url.QueryEscape q)
    with (String "p" ("age=1&per_page=80&query=" ++ url.QueryEscape q)).
  rewrite URL_String_first. reflexivity.
Qed.

(** The URL that [compileFirstURL] builds parses back: nothing in an
    escaped query can be taken for a delimiter of the URL. *)
Lemma parse_built e :
  string_forallb qsafe e = true ->
  url.parse ("https://api.pexels.com/v1/search?page=1&per_page=80&query=" ++ e) false
  = inl {| url.Scheme := "https"; url.Opaque := ""; url.User := None;
           url.Host := "api.pexels.com"; url.Path := "/v1/search"; url.RawPath := "";
           url.OmitHost := false; url.ForceQuery := false;
           url.RawQuery := "page=1&per_page=80&query=" ++ e; url.Fragment := "";
           url.RawFragment := "" |}.
Proof.
  intros He. unfold url.parse.
  rewrite stringContainsCTLByte_app, (qsafe_no_CTL _ He).
  replace (url.stringContainsCTLByte _) with false by (vm_compute; reflexivity).
  replace (url.getScheme _)
    with (@inl (string * string) error
            ("https", "//api.pexels.com/v1/search?page=1&per_page=80&query=" ++ e))
    by reflexivity.
  change ("//api.pexels.com/v1/search?page=1&per_page=80&query=" ++ e)
    with ("//api.pexels.com/v1/search?page=1&per_page=80&query" ++ String "=" e).
  rewrite HasSuffix_app_lacks.
  2:{ change (lacks "?" (String "=" e)) with (lacks "?" e).
      apply qsafe_lacks; [reflexivity|exact He]. }
  change ("//api.pexels.com/v1/search?page=1&per_page=80&query" ++ String "=" e)
    with ("//api.pexels.com/v1/search?page=1&per_page=80&query=" ++ e).
  rewrite strings_Cut_app_found by (vm_compute; discriminate).
  replace (strings_Cut "//api.pexels.com/v1/search?page=1&per_page=80&query=" "?")
    with ("//api.pexels.com/v1/search", "page=1&per_page=80&query=", true)
    by (vm_compute; reflexivity).
  vm_compute. reflexivity.
Qed.

Lemma Parse_built e :
  string_forallb qsafe e = true ->
  url.Parse ("https://api.pexels.com/v1/search?page=1&per_page=80&query=" ++ e)
  = inl {| url.Scheme := "https"; url.Opaque := ""; url.User := None;
           url.Host := "api.pexels.com"; url.Path := "/v1/search"; url.RawPath := "";
           url.OmitHost := false; url.ForceQuery := false;
           url.RawQuery := "page=1&per_page=80&query=" ++ e; url.Fragment := "";
           url.RawFragment := "" |}.
Proof.
  intros He. unfold url.Parse. rewrite strings_Cut_lacks.
  - rewrite (parse_built _ He). reflexivity.
  - rewrite lacks_app, (qsafe_lacks "#" e); [reflexivity|reflexivity|exact He].
Qed.

Lemma parseQuery_loop_S fuel m query err :
  url.parseQuery_loop (S fuel) m query err =
  if String.eqb query "" then (m, err)
  else
    let '(key, query', _) := strings_Cut query "&" in
    if strings_Contains key ";" then
      url.parseQuery_loop fuel m query'
        (Some (Errorf "invalid semicolon separator in query" []))
    else if String.eqb key "" then url.parseQuery_loop fuel m query' err
    else
      let '(key, value, _) := strings_Cut key "=" in
      match url.QueryUnescape key with
      | inr err1 =>
          url.parseQuery_loop fuel m query'
            (match err with None => Some err1 | Some _ => err end)
      | inl key =>
          match url.QueryUnescape value with
          | inr err1 =>
              url.parseQuery_loop fuel m query'
                (match err with None => Some err1 | Some _ => err end)
          | inl value => url.parseQuery_loop fuel (url.Values_Add m key value) query' err
          end
      end.
Proof. reflexivity. Qed.

Lemma parseQuery_loop_empty fuel m err :
  url.parseQuery_loop fuel m "" err = (m, err).
Proof. destruct fuel; reflexivity. Qed.

Lemma string_take_length a b : string_take (String.length a) (a ++ b) = a.
Proof. induction a as [|c a IH]; [destruct b; reflexivity|]. simpl. rewrite IH. reflexivity. Qed.

Lemma string_drop_length a b : string_drop (String.length a) (a ++ b) = b.
Proof. induction a as [|c a IH]; [reflexivity|]. simpl. exact IH. Qed.

Lemma string_drop_first a x b :
  string_drop (S (String.length a)) (a ++ String x b) = b.
Proof. induction a as [|c a IH]; [reflexivity|]. simpl. exact IH. Qed.

Lemma strings_Index_first x a b :
  lacks x a = true -> strings_Index (a ++ String x b) (String x "") = len a.
Proof.
  unfold len. induction a as [|c a IH]; intros H.
  - change ("" ++ String x b) with (String x b).
    rewrite strings_Index_cons, HasPrefix_byte, Ascii.eqb_refl. reflexivity.
  - cbn [lacks string_forallb] in H. fold (lacks x a) in H.
    apply andb_prop in H as [Hc Ha]. apply negb_true_iff in Hc.
    change (String c a ++ String x b) with (String c (a ++ String x b)).
    rewrite strings_Index_cons, HasPrefix_byte, Hc. cbv zeta. rewrite (IH Ha).
    cbn [String.length]. destruct (Z.eqb_spec (Z.of_nat (String.length a)) (-1)); lia.
Qed.

(** [strings.Cut] at the first separator byte. *)
Lemma strings_Cut_first x a b :
  lacks x a = true -> strings_Cut (a ++ String x b) (String x "") = (a, b, true).
Proof.
  intros H. unfold strings_Cut. rewrite (strings_Index_first _ _ _ H).
  unfold len, slice_to, slice_from. cbn [String.length].
  replace (Z.of_nat (String.length a) =? -1) with false by (symmetry; apply Z.eqb_neq; lia).
  rewrite Nat2Z.id.
  replace (Z.to_nat (Z.of_nat (String.length a) + Z.of_nat 1)) with (S (String.length a)) by lia.
  rewrite string_take_length, string_drop_first. reflexivity.
Qed.

Lemma strings_Contains_lacks x s :
  lacks x s = true -> strings_Contains s (String x "") = false.
Proof. intros H. unfold strings_Contains. rewrite (strings_Index_lacks _ _ H). reflexivity. Qed.

(** One [key=value] pair in front of the rest of a query. *)
Lemma parseQuery_loop_pair fuel m k v rest err :
  let pair := k ++ String "=" v in
  lacks "&" pair = true -> lacks ";" pair = true -> lacks "=" k = true ->
  url.parseQuery_loop (S fuel) m (pair ++ String "&" rest) err =
  match url.QueryUnescape k with
  | inr err1 =>
      url.parseQuery_loop fuel m rest (match err with None => Some err1 | Some _ => err end)
  | inl key =>
      match url.QueryUnescape v with
      | inr err1 =>
          url.parseQuery_loop fuel m rest
            (match err with None => Some err1 | Some _ => err end)
      | inl value => url.parseQuery_loop fuel (url.Values_Add m key value) rest err
      end
  end.
Proof.
  intros pair Hamp Hsemi Heq. rewrite parseQuery_loop_S.
  rewrite append_nonempty, (strings_Cut_first _ _ _ Hamp).
  rewrite (strings_Contains_lacks _ _ Hsemi).
  unfold pair at 1. rewrite append_nonempty.
  unfold pair. rewrite (strings_Cut_first _ _ _ Heq). reflexivity.
Qed.

(** The last pair of a query. *)
Lemma parseQuery_loop_last fuel m k v err :
  let pair := k ++ String "=" v in
  lacks "&" pair = true -> lacks ";" pair = true -> lacks "=" k = true ->
  url.parseQuery_loop (S fuel) m pair err =
  match url.QueryUnescape k with
  | inr err1 => (m, match err with None => Some err1 | Some _ => err end)
  | inl key =>
      match url.QueryUnescape v with
      | inr err1 => (m, match err with None => Some err1 | Some _ => err end)
      | inl value => (url.Values_Add m key value, err)
      end
  end.
Proof.
  intros pair Hamp Hsemi Heq. rewrite parseQuery_loop_S.
  unfold pair in *. rewrite append_nonempty.
  rewrite (strings_Cut_lacks _ _ Hamp), (strings_Contains_lacks _ _ Hsemi).
  rewrite append_nonempty, (strings_Cut_first _ _ _ Heq).
  destruct (url.QueryUnescape k); [destruct (url.QueryUnescape v)|];
    apply parseQuery_loop_empty.
Qed.

(** The query of the built URL, parsed: the template's two parameters and
    the decoded search query. *)
Lemma ParseQuery_built e q :
  string_forallb qsafe e = true ->
  url.QueryUnescape e = inl q ->
  url.ParseQuery ("page=1&per_page=80&query=" ++ e)
  = (url.Values_Add (url.Values_Add (url.Values_Add ∅ "page" "1") "per_page" "80")
       "query" q, None).
Proof.
  intros He Hq. unfold url.ParseQuery.
  change (String.length ("page=1&per_page=80&query=" ++ e))
    with (S (S (String.length ("ge=1&per_page=80&query=" ++ e)))).
  change ("page=1&per_page=80&query=" ++ e)
    with (("page" ++ String "=" "1") ++ String "&"
            (("per_page" ++ String "=" "80") ++ String "&" ("query" ++ String "=" e))).
  rewrite parseQuery_loop_pair by reflexivity.
  replace (url.QueryUnescape "page") with (@inl string error "page") by reflexivity.
  replace (url.QueryUnescape "1") with (@inl string error "1") by reflexivity.
  rewrite parseQuery_loop_pair by reflexivity.
  replace (url.QueryUnescape "per_page") with (@inl string error "per_page") by reflexivity.
  replace (url.QueryUnescape "80") with (@inl string error "80") by reflexivity.
  assert (Hamp : lacks "&" ("query" ++ String "=" e) = true).
  { rewrite lacks_app. change (lacks "&" (String "=" e)) with (lacks "&" e).
    rewrite (qsafe_lacks "&" e); [reflexivity|reflexivity|exact He]. }
  assert (Hsemi : lacks ";" ("query" ++ String "=" e) = true).
  { rewrite lacks_app. change (lacks ";" (String "=" e)) with (lacks ";" e).
    rewrite (qsafe_lacks ";" e); [reflexivity|reflexivity|exact He]. }
  rewrite (parseQuery_loop_last _ _ "query" e None Hamp Hsemi) by reflexivity.
  replace (url.QueryUnescape "query") with (@inl string error "query") by reflexivity.
  rewrite Hq. reflexivity.
Qed.

Lemma Values_Get_built q :
  url.Values_Get
    (url.Values_Add (url.Values_Add (url.Values_Add ∅ "page" "1") "per_page" "80")
       "query" q) "query" = q.
Proof.
  unfold url.Values_Get, url.Values_Add at 1. rewrite lookup_insert_eq.
  replace (url.Values_Add (url.Values_Add ∅ "page" "1") "per_page" "80" !! "query")
    with (@None (list string)) by (vm_compute; reflexivity).
  reflexivity.
Qed.

(** ** The program, step by step *)

Lemma NewRequest_parses method uri :
  parses uri ->
  http_NewRequest method uri = inl {| Method := method; RequestURL := uri; Header := ∅ |}.
Proof. intros [u Hu]. unfold http_NewRequest. rewrite Hu. reflexivity. Qed.

(** [sendRequest] in one equation: what it returns and what it adds to the
    trace, case by case. *)
Lemma sendRequest_eq w uri key s :
  sendRequest w uri key s =
  match url.Parse uri with
  | inr err => (Ret (inr (Errorf_w "create new request: %w" [] err)), s)
  | inl _ =>
      let s1 := add_events s [EvDo (pageRequest uri key)] in
      match client_Do w (pageRequest uri key) with
      | inr err => (Ret (inr (Errorf_w "cannot send request: %w" [] err)), s1)
      | inl resp =>
          if negb (StatusCode resp =? 200)
          then (Ret (inr (Errorf "got non-200 response" [])), s1)
          else
            match body_err (RespBody resp) with
            | Some err => (Ret (inr (Errorf_w "cannot read response: %w" [] err)), s1)
            | None =>
                match json_Unmarshal w (body_bytes (RespBody resp)) with
                | inr err =>
                    (Exit 1,
                     add_events s
                       [EvDo (pageRequest uri key);
                        EvFatal "cannot unmarshal json: %s, body: %q"
                          [AErr err; ABytes (body_bytes (RespBody resp))]])
                | inl r => (Ret (inl r), s1)
                end
            end
      end
  end.
Proof.
  unfold sendRequest, http_NewRequest. destruct (url.Parse uri); [|reflexivity].
  fold (pageRequest uri key). unfold bind, do_request, bind, emit, ret, add_events.
  cbn [files trace]. destruct (client_Do w _) as [resp|err]; [|reflexivity].
  unfold StatusOK. destruct (negb _); [reflexivity|].
  unfold ioutil_ReadAll. destruct (body_err _); [reflexivity|].
  destruct (json_Unmarshal w _); [reflexivity|].
  unfold log_Fatalf. cbn [files trace]. rewrite <- app_assoc. reflexivity.
Qed.

Lemma downloadImage_eq w uri s :
  downloadImage w uri s =
  match url.Parse uri with
  | inr err => (Ret (inr (Errorf_w "create new request: %w" [] err)), s)
  | inl _ =>
      let s1 := add_events s [EvDo (imageRequest uri)] in
      match client_Do w (imageRequest uri) with
      | inr err => (Ret (inr (Errorf_w "cannot send request: %w" [] err)), s1)
      | inl resp =>
          if negb (StatusCode resp =? 200)
          then (Ret (inr (Errorf "got non-200 response" [])), s1)
          else (Ret (inl (RespBody resp)), s1)
      end
  end.
Proof.
  unfold downloadImage, http_NewRequest. destruct (url.Parse uri); [|reflexivity].
  fold (imageRequest uri). unfold bind, do_request, bind, emit, ret, add_events.
  cbn [files trace]. destruct (client_Do w _) as [resp|err]; [|reflexivity].
  unfold StatusOK. destruct (negb _); reflexivity.
Qed.

Lemma processPhoto_eq w photoURL dst s :
  processPhoto w photoURL dst s =
  match downloadImage w photoURL s with
  | (Ret (inr err), s1) => (Ret (Some (Errorf_w "download image: %w" [] err)), s1)
  | (Ret (inl img), s1) =>
      let fullPath := filepath_Join w dst (photoName photoURL) in
      match os_Create w fullPath with
      | Some err =>
          (Ret (Some (Errorf_w "create file %s: %w" [fullPath] err)),
           add_events s1 [EvCreate fullPath])
      | None =>
          let s3 := {| files := <[fullPath := fst (copied w fullPath img)]> (files s1);
                       trace := (trace s1 ++ [EvCreate fullPath;
                                              EvCopy fullPath (fst (copied w fullPath img))])%list |} in
          match snd (copied w fullPath img) with
          | Some err => (Ret (Some (Errorf_w "write file %s: %w" [fullPath] err)), s3)
          | None => (Ret None, s3)
          end
      end
  | (Exit c, s1) => (Exit c, s1)
  | (OutOfFuel, s1) => (OutOfFuel, s1)
  end.
Proof.
  unfold processPhoto, bind at 1.
  destruct (downloadImage w photoURL s) as [[[img|err]|c|] s1]; try reflexivity.
  unfold bind, create, io_Copy, ret, add_events, copied. cbn [files trace].
  destruct (os_Create w _); [reflexivity|]. cbn [files trace].
  destruct (write_limit w _) as [[k werr]|].
  - destruct (k <? _)%nat; cbn [fst snd]; rewrite insert_insert_eq, <- app_assoc;
      [reflexivity|destruct (body_err img); reflexivity].
  - cbn [fst snd]. rewrite insert_insert_eq, <- app_assoc.
    destruct (body_err img); reflexivity.
Qed.

Lemma sendRequest_served w uri key r s :
  page_served w uri key r ->
  sendRequest w uri key s = (Ret (inl r), add_events s [EvDo (pageRequest uri key)]).
Proof.
  intros [[u Hu] (body & Hdo & Hjson)]. rewrite sendRequest_eq, Hu. cbv zeta.
  rewrite Hdo. cbn. rewrite Hjson. reflexivity.
Qed.

Lemma processPhoto_stored w dst p data s :
  photo_stored w dst p data ->
  processPhoto w (Large2x (PhotoSrc p)) dst s = (Ret None, store_photo w dst s p).
Proof.
  intros ([u Hu] & Hdo & Hcreate & Hwrite).
  rewrite processPhoto_eq, downloadImage_eq, Hu. cbv zeta. rewrite Hdo. cbn [ok_response StatusCode negb Z.eqb RespBody].
  fold (photo_path w dst p). rewrite Hcreate.
  assert (Hc : copied w (photo_path w dst p) {| body_bytes := data; body_err := None |}
               = (data, None)).
  { unfold copied. cbn [body_bytes body_err].
    destruct (write_limit w _) as [[k werr]|]; [|reflexivity].
    destruct (Nat.ltb_spec k (String.length data)); [lia|reflexivity]. }
  cbn -[copied]. rewrite Hc. cbn [fst snd].
  unfold store_photo, photo_events, photo_data. rewrite Hdo. cbn.
  rewrite <- app_assoc. reflexivity.
Qed.

Lemma photosLoop_stored w dst photos s :
  photos_stored w dst photos ->
  photosLoop w photos dst s = (Ret tt, fold_left (store_photo w dst) photos s).
Proof.
  intros H. revert s. induction H as [|p photos [data Hp] _ IH]; intros s; [reflexivity|].
  cbn [photosLoop fold_left]. unfold bind. rewrite (processPhoto_stored _ _ _ _ _ Hp).
  apply IH.
Qed.

Lemma photos_stored_app w dst a b :
  photos_stored w dst (a ++ b)%list <-> photos_stored w dst a /\ photos_stored w dst b.
Proof. apply Forall_app. Qed.

Lemma count_photos_cons total r rest :
  count_photos total (r :: rest)
  = count_photos (int_add total (Z.of_nat (List.length (Photos r)))) rest.
Proof. reflexivity. Qed.

(** The loop over a served chain whose photos can all be stored. *)
Lemma pageLoop_chain w key dst pages :
  forall uri total s fuel,
    served_chain w key uri pages ->
    photos_stored w dst (all_photos pages) ->
    (List.length pages <= fuel)%nat ->
    pageLoop w fuel uri key dst total s
    = (Ret (count_photos total pages), chain_state w key dst uri pages total s).
Proof.
  induction pages as [|r rest IH]; intros uri total s fuel Hchain Hphotos Hfuel;
    [destruct Hchain|].
  destruct fuel as [|fuel]; [cbn in Hfuel; lia|].
  destruct Hchain as [Hserved Hrest].
  unfold all_photos in Hphotos. cbn [map List.concat] in Hphotos.
  apply photos_stored_app in Hphotos as [Hr Hphotos].
  cbn [pageLoop]. unfold bind at 1. rewrite (sendRequest_served _ _ _ _ _ Hserved).
  unfold bind at 1. rewrite (photosLoop_stored _ _ _ _ Hr).
  unfold bind at 1, log_Printf, emit. 
  rewrite count_photos_cons. cbn [chain_state].
  destruct rest as [|r' rest].
  - rewrite Hrest. reflexivity.
  - destruct Hrest as [Hne Hrest]. apply String.eqb_neq in Hne. rewrite Hne.
    apply IH; [exact Hrest|exact Hphotos|cbn in *; lia].
Qed.

(** ** Traces *)

Lemma new_events_app s s' evs :
  trace s' = (trace s ++ evs)%list -> new_events s s' = evs.
Proof. intros H. unfold new_events. rewrite H. apply drop_app_length. Qed.

Lemma requests_app a b : requests (a ++ b) = (requests a ++ requests b)%list.
Proof.
  induction a as [|e a IH]; [reflexivity|].
  destruct e; cbn; rewrite IH; reflexivity.
Qed.

Lemma created_app a b : created (a ++ b) = (created a ++ created b)%list.
Proof.
  induction a as [|e a IH]; [reflexivity|].
  destruct e; cbn; rewrite IH; reflexivity.
Qed.

Lemma store_photos_trace w dst photos s :
  trace (fold_left (store_photo w dst) photos s)
  = (trace s ++ stored_events w dst photos)%list.
Proof.
  revert s. induction photos as [|p photos IH]; intros s.
  - cbn. rewrite app_nil_r. reflexivity.
  - cbn [fold_left]. rewrite IH. unfold stored_events. cbn [map List.concat store_photo trace].
    rewrite <- app_assoc. reflexivity.
Qed.

Lemma stored_events_requests w dst photos :
  requests (stored_events w dst photos)
  = map (fun p => imageRequest (Large2x (PhotoSrc p))) photos.
Proof.
  induction photos as [|p photos IH]; [reflexivity|].
  unfold stored_events in *. cbn [map List.concat]. rewrite requests_app, IH. reflexivity.
Qed.

Lemma stored_events_created w dst photos :
  created (stored_events w dst photos) = map (photo_path w dst) photos.
Proof.
  induction photos as [|p photos IH]; [reflexivity|].
  unfold stored_events in *. cbn [map List.concat]. rewrite created_app, IH. reflexivity.
Qed.

(** What the run over a chain adds to the trace. *)
Lemma chain_state_trace w key dst pages :
  forall uri total s,
  exists evs,
    trace (chain_state w key dst uri pages total s) = (trace s ++ evs)%list
    /\ requests evs = chain_requests key uri pages
    /\ created evs = map (photo_path w dst) (all_photos pages).
Proof.
  induction pages as [|r rest IH]; intros uri total s.
  - exists []. cbn. rewrite app_nil_r. auto.
  - cbn [chain_state].
    destruct (IH (NextPage r) (int_add total (Z.of_nat (List.length (Photos r))))
                (add_events
                   (fold_left (store_photo w dst) (Photos r)
                      (add_events s [EvDo (pageRequest uri key)]))
                   [EvLog "processed: %d"
                      [AInt (int_add total (Z.of_nat (List.length (Photos r))))]]))
      as (evs & Htr & Hreq & Hcr).
    exists ([EvDo (pageRequest uri key)] ++ stored_events w dst (Photos r)
            ++ [EvLog "processed: %d"
                  [AInt (int_add total (Z.of_nat (List.length (Photos r))))]]
            ++ evs)%list.
    split; [|split].
    + rewrite Htr. cbn [add_events trace]. rewrite store_photos_trace.
      cbn [add_events trace]. rewrite <- !app_assoc. reflexivity.
    + rewrite !requests_app, stored_events_requests, Hreq. reflexivity.
    + rewrite !created_app, stored_events_created, Hcr. unfold all_photos.
      cbn [map List.concat]. rewrite map_app. reflexivity.
Qed.

Lemma length_chain_requests key pages :
  forall uri,
    List.length (chain_requests key uri pages)
    = (List.length pages + List.length (all_photos pages))%nat.
Proof.
  induction pages as [|r rest IH]; intros uri; [reflexivity|].
  cbn [chain_requests]. unfold all_photos in *. cbn [map List.concat].
  rewrite !length_app, IH. cbn [List.length]. rewrite length_map. lia.
Qed.

Lemma pageRequest_is_page uri key : is_page_request (pageRequest uri key) = true.
Proof.
  unfold is_page_request, pageRequest, Header_Add. cbn [Header].
  rewrite lookup_insert_eq. reflexivity.
Qed.

Lemma image_requests_not_page (photos : list Photo) :
  List.filter is_page_request
    (map (fun p => imageRequest (Large2x (PhotoSrc p))) photos) = [].
Proof. induction photos as [|p photos IH]; [reflexivity|]. cbn. exact IH. Qed.

Lemma page_requests_of_chain key pages :
  forall uri,
    List.length (List.filter is_page_request (chain_requests key uri pages))
    = List.length pages.
Proof.
  induction pages as [|r rest IH]; intros uri; [reflexivity|].
  cbn [chain_requests]. rewrite List.filter_app. cbn [List.filter].
  rewrite pageRequest_is_page, image_requests_not_page, length_app, IH. reflexivity.
Qed.

(** ** Termination of the pagination loop *)

Lemma sendRequest_fetch w uri key s r s1 :
  sendRequest w uri key s = (Ret (inl r), s1) <->
  fetch_page w uri key = Some r /\ s1 = add_events s [EvDo (pageRequest uri key)].
Proof.
  unfold fetch_page. rewrite !sendRequest_eq.
  destruct (url.Parse uri); cbv zeta; [|cbn; split; [|intros [? _]]; congruence].
  destruct (client_Do w _) as [resp|]; [|cbn; split; [|intros [? _]]; congruence].
  destruct (negb _); [cbn; split; [|intros [? _]]; congruence|].
  destruct (body_err _); [cbn; split; [|intros [? _]]; congruence|].
  destruct (json_Unmarshal w _); cbn; [|split; [|intros [? _]]; congruence].
  split; [intros [= -> <-]; auto|intros [[= ->] ->]; reflexivity].
Qed.

Lemma processPhoto_returns w photoURL dst s :
  exists e s', processPhoto w photoURL dst s = (Ret e, s').
Proof.
  rewrite processPhoto_eq, downloadImage_eq.
  destruct (url.Parse photoURL); cbv zeta; [|eauto].
  destruct (client_Do w _) as [resp|]; [|eauto].
  destruct (negb _); [eauto|].
  destruct (os_Create w _); [eauto|].
  destruct (snd _); eauto.
Qed.

(** The loop over the photos of a page always ends: with all photos
    processed, or with the process exiting with status 1. *)
Lemma photosLoop_ends w photos dst s :
  (exists s', photosLoop w photos dst s = (Ret tt, s'))
  \/ (exists s', photosLoop w photos dst s = (Exit 1, s')).
Proof.
  revert s. induction photos as [|p photos IH]; intros s; [left; eexists; reflexivity|].
  cbn [photosLoop]. unfold bind.
  destruct (processPhoto_returns w (Large2x (PhotoSrc p)) dst s) as (e & s' & ->).
  destruct e as [err|]; [right; eexists; reflexivity|apply IH].
Qed.

(** One iteration of the pagination loop, unfolded. *)
Lemma pageLoop_S w fuel nextPage key dst totalCount s :
  pageLoop w (S fuel) nextPage key dst totalCount s =
  match sendRequest w nextPage key s with
  | (Ret (inr err), s1) =>
      (Exit 1, add_events s1 [EvFatal "send request: %s, url: %s" [AErr err; AStr nextPage]])
  | (Ret (inl resp), s1) =>
      let total := int_add totalCount (Z.of_nat (List.length (Photos resp))) in
      match photosLoop w (Photos resp) dst s1 with
      | (Ret _, s2) =>
          let s3 := add_events s2 [EvLog "processed: %d" [AInt total]] in
          if String.eqb (NextPage resp) "" then (Ret total, s3)
          else pageLoop w fuel (NextPage resp) key dst total s3
      | (Exit c, s2) => (Exit c, s2)
      | (OutOfFuel, s2) => (OutOfFuel, s2)
      end
  | (Exit c, s1) => (Exit c, s1)
  | (OutOfFuel, s1) => (OutOfFuel, s1)
  end.
Proof.
  cbn [pageLoop]. unfold bind at 1.
  destruct (sendRequest w nextPage key s) as [[[resp|err]|c|] s1]; try reflexivity.
  unfold bind at 1. destruct (photosLoop w _ dst s1) as [[[]|c|] s2]; try reflexivity.
  unfold bind at 1, log_Printf, emit, add_events. cbn [files trace].
  destruct (String.eqb _ _); reflexivity.
Qed.

(** If the loop exits normally, the chain of cursors has reached a page
    with an empty cursor. *)
Lemma pageLoop_Ret_empty w key dst fuel :
  forall uri total s t s',
    pageLoop w fuel uri key dst total s = (Ret t, s') ->
    exists n r, nth_page w key uri n = Some r /\ NextPage r = "".
Proof.
  induction fuel as [|fuel IH]; intros uri total s t s' H; [discriminate|].
  rewrite pageLoop_S in H.
  destruct (sendRequest w uri key s) as [[[resp|err]|c|] s1] eqn:Hsend; try discriminate.
  apply sendRequest_fetch in Hsend as [Hfetch _]. cbv zeta in H.
  destruct (photosLoop w _ dst s1) as [[[]|c|] s2]; try discriminate.
  destruct (String.eqb_spec (NextPage resp) "") as [Hnext|Hnext].
  - exists O, resp. cbn. rewrite Hfetch. auto.
  - apply IH in H as (n & r & Hn & Hr). exists (S n), r. cbn [nth_page].
    rewrite Hfetch. apply String.eqb_neq in Hnext. rewrite Hnext. auto.
Qed.

(** If the chain of cursors reaches an empty cursor at page [n], then
    [n + 1] iterations are enough for the loop to end. *)
Lemma pageLoop_empty_ends w key dst n :
  forall uri total s r,
    nth_page w key uri n = Some r -> NextPage r = "" ->
    fst (pageLoop w (S n) uri key dst total s) <> OutOfFuel.
Proof.
  induction n as [|n IH]; intros uri total s r Hn Hr; cbn [nth_page] in Hn;
    destruct (fetch_page w uri key) as [r0|] eqn:Hfetch; try discriminate;
    rewrite pageLoop_S;
    rewrite (proj2 (sendRequest_fetch w uri key s r0 _) (conj Hfetch eq_refl)); cbv zeta;
    destruct (photosLoop_ends w (Photos r0) dst (add_events s [EvDo (pageRequest uri key)]))
      as [[s2 ->]|[s2 ->]]; try (cbn; discriminate).
  - injection Hn as ->. rewrite Hr. cbn. discriminate.
  - destruct (String.eqb (NextPage r0) ""); [cbn; discriminate|].
    eapply IH; eassumption.
Qed.

(** While the chain of cursors goes on and nothing fails, the loop is
    still running, whatever the fuel. *)
Lemma pageLoop_no_Ret w key dst fuel :
  forall uri total s,
    (forall n r, nth_page w key uri n = Some r -> NextPage r <> "") ->
    forall t s', pageLoop w fuel uri key dst total s <> (Ret t, s').
Proof.
  intros uri total s Hchain t s' H.
  apply pageLoop_Ret_empty in H as (n & r & Hn & Hr). exact (Hchain n r Hn Hr).
Qed.

(** [main], unfolded down to the pagination loop. *)
Lemma main_eq w fuel key dst query s :
  main w fuel key dst query s =
  if String.eqb key "" then (Exit 1, add_events s [EvFatal "no key provided" []])
  else
    let s0 :=
      if String.eqb dst ""
      then add_events s [EvLog "using default destination %q at work directory"
                           [AStr "output"]]
      else s in
    let s1 := add_events s0 [EvMkdir (destination dst)] in
    let loop :=
      match pageLoop w fuel (first_uri query) key (destination dst) 0 s1 with
      | (Ret t, s2) => (Ret tt, add_events s2 [EvLog "done, total count is %d" [AInt t]])
      | (Exit c, s2) => (Exit c, s2)
      | (OutOfFuel, s2) => (OutOfFuel, s2)
      end in
    match os_Mkdir w (destination dst) with
    | Some err =>
        if negb (os_IsExist w err)
        then (Exit 1, add_events s1
                        [EvFatal "cannot create destination directory: %s" [AErr err]])
        else loop
    | None => loop
    end.
Proof.
  unfold main, destination, first_uri. rewrite compileFirstURL_eq. cbn [fst].
  destruct (String.eqb key ""); [reflexivity|].
  unfold bind at 1.
  assert (Hloop : forall d s1,
    bind (pageLoop w fuel
            ("https://api.pexels.com/v1/search?page=1&per_page=80&query="
               ++ url.QueryEscape query) key d 0)
         (fun totalCount => log_Printf "done, total count is %d" [AInt totalCount]) s1
    = match pageLoop w fuel
              ("https://api.pexels.com/v1/search?page=1&per_page=80&query="
                 ++ url.QueryEscape query) key d 0 s1 with
      | (Ret t, s2) => (Ret tt, add_events s2 [EvLog "done, total count is %d" [AInt t]])
      | (Exit c, s2) => (Exit c, s2)
      | (OutOfFuel, s2) => (OutOfFuel, s2)
      end).
  { intros d s1. unfold bind. destruct (pageLoop _ _ _ _ _ _ _) as [[t|c|] s2]; reflexivity. }
  destruct (String.eqb dst "").
  - unfold bind at 1, log_Printf, emit, ret. unfold bind at 1, mkdir. 
    unfold bind at 1, emit, ret. unfold bind at 1.
    fold (add_events s [EvLog "using default destination %q at work directory" [AStr "output"]]).
    cbn [files trace].
    destruct (os_Mkdir w "output") as [err|].
    + destruct (negb _); [unfold log_Fatalf, add_events; cbn; rewrite <- app_assoc; reflexivity|].
      unfold ret. rewrite Hloop. unfold add_events. cbn [files trace]. reflexivity.
    + unfold ret. rewrite Hloop. unfold add_events. cbn [files trace]. reflexivity.
  - unfold ret at 1. unfold bind at 1, mkdir. unfold bind at 1, emit, ret. unfold bind at 1.
    cbn [files trace].
    destruct (os_Mkdir w dst) as [err|].
    + destruct (negb _); [unfold log_Fatalf, add_events; cbn; reflexivity|].
      rewrite Hloop. unfold add_events. cbn [files trace]. reflexivity.
    + rewrite Hloop. unfold add_events. cbn [files trace]. reflexivity.
Qed.

(** ** Files *)

Lemma store_photos_files w dst photos s :
  files (fold_left (store_photo w dst) photos s) = store_files w dst photos (files s).
Proof.
  unfold store_files. revert s. induction photos as [|p photos IH]; intros s; [reflexivity|].
  cbn [fold_left]. rewrite IH. reflexivity.
Qed.

Lemma store_files_app w dst a b fs :
  store_files w dst (a ++ b)%list fs = store_files w dst b (store_files w dst a fs).
Proof. unfold store_files. apply fold_left_app. Qed.

Lemma chain_state_files w key dst pages :
  forall uri total s,
    files (chain_state w key dst uri pages total s)
    = store_files w dst (all_photos pages) (files s).
Proof.
  induction pages as [|r rest IH]; intros uri total s; [reflexivity|].
  cbn [chain_state]. rewrite IH. cbn [add_events files].
  rewrite store_photos_files. cbn [add_events files].
  unfold all_photos. cbn [map List.concat]. rewrite store_files_app. reflexivity.
Qed.

(** The trace of the run over a chain. *)
Lemma chain_state_events w key dst pages :
  forall uri total s,
    trace (chain_state w key dst uri pages total s)
    = (trace s ++ chain_events w key dst uri pages total)%list.
Proof.
  induction pages as [|r rest IH]; intros uri total s.
  - cbn. rewrite app_nil_r. reflexivity.
  - cbn [chain_state chain_events]. rewrite IH. cbn [add_events trace].
    rewrite store_photos_trace. cbn [add_events trace].
    rewrite <- !app_assoc. reflexivity.
Qed.

Lemma store_files_keeps w dst photos fs path :
  path ∈ dom fs -> path ∈ dom (store_files w dst photos fs).
Proof.
  unfold store_files. revert fs. induction photos as [|p photos IH]; intros fs H; [exact H|].
  cbn [fold_left]. apply IH. rewrite dom_insert_L. set_solver.
Qed.

(** A photo whose download is answered with a status other than 200. *)
Lemma processPhoto_non200 w dst uri resp s :
  parses uri ->
  client_Do w (imageRequest uri) = inl resp ->
  StatusCode resp <> 200 ->
  processPhoto w uri dst s
  = (Ret (Some (Errorf_w "download image: %w" [] (Errorf "got non-200 response" []))),
     add_events s [EvDo (imageRequest uri)]).
Proof.
  intros [u Hu] Hdo Hst. rewrite processPhoto_eq, downloadImage_eq, Hu. cbv zeta.
  rewrite Hdo. apply Z.eqb_neq in Hst. rewrite Hst. reflexivity.
Qed.

Lemma photosLoop_app w dst a b s :
  photos_stored w dst a ->
  photosLoop w (a ++ b)%list dst s = photosLoop w b dst (fold_left (store_photo w dst) a s).
Proof.
  intros H. revert s. induction H as [|p a [data Hp] _ IH]; intros s; [reflexivity|].
  cbn [app photosLoop fold_left]. unfold bind. rewrite (processPhoto_stored _ _ _ _ _ Hp).
  apply IH.
Qed.

Lemma sendRequest_non200 w uri key resp s :
  parses uri ->
  client_Do w (pageRequest uri key) = inl resp ->
  StatusCode resp <> 200 ->
  sendRequest w uri key s
  = (Ret (inr (Errorf "got non-200 response" [])),
     add_events s [EvDo (pageRequest uri key)]).
Proof.
  intros [u Hu] Hdo Hst. rewrite sendRequest_eq, Hu. cbv zeta.
  rewrite Hdo. apply Z.eqb_neq in Hst. rewrite Hst. reflexivity.
Qed.

(** ** First and last question mark *)

Lemma count_byte_nonneg s x : 0 <= count_byte s x.
Proof.
  induction s as [|c s IH]; cbn [count_byte]; [lia|].
  destruct (Ascii.eqb c x); lia.
Qed.

Lemma lastIndex_from_cons c s sub i found :
  lastIndex_from (String c s) sub i found
  = lastIndex_from s sub (i + 1)
      (if strings_HasPrefix (String c s) sub then i else found).
Proof. reflexivity. Qed.

Lemma lastIndex_absent x s :
  forall i found,
    count_byte s x = 0 ->
    lastIndex_from s (String x "") i found = found
    /\ strings_Index s (String x "") = -1.
Proof.
  induction s as [|c s IH]; intros i found H; [split; reflexivity|].
  cbn [count_byte] in H. pose proof (count_byte_nonneg s x).
  destruct (Ascii.eqb c x) eqn:E; [lia|].
  rewrite lastIndex_from_cons, strings_Index_cons, HasPrefix_byte, E. cbv zeta.
  destruct (IH (i + 1) found) as [-> ->]; [lia|]. split; reflexivity.
Qed.

(** With a single occurrence, the last is the first. *)
Lemma lastIndex_single x s :
  forall i found,
    count_byte s x = 1 ->
    lastIndex_from s (String x "") i found = i + strings_Index s (String x "")
    /\ 0 <= strings_Index s (String x "").
Proof.
  induction s as [|c s IH]; intros i found H; [discriminate|].
  cbn [count_byte] in H.
  rewrite lastIndex_from_cons, strings_Index_cons, HasPrefix_byte.
  destruct (Ascii.eqb c x) eqn:E.
  - destruct (lastIndex_absent x s (i + 1) i) as [-> _]; lia.
  - cbv zeta. destruct (IH (i + 1) found) as [-> Hpos]; [lia|].
    destruct (Z.eqb_spec (strings_Index s (String x "")) (-1)); lia.
Qed.

(** On a URL with at most one question mark the program derives the file
    name that the specification describes. *)
Lemma photoName_one_question_mark u :
  count_byte u "?" <= 1 -> photoName u = deriveFilename_spec u.
Proof.
  intros H. unfold photoName, deriveFilename_spec, cutQueryArgs, strings_LastIndex.
  pose proof (count_byte_nonneg u "?").
  assert (Hc : count_byte u "?" = 0 \/ count_byte u "?" = 1) by lia.
  destruct Hc as [Hc|Hc].
  - destruct (lastIndex_absent "?" u 0 (-1) Hc) as [-> ->]. reflexivity.
  - destruct (lastIndex_single "?" u 0 (-1) Hc) as [-> _]. reflexivity.
Qed.

(** ** The order of the requests, whatever happens to the photos *)

Lemma processPhoto_trace w uri dst s :
  exists e s' evs,
    processPhoto w uri dst s = (Ret e, s')
    /\ trace s' = (trace s ++ evs)%list
    /\ requests evs `prefix_of` [imageRequest uri]
    /\ (e = None -> requests evs = [imageRequest uri]).
Proof.
  rewrite processPhoto_eq, downloadImage_eq.
  destruct (url.Parse uri); cbv zeta.
  2:{ eexists _, _, []. split; [reflexivity|]. rewrite app_nil_r.
      split; [reflexivity|]. split; [apply prefix_nil|discriminate]. }
  destruct (client_Do w _) as [resp|].
  2:{ eexists _, _, _. split; [reflexivity|]. split; [reflexivity|].
      split; [reflexivity|discriminate]. }
  destruct (negb _).
  { eexists _, _, _. split; [reflexivity|]. split; [reflexivity|].
    split; [reflexivity|discriminate]. }
  destruct (os_Create w _).
  { eexists _, _, _. split; [reflexivity|]. cbn [add_events trace].
    rewrite <- app_assoc. split; [reflexivity|]. split; [reflexivity|discriminate]. }
  destruct (snd _); eexists _, _, _; (split; [reflexivity|]); cbn [add_events trace];
    rewrite <- app_assoc; (split; [reflexivity|]); split; reflexivity.
Qed.

Lemma photosLoop_trace w dst photos :
  forall s,
  exists evs,
    trace (snd (photosLoop w photos dst s)) = (trace s ++ evs)%list
    /\ requests evs `prefix_of` map (fun p => imageRequest (Large2x (PhotoSrc p))) photos
    /\ (fst (photosLoop w photos dst s) = Ret tt ->
        requests evs = map (fun p => imageRequest (Large2x (PhotoSrc p))) photos).
Proof.
  induction photos as [|p photos IH]; intros s.
  - exists []. cbn. rewrite app_nil_r. auto.
  - cbn [photosLoop]. unfold bind.
    destruct (processPhoto_trace w (Large2x (PhotoSrc p)) dst s)
      as (e & s1 & evs1 & -> & Htr1 & Hpre1 & Hok1).
    destruct e as [err|].
    + exists (evs1 ++ [EvFatal "failed to process photo %s: %s"
                         [AStr (Large2x (PhotoSrc p)); AErr err]])%list.
      unfold log_Fatalf. cbn [fst snd trace]. rewrite Htr1, <- app_assoc.
      split; [reflexivity|]. rewrite requests_app. cbn [requests]. rewrite app_nil_r.
      split; [|discriminate]. cbn [map].
      etransitivity; [exact Hpre1|]. apply prefix_cons, prefix_nil.
    + destruct (IH s1) as (evs2 & Htr2 & Hpre2 & Hok2).
      exists (evs1 ++ evs2)%list. rewrite Htr2, Htr1, <- app_assoc.
      split; [reflexivity|]. rewrite requests_app, (Hok1 eq_refl). cbn [map app].
      split; [apply prefix_cons, Hpre2|]. intros H. rewrite (Hok2 H). reflexivity.
Qed.

(** Over a served chain the requests of the loop are always an initial part
    of the chain's requests: pages in order, the photos of a page before the
    next page, nothing after the last page. *)
Lemma pageLoop_requests_prefix w key dst pages :
  forall uri total s fuel,
    served_chain w key uri pages ->
    exists evs,
      trace (snd (pageLoop w fuel uri key dst total s)) = (trace s ++ evs)%list
      /\ requests evs `prefix_of` chain_requests key uri pages.
Proof.
  induction pages as [|r rest IH]; intros uri total s fuel Hchain; [destruct Hchain|].
  destruct Hchain as [Hserved Hrest].
  destruct fuel as [|fuel].
  { exists []. cbn. rewrite app_nil_r. split; [reflexivity|apply prefix_nil]. }
  rewrite pageLoop_S, (sendRequest_served _ _ _ _ _ Hserved). cbv zeta.
  set (s1 := add_events s [EvDo (pageRequest uri key)]).
  assert (Hs1 : trace s1 = (trace s ++ [EvDo (pageRequest uri key)])%list) by reflexivity.
  clearbody s1.
  destruct (photosLoop_trace w dst (Photos r) s1) as (evs & Htr & Hpre & Hok).
  cbn [chain_requests].
  destruct (photosLoop w (Photos r) dst s1) as [[[]|c|] s2]; cbn [fst snd] in *.
  - specialize (Hok eq_refl).
    destruct rest as [|r' rest].
    + rewrite Hrest. cbn [String.eqb snd add_events trace].
      exists ([EvDo (pageRequest uri key)] ++ evs
              ++ [EvLog "processed: %d"
                    [AInt (int_add total (Z.of_nat (List.length (Photos r))))]])%list.
      rewrite Htr, Hs1, <- !app_assoc. split; [reflexivity|].
      rewrite !requests_app, Hok. cbn [requests chain_requests app].
      rewrite !app_nil_r. reflexivity.
    + destruct Hrest as [Hne Hrest]. apply String.eqb_neq in Hne. rewrite Hne.
      edestruct (IH (NextPage r)) as (evs' & Htr' & Hpre'); [exact Hrest|].
      exists ([EvDo (pageRequest uri key)] ++ evs
              ++ [EvLog "processed: %d"
                    [AInt (int_add total (Z.of_nat (List.length (Photos r))))]]
              ++ evs')%list.
      rewrite Htr'. cbn [add_events trace]. rewrite Htr, Hs1, <- !app_assoc.
      split; [reflexivity|].
      rewrite !requests_app, Hok. cbn [requests app].
      apply prefix_cons, prefix_app, Hpre'.
  - exists ([EvDo (pageRequest uri key)] ++ evs)%list.
    rewrite Htr, Hs1, <- app_assoc. split; [reflexivity|].
    rewrite requests_app. cbn [requests app].
    apply prefix_cons. etransitivity; [exact Hpre|]. apply prefix_app_r. reflexivity.
  - exists ([EvDo (pageRequest uri key)] ++ evs)%list.
    rewrite Htr, Hs1, <- app_assoc. split; [reflexivity|].
    rewrite requests_app. cbn [requests app].
    apply prefix_cons. etransitivity; [exact Hpre|]. apply prefix_app_r. reflexivity.
Qed.

(** * The specification, claim by claim *)

(** ** The file name of a photo *)

(** C1. The file name is derived by stripping the query string and taking
    the final path segment.  The program strips from the last question mark
    of the URL, the specified derivation from the first: on a URL with one
    question mark, as the example of the specification, they agree and give
    [pic.jpg]; on [https://x/a.jpg?u=b?c] the program keeps a part of the
    query and names the file [a.jpg?u=b], where the specified name is
    [a.jpg]. *)
Theorem photoName_last_question_mark :
  photoName "https://images.example.com/photos/42/pic.jpg?auto=compress&cs=tinysrgb"
  = "pic.jpg"
  /\ photoName "https://x/a.jpg?u=b?c" = "a.jpg?u=b"
  /\ deriveFilename_spec "https://x/a.jpg?u=b?c" = "a.jpg"
  /\ photoName "https://x/a.jpg?u=b?c" <> deriveFilename_spec "https://x/a.jpg?u=b?c".
Proof. repeat split; vm_compute; congruence. Qed.

(** ** The first request *)

(** C3. For every query [Q], the URI that [compileFirstURL] builds parses,
    and its [query] parameter, decoded, is [Q]. *)
Theorem compileFirstURL_query_roundtrip (Q : string) :
  exists uri u,
    compileFirstURL Q = (uri, None)
    /\ url.Parse uri = inl u
    /\ url.Values_Get (url.URL_Query u) "query" = Q.
Proof.
  eexists _, _. split; [apply compileFirstURL_eq|].
  split; [apply Parse_built, QueryEscape_qsafe|].
  unfold url.URL_Query. cbn [url.RawQuery].
  rewrite (ParseQuery_built _ Q (QueryEscape_qsafe Q) (QueryUnescape_QueryEscape Q)).
  apply Values_Get_built.
Qed.

(** C4, as the specification states it, fails: the parameters do not come
    out in the order of the template. *)
Lemma compileFirstURL_not_the_template :
  fst (compileFirstURL "cats")
  <> "https://api.pexels.com/v1/search?per_page=80&page=1&query=" ++ url.QueryEscape "cats".
Proof. vm_compute. congruence. Qed.

(** C4, amended.  For every query [Q] the first request URL is
    [https://api.pexels.com/v1/search?page=1&per_page=80&query=<escaped Q>]:
    the fixed scheme, host and path, and the parameters [page=1],
    [per_page=80] and [query] in the sorted order in which [Values.Encode]
    writes them; only the value of [query] varies. *)
Theorem compileFirstURL_sorted_template (Q : string) :
  compileFirstURL Q
  = ("https://api.pexels.com/v1/search?page=1&per_page=80&query=" ++ url.QueryEscape Q,
     None)
  /\ exists u,
       url.Parse (fst (compileFirstURL Q)) = inl u
       /\ url.Scheme u = "https" /\ url.Host u = "api.pexels.com"
       /\ url.Path u = "/v1/search"
       /\ url.Values_Get (url.URL_Query u) "per_page" = "80"
       /\ url.Values_Get (url.URL_Query u) "page" = "1".
Proof.
  split; [apply compileFirstURL_eq|].
  rewrite compileFirstURL_eq. cbn [fst]. eexists.
  split; [apply Parse_built, QueryEscape_qsafe|].
  cbn [url.Scheme url.Host url.Path]. repeat (split; [reflexivity|]).
  unfold url.URL_Query. cbn [url.RawQuery].
  rewrite (ParseQuery_built _ Q (QueryEscape_qsafe Q) (QueryUnescape_QueryEscape Q)).
  cbn [fst]. unfold url.Values_Get, url.Values_Add at 1 3.
  rewrite !lookup_insert_ne by discriminate.
  split; vm_compute; reflexivity.
Qed.

(** C10. [compileFirstURL] never fails: the constant template parses, so
    for every query the error returned is nil and the URL is not empty. *)
Theorem compileFirstURL_never_fails (Q : string) :
  (exists u, url.Parse firstURL = inl u)
  /\ snd (compileFirstURL Q) = None
  /\ fst (compileFirstURL Q) <> "".
Proof.
  split; [eexists; apply Parse_firstURL|].
  rewrite compileFirstURL_eq. split; [reflexivity|]. cbn. discriminate.
Qed.

(** ** Requests *)

(** C5. When the request can be built, [sendRequest] returns an error to
    its caller if the network call fails (transport) and if the status is
    not 200 (protocol); on a body that was received with status 200 and does
    not decode, the process exits with status 1 after the one request, and
    the last thing it does is log the decoder's error and the raw body. *)
Theorem sendRequest_failures w uri key s :
  parses uri ->
  (forall err,
      client_Do w (pageRequest uri key) = inr err ->
      sendRequest w uri key s
      = (Ret (inr (Errorf_w "cannot send request: %w" [] err)),
         add_events s [EvDo (pageRequest uri key)]))
  /\ (forall resp,
         client_Do w (pageRequest uri key) = inl resp ->
         StatusCode resp <> 200 ->
         sendRequest w uri key s
         = (Ret (inr (Errorf "got non-200 response" [])),
            add_events s [EvDo (pageRequest uri key)]))
  /\ (forall body err,
         client_Do w (pageRequest uri key) = inl (ok_response body) ->
         json_Unmarshal w body = inr err ->
         sendRequest w uri key s
         = (Exit 1,
            add_events s
              [EvDo (pageRequest uri key);
               EvFatal "cannot unmarshal json: %s, body: %q" [AErr err; ABytes body]])).
Proof.
  intros [u Hu]. rewrite sendRequest_eq, Hu. cbv zeta. repeat split.
  - intros err ->. reflexivity.
  - intros resp -> Hst. apply Z.eqb_neq in Hst. rewrite Hst. reflexivity.
  - intros body err -> Hjson. cbn. rewrite Hjson. reflexivity.
Qed.

Lemma search_uri_parses :
  parses "https://api.pexels.com/v1/search?page=1&per_page=80&query=cats".
Proof. eexists. vm_compute. reflexivity. Defined.

Lemma sendRequest_failures_witness :
  let uri := "https://api.pexels.com/v1/search?page=1&per_page=80&query=cats" in
  fst (sendRequest world_down uri "abc" empty_sys)
  = Ret (inr (Errorf_w "cannot send request: %w" []
                (ErrorString "dial tcp: connection refused")))
  /\ fst (sendRequest world_500 uri "abc" empty_sys)
     = Ret (inr (Errorf "got non-200 response" []))
  /\ sendRequest world_html uri "abc" empty_sys
     = (Exit 1,
        add_events empty_sys
          [EvDo (pageRequest uri "abc");
           EvFatal "cannot unmarshal json: %s, body: %q"
             [AErr (ErrorString "unexpected end of JSON input"); ABytes "<html>"]]).
Proof.
  intros uri. split; [|split].
  - rewrite (proj1 (sendRequest_failures world_down uri "abc" empty_sys search_uri_parses)
               (ErrorString "dial tcp: connection refused") eq_refl).
    reflexivity.
  - rewrite (proj1 (proj2 (sendRequest_failures world_500 uri "abc" empty_sys
                             search_uri_parses))
               {| StatusCode := 500; RespBody := {| body_bytes := ""; body_err := None |} |}
               eq_refl ltac:(discriminate)).
    reflexivity.
  - apply (proj2 (proj2 (sendRequest_failures world_html uri "abc" empty_sys
                           search_uri_parses))
             "<html>" (ErrorString "unexpected end of JSON input") eq_refl eq_refl).
Defined.

Lemma Header_Add_empty method uri key value :
  Header_Add {| Method := method; RequestURL := uri; Header := ∅ |} key value
  = {| Method := method; RequestURL := uri; Header := {[ key := [value] ]} |}.
Proof.
  unfold Header_Add. cbn [Method RequestURL Header]. rewrite lookup_empty.
  cbn. rewrite insert_empty. reflexivity.
Qed.

(** C7. The one request that [sendRequest] hands to the transport is a GET
    of the page URL whose header is exactly [Authorization: key], the key as
    it is; the one request of [downloadImage] has an empty header, so no
    [Authorization] at all.  (When the URL does not parse, no request is
    made.) *)
Theorem request_headers w uri key s :
  requests (new_events s (snd (sendRequest w uri key s)))
  = match url.Parse uri with
    | inl _ => [ {| Method := "GET"; RequestURL := uri;
                    Header := {[ "Authorization" := [key] ]} |} ]
    | inr _ => []
    end
  /\ requests (new_events s (snd (downloadImage w uri s)))
     = match url.Parse uri with
       | inl _ => [ {| Method := "GET"; RequestURL := uri; Header := ∅ |} ]
       | inr _ => []
       end
  /\ Forall (fun r => Header r !! "Authorization" = None)
            (requests (new_events s (snd (downloadImage w uri s)))).
Proof.
  assert (Hnil : new_events s s = []).
  { apply new_events_app. rewrite app_nil_r. reflexivity. }
  assert (Hsend : requests (new_events s (snd (sendRequest w uri key s)))
                  = match url.Parse uri with
                    | inl _ => [pageRequest uri key]
                    | inr _ => []
                    end).
  { rewrite sendRequest_eq. destruct (url.Parse uri); cbv zeta;
      [|cbn [snd]; rewrite Hnil; reflexivity].
    destruct (client_Do w _) as [resp|]; [destruct (negb _)|];
      [| destruct (body_err _); [|destruct (json_Unmarshal w _)] |];
      cbn [snd]; erewrite new_events_app by reflexivity; reflexivity. }
  assert (Hget : requests (new_events s (snd (downloadImage w uri s)))
                 = match url.Parse uri with
                   | inl _ => [imageRequest uri]
                   | inr _ => []
                   end).
  { rewrite downloadImage_eq. destruct (url.Parse uri); cbv zeta;
      [|cbn [snd]; rewrite Hnil; reflexivity].
    destruct (client_Do w _) as [resp|]; [destruct (negb _)|];
      cbn [snd]; erewrite new_events_app by reflexivity; reflexivity. }
  split; [|split].
  - rewrite Hsend. unfold pageRequest. rewrite Header_Add_empty. reflexivity.
  - exact Hget.
  - rewrite Hget. destruct (url.Parse uri); repeat constructor.
Qed.

(** ** Failures *)

(** C6. When the download of a photo is answered with a status other than
    200, the run exits with status 1: the photos before it in the page are
    stored and their files are still there, so is every file that was there
    when the page began, and no file is created for the failing photo (the
    only file creations of the iteration are those of the photos before it).
    When the search endpoint answers a page request with a status other than
    200, the run exits with status 1 right after that request: no image is
    requested and no file is touched. *)
Theorem non200_aborts w fuel uri key dst total s :
  (forall r before p after resp,
      page_served w uri key r ->
      Photos r = (before ++ p :: after)%list ->
      photos_stored w dst before ->
      parses (Large2x (PhotoSrc p)) ->
      client_Do w (imageRequest (Large2x (PhotoSrc p))) = inl resp ->
      StatusCode resp <> 200 ->
      exists s',
        pageLoop w (S fuel) uri key dst total s = (Exit 1, s')
        /\ files s' = store_files w dst before (files s)
        /\ (forall path, path ∈ dom (files s) -> path ∈ dom (files s'))
        /\ created (new_events s s') = map (photo_path w dst) before
        /\ requests (new_events s s')
           = (pageRequest uri key
                :: map (fun q => imageRequest (Large2x (PhotoSrc q))) before
                ++ [imageRequest (Large2x (PhotoSrc p))])%list)
  /\ (forall resp,
         parses uri ->
         client_Do w (pageRequest uri key) = inl resp ->
         StatusCode resp <> 200 ->
         pageLoop w (S fuel) uri key dst total s
         = (Exit 1,
            add_events s
              [EvDo (pageRequest uri key);
               EvFatal "send request: %s, url: %s"
                 [AErr (Errorf "got non-200 response" []); AStr uri]])).
Proof.
  split.
  - intros r before p after resp Hserved Hphotos Hbefore Hparse Hdo Hst.
    rewrite pageLoop_S, (sendRequest_served _ _ _ _ _ Hserved). cbv zeta.
    rewrite Hphotos, (photosLoop_app _ _ _ _ _ Hbefore).
    cbn [photosLoop]. unfold bind.
    rewrite (processPhoto_non200 _ _ _ _ _ Hparse Hdo Hst).
    unfold log_Fatalf. cbn [add_events files trace]. eexists. split; [reflexivity|].
    cbn [files]. rewrite store_photos_files. cbn [add_events files].
    split; [reflexivity|]. split; [intros path; apply store_files_keeps|].
    erewrite new_events_app.
    2:{ cbn [trace]. rewrite store_photos_trace. cbn [add_events trace].
        rewrite <- !app_assoc. reflexivity. }
    rewrite !created_app, !requests_app, stored_events_created, stored_events_requests.
    cbn. rewrite !app_nil_r. split; reflexivity.
  - intros resp Hparse Hdo Hst.
    rewrite pageLoop_S, (sendRequest_non200 _ _ _ _ _ Hparse Hdo Hst).
    unfold add_events. cbn [files trace]. rewrite <- app_assoc. reflexivity.
Qed.

Lemma cats_photo_parses : parses (Large2x (PhotoSrc (photo_of "https://x/cats1.jpg"))).
Proof. eexists. vm_compute. reflexivity. Defined.

Lemma non200_aborts_witness :
  let uri := "https://api.pexels.com/v1/search?page=1&per_page=80&query=cats" in
  (exists s',
      pageLoop world_404 1 uri "abc" "output" 0 empty_sys = (Exit 1, s')
      /\ files s' = ∅
      /\ created (new_events empty_sys s') = []
      /\ requests (new_events empty_sys s')
         = [pageRequest uri "abc"; imageRequest "https://x/cats1.jpg"])
  /\ pageLoop world_500 1 uri "abc" "output" 0 empty_sys
     = (Exit 1,
        add_events empty_sys
          [EvDo (pageRequest uri "abc");
           EvFatal "send request: %s, url: %s"
             [AErr (Errorf "got non-200 response" []); AStr uri]]).
Proof.
  intros uri. split.
  - destruct (proj1 (non200_aborts world_404 0 uri "abc" "output" 0 empty_sys)
                cats_page [] (photo_of "https://x/cats1.jpg") []
                {| StatusCode := 404;
                   RespBody := {| body_bytes := "not found"; body_err := None |} |})
      as (s' & Hrun & Hfiles & _ & Hcreated & Hreqs).
    + split; [exact search_uri_parses|]. exists cats_body. split; reflexivity.
    + reflexivity.
    + constructor.
    + exact cats_photo_parses.
    + reflexivity.
    + discriminate.
    + exists s'. repeat split; assumption.
  - apply (proj2 (non200_aborts world_500 0 uri "abc" "output" 0 empty_sys)
             {| StatusCode := 500; RespBody := {| body_bytes := ""; body_err := None |} |}).
    + exact search_uri_parses.
    + reflexivity.
    + discriminate.
Defined.

(** ** Runs *)

Lemma length_all_photos pages :
  List.length (all_photos pages)
  = list_sum (map (fun r => List.length (Photos r)) pages).
Proof.
  unfold all_photos. induction pages as [|r rest IH]; [reflexivity|].
  cbn [map List.concat list_sum]. rewrite length_app, IH. reflexivity.
Qed.

(** C2, amended.  Over a chain of [N] served pages, the last one with an
    empty cursor, and provided every photo of the chain can be downloaded and
    stored, the pagination loop exits normally as soon as it has fuel for [N]
    iterations, and what it did is exactly this, in this order: for each page
    of the chain its page request, then for each photo of the page the
    download, the creation of its file and the copy of the image bytes into
    it, then the line with the running count, and only then the request of
    the next page; nothing after the last page.  So it makes [N] page
    requests and processes as many images as the pages have photos, page by
    page, and the files hold the image bytes.  Without the proviso the
    requests of the loop are still, at any time, an initial part of that
    sequence of requests. *)
Theorem pagination_over_chain w key dst uri pages total s :
  served_chain w key uri pages ->
  (forall fuel,
      requests (new_events s (snd (pageLoop w fuel uri key dst total s)))
      `prefix_of` chain_requests key uri pages)
  /\ (photos_stored w dst (all_photos pages) ->
      forall fuel, (List.length pages <= fuel)%nat ->
      exists s',
        pageLoop w fuel uri key dst total s = (Ret (count_photos total pages), s')
        /\ new_events s s' = chain_events w key dst uri pages total
        /\ files s' = store_files w dst (all_photos pages) (files s)
        /\ requests (new_events s s') = chain_requests key uri pages
        /\ List.length (List.filter is_page_request (requests (new_events s s')))
           = List.length pages
        /\ created (new_events s s') = map (photo_path w dst) (all_photos pages)
        /\ List.length (created (new_events s s'))
           = list_sum (map (fun r => List.length (Photos r)) pages)).
Proof.
  intros Hchain. split.
  - intros fuel.
    destruct (pageLoop_requests_prefix w key dst pages uri total s fuel Hchain)
      as (evs & Htr & Hpre).
    rewrite (new_events_app _ _ _ Htr). exact Hpre.
  - intros Hphotos fuel Hfuel.
    rewrite (pageLoop_chain _ _ _ _ _ _ _ _ Hchain Hphotos Hfuel).
    destruct (chain_state_trace w key dst pages uri total s) as (evs & Htr & Hreq & Hcr).
    eexists. split; [reflexivity|].
    split; [apply new_events_app, chain_state_events|].
    split; [apply chain_state_files|].
    rewrite (new_events_app _ _ _ Htr), Hreq, Hcr.
    rewrite page_requests_of_chain, length_map, length_all_photos. auto.
Qed.

Lemma two_pages_served :
  served_chain world_two_pages "abc"
    "https://api.pexels.com/v1/search?page=1&per_page=80&query=cats" two_pages.
Proof.
  cbn [served_chain two_pages]. split.
  - split; [exact search_uri_parses|]. exists "page1". split; reflexivity.
  - split; [cbn; discriminate|]. split; [|reflexivity].
    split; [eexists; vm_compute; reflexivity|]. exists "page2". split; reflexivity.
Defined.

Lemma two_pages_stored : photos_stored world_two_pages "output" (all_photos two_pages).
Proof.
  repeat constructor; exists "JPEG";
    (split; [eexists; vm_compute; reflexivity|]); repeat split; reflexivity.
Defined.

Lemma pagination_over_chain_witness :
  let uri := "https://api.pexels.com/v1/search?page=1&per_page=80&query=cats" in
  exists s',
    pageLoop world_two_pages 2 uri "abc" "output" 0 empty_sys = (Ret 3, s')
    /\ new_events empty_sys s'
       = [ EvDo (pageRequest uri "abc");
           EvDo (imageRequest "https://x/a.jpg?w=1");
           EvCreate "output/a.jpg"; EvCopy "output/a.jpg" "JPEG";
           EvDo (imageRequest "https://x/b.jpg");
           EvCreate "output/b.jpg"; EvCopy "output/b.jpg" "JPEG";
           EvLog "processed: %d" [AInt 2];
           EvDo (pageRequest "https://api.pexels.com/v1/search?page=2" "abc");
           EvDo (imageRequest "https://x/c.jpg");
           EvCreate "output/c.jpg"; EvCopy "output/c.jpg" "JPEG";
           EvLog "processed: %d" [AInt 3] ]
    /\ files s'
       = <["output/c.jpg" := "JPEG"]>
           (<["output/b.jpg" := "JPEG"]> (<["output/a.jpg" := "JPEG"]> ∅))
    /\ requests (new_events empty_sys s')
       = [ pageRequest uri "abc";
           imageRequest "https://x/a.jpg?w=1"; imageRequest "https://x/b.jpg";
           pageRequest "https://api.pexels.com/v1/search?page=2" "abc";
           imageRequest "https://x/c.jpg" ]
    /\ created (new_events empty_sys s') = ["output/a.jpg"; "output/b.jpg"; "output/c.jpg"].
Proof.
  intros uri.
  destruct (proj2 (pagination_over_chain world_two_pages "abc" "output" uri two_pages 0
                     empty_sys two_pages_served) two_pages_stored 2%nat (le_n 2))
    as (s' & Hrun & Hevs & Hfiles & Hreqs & _ & Hcreated & _).
  exists s'. split; [exact Hrun|]. split; [exact Hevs|]. split; [exact Hfiles|].
  split; [exact Hreqs|exact Hcreated].
Defined.

(** C2, as the specification states it, fails: the chain of two pages is
    served, but the image host answers 404, and the loop, whatever fuel it
    has, stops at the first photo: it never makes the two page requests of
    the chain and processes none of its three images. *)
Lemma chain_with_failing_download :
  let uri := "https://api.pexels.com/v1/search?page=1&per_page=80&query=cats" in
  served_chain world_broken_images "abc" uri two_pages
  /\ forall fuel,
       let s' := snd (pageLoop world_broken_images fuel uri "abc" "output" 0 empty_sys) in
       fst (pageLoop world_broken_images (S fuel) uri "abc" "output" 0 empty_sys) = Exit 1
       /\ List.length (List.filter is_page_request (requests (new_events empty_sys s')))
          <> List.length two_pages
       /\ created (new_events empty_sys s') = [].
Proof.
  intros uri. split.
  - cbn [served_chain two_pages]. split.
    + split; [exact search_uri_parses|]. exists "page1". split; reflexivity.
    + split; [cbn; discriminate|]. split; [|reflexivity].
      split; [eexists; vm_compute; reflexivity|]. exists "page2". split; reflexivity.
  - assert (Hrun : forall fuel,
      pageLoop world_broken_images (S fuel) uri "abc" "output" 0 empty_sys
      = (Exit 1,
         add_events empty_sys
           [EvDo (pageRequest uri "abc");
            EvDo (imageRequest "https://x/a.jpg?w=1");
            EvFatal "failed to process photo %s: %s"
              [AStr "https://x/a.jpg?w=1";
               AErr (Errorf_w "download image: %w" []
                       (Errorf "got non-200 response" []))]])).
    { intros fuel. rewrite pageLoop_S.
      assert (Hsend : sendRequest world_broken_images uri "abc" empty_sys
                      = (Ret (inl (page_of 3 [photo_of "https://x/a.jpg?w=1";
                                              photo_of "https://x/b.jpg"]
                                     "https://api.pexels.com/v1/search?page=2")),
                         add_events empty_sys [EvDo (pageRequest uri "abc")]))
        by (vm_compute; reflexivity).
      rewrite Hsend. cbv zeta. cbn [page_of Photos photosLoop]. unfold bind.
      rewrite (processPhoto_non200 world_broken_images "output" "https://x/a.jpg?w=1"
                 {| StatusCode := 404;
                    RespBody := {| body_bytes := "not found"; body_err := None |} |});
        [reflexivity| |reflexivity|discriminate].
      eexists. vm_compute. reflexivity. }
    intros fuel. cbv zeta. split; [rewrite Hrun; reflexivity|].
    destruct fuel as [|fuel]; [split; [cbn; discriminate|reflexivity]|].
    rewrite Hrun. split; [vm_compute; discriminate|reflexivity].
Qed.

(** C9. The run with key [abc] and query [cats], against a server whose
    answer to the first page request decodes to one photo with the
    [large2x] URL [https://x/cats1.jpg] and an empty cursor, where the
    destination directory can be made (or exists), the image is downloaded
    with status 200 and its file can be created and written: the process
    returns from [main], exit status 0; the one file it created is
    [cats1.jpg] in the destination directory, holding the bytes of the
    image, and no other file changed; the last line logged is the total
    count, 1. *)
Theorem single_page_run w dst data s fuel :
  let dir := destination dst in
  let file := filepath_Join w dir "cats1.jpg" in
  mkdir_ok w dir ->
  page_served w "https://api.pexels.com/v1/search?page=1&per_page=80&query=cats" "abc"
    (page_of 1 [photo_of "https://x/cats1.jpg"] "") ->
  photo_stored w dir (photo_of "https://x/cats1.jpg") data ->
  exists s',
    main w (S fuel) "abc" dst "cats" s = (Ret tt, s')
    /\ exit_status (fst (main w (S fuel) "abc" dst "cats" s)) = Some 0
    /\ created (new_events s s') = [file]
    /\ files s' = <[file := data]> (files s)
    /\ last (trace s') = Some (EvLog "done, total count is %d" [AInt 1]).
Proof.
  intros dir file Hmkdir Hpage Hphoto.
  set (page := page_of 1 [photo_of "https://x/cats1.jpg"] "") in *.
  set (s0 := if String.eqb dst ""
             then add_events s [EvLog "using default destination %q at work directory"
                                  [AStr "output"]]
             else s).
  set (s1 := add_events s0 [EvMkdir dir]).
  assert (Hloop :
    pageLoop w (S fuel) (first_uri "cats") "abc" dir 0 s1
    = (Ret 1, chain_state w "abc" dir (first_uri "cats") [page] 0 s1)).
  { rewrite (pageLoop_chain w "abc" dir [page] (first_uri "cats") 0 s1 (S fuel)).
    - reflexivity.
    - cbn [served_chain]. split; [exact Hpage|reflexivity].
    - repeat constructor. exists data. exact Hphoto.
    - cbn. lia. }
  assert (Hdata : photo_data w (photo_of "https://x/cats1.jpg") = data).
  { unfold photo_data. destruct Hphoto as (_ & -> & _). reflexivity. }
  assert (Hmain :
    main w (S fuel) "abc" dst "cats" s
    = (Ret tt, add_events (chain_state w "abc" dir (first_uri "cats") [page] 0 s1)
                 [EvLog "done, total count is %d" [AInt 1]])).
  { rewrite main_eq. change (String.eqb "abc" "") with false. cbv iota zeta.
    fold dir s0 s1. rewrite Hloop. unfold mkdir_ok in Hmkdir.
    destruct (os_Mkdir w dir); [rewrite Hmkdir|]; reflexivity. }
  assert (Hs0 : exists evs, trace s0 = (trace s ++ evs)%list /\ created evs = []
                            /\ files s0 = files s).
  { subst s0. destruct (String.eqb dst "").
    - eexists. split; [reflexivity|]. split; reflexivity.
    - exists []. rewrite app_nil_r. auto. }
  destruct Hs0 as (evs0 & Htr0 & Hcr0 & Hfs0).
  rewrite Hmain. clear Hmain Hloop. subst s1. clearbody s0. eexists. split; [reflexivity|]. split; [reflexivity|].
  cbn [chain_state add_events files trace page page_of Photos fold_left store_photo
       photo_events].
  rewrite Hdata, Hfs0. fold file. split; [|split].
  - erewrite new_events_app.
    2:{ cbn [add_events store_photo trace]. rewrite Htr0, <- !app_assoc. reflexivity. }
    rewrite !created_app, Hcr0. reflexivity.
  - reflexivity.
  - apply last_snoc.
Qed.

Lemma single_page_run_witness :
  exists s',
    main world_cats 1 "abc" "" "cats" empty_sys = (Ret tt, s')
    /\ created (new_events empty_sys s') = ["output/cats1.jpg"]
    /\ files s' = <["output/cats1.jpg" := "JPEG"]> ∅
    /\ last (trace s') = Some (EvLog "done, total count is %d" [AInt 1]).
Proof.
  destruct (single_page_run world_cats "" "JPEG" empty_sys 0) as (s' & Hrun & _ & Hc & Hf & Hl).
  - exact I.
  - split; [exact search_uri_parses|]. exists cats_body. split; reflexivity.
  - split; [exact cats_photo_parses|]. repeat split; reflexivity.
  - exists s'. repeat split; assumption.
Defined.
(** ** Termination *)

(** C8, as the specification states it, fails: a server that answers 500
    ends the run at the first request, and never returned an empty cursor. *)
Lemma termination_without_empty_cursor :
  ~ (terminates world_500 "abc" "" "cats" empty_sys
     <-> eventually_empty world_500 "abc" "cats").
Proof.
  intros [H _].
  assert (Hfetch : fetch_page world_500 (first_uri "cats") "abc" = None)
    by (vm_compute; reflexivity).
  destruct H as (n & r & Hn & _).
  - exists 1%nat. vm_compute. discriminate.
  - destruct n; cbn [nth_page] in Hn; rewrite Hfetch in Hn; discriminate.
Qed.

(** *** From the run to the world *)

(** [sendRequest] returns a page only when the server served it. *)
Lemma sendRequest_Ret_served w uri key s r s1 :
  sendRequest w uri key s = (Ret (inl r), s1) -> page_served w uri key r.
Proof.
  rewrite sendRequest_eq. destruct (url.Parse uri) as [u|] eqn:Hu; [|discriminate].
  cbv zeta. destruct (client_Do w _) as [resp|] eqn:Hdo; [|discriminate].
  destruct (negb _) eqn:Hst; [discriminate|].
  destruct (body_err _) eqn:Hread; [discriminate|].
  destruct (json_Unmarshal w _) as [r'|] eqn:Hjson; [|discriminate].
  intros [= -> _]. split; [exists u; exact Hu|].
  exists (body_bytes (RespBody resp)). split; [|exact Hjson].
  destruct resp as [st [bytes err]]. cbn in *.
  apply negb_false_iff, Z.eqb_eq in Hst. subst. exact Hdo.
Qed.

Lemma sendRequest_returns w uri key s :
  (exists r s1, sendRequest w uri key s = (Ret r, s1))
  \/ (exists s1, sendRequest w uri key s = (Exit 1, s1)).
Proof.
  rewrite sendRequest_eq. destruct (url.Parse uri); cbv zeta; [|eauto].
  destruct (client_Do w _) as [resp|]; [|eauto].
  destruct (negb _); [eauto|]. destruct (body_err _); [eauto|].
  destruct (json_Unmarshal w _); eauto.
Qed.

(** [processPhoto] returns no error only when the photo was downloaded with
    status 200 and its file created and written in full. *)
Lemma processPhoto_None_stored w p dst s s1 :
  processPhoto w (Large2x (PhotoSrc p)) dst s = (Ret None, s1) ->
  exists data, photo_stored w dst p data.
Proof.
  rewrite processPhoto_eq, downloadImage_eq.
  destruct (url.Parse _) as [u|] eqn:Hu; [|discriminate]. cbv zeta.
  destruct (client_Do w _) as [resp|] eqn:Hdo; [|discriminate].
  destruct (negb _) eqn:Hst; [discriminate|].
  fold (photo_path w dst p).
  destruct (os_Create w _) eqn:Hcreate; [discriminate|].
  destruct (snd (copied _ _ _)) eqn:Hcopy; [discriminate|]. intros _.
  exists (body_bytes (RespBody resp)).
  destruct resp as [st [bytes err]]. cbn [StatusCode RespBody body_bytes] in *.
  apply negb_false_iff, Z.eqb_eq in Hst. subst st.
  unfold copied in Hcopy. cbn [body_bytes body_err] in Hcopy.
  split; [exists u; exact Hu|]. unfold ok_response.
  destruct (write_limit w (photo_path w dst p)) as [[k werr]|].
  - destruct (Nat.ltb_spec k (String.length bytes)); [discriminate|].
    cbn [snd] in Hcopy. subst err. auto.
  - cbn [snd] in Hcopy. subst err. auto.
Qed.

Lemma photosLoop_Ret_stored w dst photos :
  forall s s', photosLoop w photos dst s = (Ret tt, s') -> photos_stored w dst photos.
Proof.
  induction photos as [|p photos IH]; intros s s' H; [constructor|].
  cbn [photosLoop] in H. unfold bind in H.
  destruct (processPhoto w _ dst s) as [[[err|]|c|] s1] eqn:Hp; try discriminate.
  constructor; [exact (processPhoto_None_stored _ _ _ _ _ Hp)|exact (IH _ _ H)].
Qed.

(** The photos of a page: either all can be stored, and the loop over them
    stores them, or not, and the loop ends the process with status 1. *)
Lemma photosLoop_cases w dst photos s :
  (photos_stored w dst photos
   /\ photosLoop w photos dst s = (Ret tt, fold_left (store_photo w dst) photos s))
  \/ (~ photos_stored w dst photos
      /\ exists s', photosLoop w photos dst s = (Exit 1, s')).
Proof.
  destruct (photosLoop_ends w photos dst s) as [[s' H]|[s' H]].
  - left. pose proof (photosLoop_Ret_stored _ _ _ _ _ H) as Hst.
    split; [exact Hst|exact (photosLoop_stored _ _ _ _ Hst)].
  - right. split; [|eauto]. intros Hst.
    rewrite (photosLoop_stored _ _ _ s Hst) in H. discriminate.
Qed.

(** *** One iteration, by what the world does *)

Lemma pageLoop_next w fuel uri key dst total s r :
  page_served w uri key r -> photos_stored w dst (Photos r) -> NextPage r <> "" ->
  pageLoop w (S fuel) uri key dst total s
  = pageLoop w fuel (NextPage r) key dst
      (int_add total (Z.of_nat (List.length (Photos r))))
      (add_events
         (fold_left (store_photo w dst) (Photos r)
            (add_events s [EvDo (pageRequest uri key)]))
         [EvLog "processed: %d" [AInt (int_add total (Z.of_nat (List.length (Photos r))))]]).
Proof.
  intros Hserved Hstored Hnext.
  rewrite pageLoop_S, (sendRequest_served _ _ _ _ _ Hserved). cbv zeta.
  rewrite (photosLoop_stored _ _ _ _ Hstored).
  apply String.eqb_neq in Hnext. rewrite Hnext. reflexivity.
Qed.

Lemma pageLoop_last w fuel uri key dst total s :
  last_page w key dst uri ->
  exists t s', pageLoop w (S fuel) uri key dst total s = (Ret t, s').
Proof.
  intros (r & Hserved & Hstored & Hnext).
  rewrite pageLoop_S, (sendRequest_served _ _ _ _ _ Hserved). cbv zeta.
  rewrite (photosLoop_stored _ _ _ _ Hstored), Hnext. cbn. eauto.
Qed.

Lemma pageLoop_failing w fuel uri key dst total s :
  failing_page w key dst uri ->
  exists s', pageLoop w (S fuel) uri key dst total s = (Exit 1, s').
Proof.
  intros [Hno|(r & Hserved & Hnot)]; rewrite pageLoop_S.
  - destruct (sendRequest_returns w uri key s) as [([r|err] & s1 & H)|(s1 & H)];
      rewrite H; [|eexists; reflexivity..].
    destruct Hno. exists r. exact (sendRequest_Ret_served _ _ _ _ _ _ H).
  - rewrite (sendRequest_served _ _ _ _ _ Hserved). cbv zeta.
    destruct (photosLoop_cases w dst (Photos r) (add_events s [EvDo (pageRequest uri key)]))
      as [[Hst _]|[_ [s' H]]]; [contradiction|].
    rewrite H. eauto.
Qed.

(** The three ways an iteration can go, each with what the world did. *)
Lemma pageLoop_cases w fuel uri key dst total s :
  (failing_page w key dst uri
   /\ exists s', pageLoop w (S fuel) uri key dst total s = (Exit 1, s'))
  \/ (last_page w key dst uri
      /\ exists t s', pageLoop w (S fuel) uri key dst total s = (Ret t, s'))
  \/ (exists r,
         page_served w uri key r /\ photos_stored w dst (Photos r) /\ NextPage r <> ""
         /\ exists t' s3,
              pageLoop w (S fuel) uri key dst total s
              = pageLoop w fuel (NextPage r) key dst t' s3).
Proof.
  destruct (sendRequest w uri key s) as [[[r|err]|c|] s1] eqn:Hsend.
  - pose proof (sendRequest_Ret_served _ _ _ _ _ _ Hsend) as Hserved.
    destruct (photosLoop_cases w dst (Photos r) (add_events s [EvDo (pageRequest uri key)]))
      as [[Hst _]|[Hnot _]].
    + destruct (String.eqb_spec (NextPage r) "") as [Hnext|Hnext].
      * right. left. assert (Hlast : last_page w key dst uri) by (exists r; auto).
        split; [exact Hlast|apply pageLoop_last, Hlast].
      * right. right. exists r. repeat (split; [assumption|]).
        eexists _, _. apply pageLoop_next; assumption.
    + left. assert (Hfail : failing_page w key dst uri) by (right; exists r; auto).
      split; [exact Hfail|apply pageLoop_failing, Hfail].
  - left. assert (Hfail : failing_page w key dst uri).
    { left. intros [r Hr]. rewrite (sendRequest_served _ _ _ _ s Hr) in Hsend.
      discriminate. }
    split; [exact Hfail|apply pageLoop_failing, Hfail].
  - left. assert (Hfail : failing_page w key dst uri).
    { left. intros [r Hr]. rewrite (sendRequest_served _ _ _ _ s Hr) in Hsend.
      discriminate. }
    split; [exact Hfail|apply pageLoop_failing, Hfail].
  - destruct (sendRequest_returns w uri key s) as [(r & s' & H)|(s' & H)];
      rewrite H in Hsend; discriminate.
Qed.

(** *** The loop, from the run to the world *)

Lemma pageLoop_Ret_last w key dst fuel :
  forall uri total s t s',
    pageLoop w fuel uri key dst total s = (Ret t, s') ->
    exists n, after_pages w key dst n uri (last_page w key dst).
Proof.
  induction fuel as [|fuel IH]; intros uri total s t s' H; [discriminate|].
  destruct (pageLoop_cases w fuel uri key dst total s)
    as [[_ [s1 H1]]|[[Hlast _]|(r & Hserved & Hstored & Hnext & t' & s3 & H1)]].
  - rewrite H1 in H. discriminate.
  - exists O. exact Hlast.
  - rewrite H1 in H. apply IH in H as [n Hn]. exists (S n), r. auto.
Qed.

Lemma pageLoop_Exit_failing w key dst fuel :
  forall uri total s c s',
    pageLoop w fuel uri key dst total s = (Exit c, s') ->
    c = 1 /\ exists n, after_pages w key dst n uri (failing_page w key dst).
Proof.
  induction fuel as [|fuel IH]; intros uri total s c s' H; [discriminate|].
  destruct (pageLoop_cases w fuel uri key dst total s)
    as [[Hfail [s1 H1]]|[[_ (t & s1 & H1)]|(r & Hserved & Hstored & Hnext & t' & s3 & H1)]].
  - rewrite H1 in H. injection H as <- _. split; [reflexivity|]. exists O. exact Hfail.
  - rewrite H1 in H. discriminate.
  - rewrite H1 in H. apply IH in H as [Hc [n Hn]]. split; [exact Hc|].
    exists (S n), r. auto.
Qed.

Lemma pageLoop_OutOfFuel_goes_on w key dst fuel :
  forall uri total s,
    fst (pageLoop w fuel uri key dst total s) = OutOfFuel ->
    after_pages w key dst fuel uri (fun _ => True).
Proof.
  induction fuel as [|fuel IH]; intros uri total s H; [exact I|].
  destruct (pageLoop_cases w fuel uri key dst total s)
    as [[_ [s1 H1]]|[[_ (t & s1 & H1)]|(r & Hserved & Hstored & Hnext & t' & s3 & H1)]].
  - rewrite H1 in H. discriminate.
  - rewrite H1 in H. discriminate.
  - rewrite H1 in H. apply IH in H. exists r. auto.
Qed.

(** *** The loop, from the world to the run *)

Lemma pageLoop_reaches_last w key dst n :
  forall uri total s,
    after_pages w key dst n uri (last_page w key dst) ->
    exists t s', pageLoop w (S n) uri key dst total s = (Ret t, s').
Proof.
  induction n as [|n IH]; intros uri total s H.
  - apply pageLoop_last, H.
  - destruct H as (r & Hserved & Hstored & Hnext & H).
    rewrite (pageLoop_next _ _ _ _ _ _ _ _ Hserved Hstored Hnext). apply IH, H.
Qed.

Lemma pageLoop_reaches_failure w key dst n :
  forall uri total s,
    after_pages w key dst n uri (failing_page w key dst) ->
    exists s', pageLoop w (S n) uri key dst total s = (Exit 1, s').
Proof.
  induction n as [|n IH]; intros uri total s H.
  - apply pageLoop_failing, H.
  - destruct H as (r & Hserved & Hstored & Hnext & H).
    rewrite (pageLoop_next _ _ _ _ _ _ _ _ Hserved Hstored Hnext). apply IH, H.
Qed.

(** While the chain goes on and nothing fails, the loop with fuel for [n]
    iterations is still running after them, and it has made [n] page
    requests. *)
Lemma pageLoop_goes_on w key dst n :
  forall uri total s,
    after_pages w key dst n uri (fun _ => True) ->
    exists s' evs,
      pageLoop w n uri key dst total s = (OutOfFuel, s')
      /\ trace s' = (trace s ++ evs)%list
      /\ List.length (List.filter is_page_request (requests evs)) = n.
Proof.
  induction n as [|n IH]; intros uri total s H.
  - exists s, []. cbn. rewrite app_nil_r. auto.
  - destruct H as (r & Hserved & Hstored & Hnext & H).
    rewrite (pageLoop_next _ _ _ _ _ _ _ _ Hserved Hstored Hnext).
    match goal with
    | |- context [pageLoop w n ?u key dst ?t ?s3] =>
        destruct (IH u t s3 H) as (s' & evs & Hrun & Htr & Hlen)
    end.
    exists s', ([EvDo (pageRequest uri key)] ++ stored_events w dst (Photos r)
                ++ [EvLog "processed: %d"
                      [AInt (int_add total (Z.of_nat (List.length (Photos r))))]]
                ++ evs)%list.
    split; [exact Hrun|]. split.
    + rewrite Htr. cbn [add_events trace]. rewrite store_photos_trace.
      cbn [add_events trace]. rewrite <- !app_assoc. reflexivity.
    + rewrite !requests_app, stored_events_requests, !List.filter_app, !length_app.
      rewrite image_requests_not_page, Hlen. cbn [requests List.filter].
      rewrite pageRequest_is_page. reflexivity.
Qed.

(** *** The start of [main] *)

Lemma start_cases w key dir :
  (key <> "" /\ mkdir_ok w dir) \/ key = "" \/ mkdir_fails w dir.
Proof.
  destruct (String.eqb_spec key "") as [Hkey|Hkey]; [auto|].
  unfold mkdir_ok, mkdir_fails. destruct (os_Mkdir w dir) as [err|]; [|auto].
  destruct (os_IsExist w err) eqn:Hexist; [auto|]. right. right. exists err. auto.
Qed.

Lemma main_started w key dst query s :
  key <> "" -> mkdir_ok w (destination dst) ->
  exists s1 pre,
    trace s1 = (trace s ++ pre)%list /\ requests pre = []
    /\ forall fuel,
         main w fuel key dst query s
         = match pageLoop w fuel (first_uri query) key (destination dst) 0 s1 with
           | (Ret t, s2) =>
               (Ret tt, add_events s2 [EvLog "done, total count is %d" [AInt t]])
           | (Exit c, s2) => (Exit c, s2)
           | (OutOfFuel, s2) => (OutOfFuel, s2)
           end.
Proof.
  intros Hkey Hmkdir.
  set (s0 := if String.eqb dst ""
             then add_events s [EvLog "using default destination %q at work directory"
                                  [AStr "output"]]
             else s).
  exists (add_events s0 [EvMkdir (destination dst)]).
  exists ((if String.eqb dst ""
           then [EvLog "using default destination %q at work directory" [AStr "output"]]
           else []) ++ [EvMkdir (destination dst)])%list.
  split; [|split].
  - subst s0. cbn [add_events trace]. destruct (String.eqb dst ""); cbn [add_events trace].
    + rewrite <- app_assoc. reflexivity.
    + reflexivity.
  - destruct (String.eqb dst ""); reflexivity.
  - intros fuel. rewrite main_eq. apply String.eqb_neq in Hkey. rewrite Hkey.
    cbv zeta. fold s0. unfold mkdir_ok in Hmkdir.
    destruct (os_Mkdir w (destination dst)); [rewrite Hmkdir|]; reflexivity.
Qed.

Lemma main_not_started w fuel key dst query s :
  key = "" \/ mkdir_fails w (destination dst) ->
  exists s', main w fuel key dst query s = (Exit 1, s').
Proof.
  intros H. rewrite main_eq. destruct (String.eqb_spec key "") as [Hkey|Hkey]; [eauto|].
  destruct H as [H|(err & Herr & Hexist)]; [contradiction|].
  cbv zeta. rewrite Herr, Hexist. cbn. eauto.
Qed.

(** C8, amended.  Whether and how the run ends is decided by what the
    server, the network and the file system do along the chain of cursors
    that starts at the first URL.  The run returns from [main] exactly when
    the key is there, the directory can be made (or exists), and the chain
    reaches, with every page served and every photo downloaded and stored on
    the way, a page with an empty cursor.  The run is ended by a failure,
    and then with status 1, exactly when the key is missing, the directory
    cannot be made, or the chain reaches a page whose request fails or one
    of whose photos cannot be downloaded or stored.  The run ends exactly in
    these cases.  The loop has no page cap: the loop is still running after
    any number of iterations exactly when the key is there, the directory
    can be made and the chain of non-empty cursors never ends with nothing
    failing along it; and then, given fuel for [n] iterations, the run has
    made [n] page requests. *)
Theorem pagination_termination w key dst query s :
  let dir := destination dst in
  let uri := first_uri query in
  let started := key <> "" /\ mkdir_ok w dir in
  let reaches_last := exists n, after_pages w key dir n uri (last_page w key dir) in
  let reaches_failure := exists n, after_pages w key dir n uri (failing_page w key dir) in
  ((exists fuel s', main w fuel key dst query s = (Ret tt, s'))
   <-> started /\ reaches_last)
  /\ ((exists fuel status s', main w fuel key dst query s = (Exit status, s'))
      <-> key = "" \/ mkdir_fails w dir \/ reaches_failure)
  /\ (forall fuel status s',
         main w fuel key dst query s = (Exit status, s') -> status = 1)
  /\ (terminates w key dst query s
      <-> (started /\ reaches_last) \/ key = "" \/ mkdir_fails w dir \/ reaches_failure)
  /\ ((forall fuel, fst (main w fuel key dst query s) = OutOfFuel)
      <-> started /\ goes_on_forever w key dir uri)
  /\ (started -> goes_on_forever w key dir uri ->
      forall fuel,
        List.length
          (List.filter is_page_request
             (requests (new_events s (snd (main w fuel key dst query s)))))
        = fuel).
Proof.
  intros dir uri started reaches_last reaches_failure.
  assert (Hret : (exists fuel s', main w fuel key dst query s = (Ret tt, s'))
                 <-> started /\ reaches_last).
  { split.
    - intros (fuel & s' & H).
      destruct (start_cases w key dir) as [[Hkey Hmkdir]|Hno].
      + split; [split; assumption|].
        destruct (main_started w key dst query s Hkey Hmkdir) as (s1 & pre & _ & _ & Hmain).
        rewrite Hmain in H.
        destruct (pageLoop w fuel _ key _ 0 s1) as [[t|c|] s2] eqn:Hrun; try discriminate.
        exact (pageLoop_Ret_last _ _ _ _ _ _ _ _ _ Hrun).
      + destruct (main_not_started w fuel key dst query s Hno) as [s1 H1].
        rewrite H1 in H. discriminate.
    - intros [[Hkey Hmkdir] [n Hn]].
      destruct (main_started w key dst query s Hkey Hmkdir) as (s1 & pre & _ & _ & Hmain).
      destruct (pageLoop_reaches_last w key dir n uri 0 s1 Hn) as (t & s' & Hrun).
      exists (S n). rewrite Hmain. fold dir uri. rewrite Hrun. eauto. }
  assert (Hexit : forall fuel status s',
             main w fuel key dst query s = (Exit status, s') ->
             status = 1 /\ (key = "" \/ mkdir_fails w dir \/ reaches_failure)).
  { intros fuel c s' H.
    destruct (start_cases w key dir) as [[Hkey Hmkdir]|Hno].
    - destruct (main_started w key dst query s Hkey Hmkdir) as (s1 & pre & _ & _ & Hmain).
      rewrite Hmain in H.
      destruct (pageLoop w fuel _ key _ 0 s1) as [[t|c'|] s2] eqn:Hrun; try discriminate.
      injection H as <- _.
      destruct (pageLoop_Exit_failing _ _ _ _ _ _ _ _ _ Hrun) as [Hc Hfail]. auto.
    - destruct (main_not_started w fuel key dst query s Hno) as [s1 H1].
      rewrite H1 in H. injection H as <- _. split; [reflexivity|].
      destruct Hno; auto. }
  assert (Hfail : key = "" \/ mkdir_fails w dir \/ reaches_failure ->
                  exists fuel s', main w fuel key dst query s = (Exit 1, s')).
  { intros H.
    destruct (start_cases w key dir) as [[Hkey Hmkdir]|Hno].
    - destruct H as [H|[H|[n Hn]]].
      + contradiction.
      + exists O. apply main_not_started. auto.
      + destruct (main_started w key dst query s Hkey Hmkdir)
          as (s1 & pre & _ & _ & Hmain).
        destruct (pageLoop_reaches_failure w key dir n uri 0 s1 Hn) as (s' & Hrun).
        exists (S n). rewrite Hmain. fold dir uri. rewrite Hrun. eauto.
    - exists O. apply main_not_started, Hno. }
  assert (Hloop : started -> goes_on_forever w key dir uri ->
            forall fuel, exists s' pre evs,
              main w fuel key dst query s = (OutOfFuel, s')
              /\ trace s' = (trace s ++ pre ++ evs)%list
              /\ requests pre = []
              /\ List.length (List.filter is_page_request (requests evs)) = fuel).
  { intros [Hkey Hmkdir] Hgo fuel.
    destruct (main_started w key dst query s Hkey Hmkdir) as (s1 & pre & Htr & Hpre & Hmain).
    destruct (pageLoop_goes_on w key dir fuel uri 0 s1 (Hgo fuel))
      as (s' & evs & Hrun & Htr' & Hlen).
    exists s', pre, evs. rewrite Hmain. fold dir uri. rewrite Hrun.
    split; [reflexivity|]. rewrite Htr', Htr, <- app_assoc. auto. }
  split; [exact Hret|]. split; [|split; [|split; [|split]]].
  - split.
    + intros (fuel & c & s' & H). exact (proj2 (Hexit _ _ _ H)).
    + intros H. destruct (Hfail H) as (fuel & s' & Hrun). eauto.
  - intros fuel c s' H. exact (proj1 (Hexit _ _ _ H)).
  - split.
    + intros [fuel H].
      destruct (main w fuel key dst query s) as [[[]|c|] s'] eqn:Hrun.
      * left. apply Hret. eauto.
      * right. exact (proj2 (Hexit _ _ _ Hrun)).
      * contradiction.
    + intros [H|H].
      * apply Hret in H as (fuel & s' & H). exists fuel. rewrite H. discriminate.
      * destruct (Hfail H) as (fuel & s' & Hrun). exists fuel. rewrite Hrun. discriminate.
  - split.
    + intros H. destruct (start_cases w key dir) as [[Hkey Hmkdir]|Hno].
      * split; [split; assumption|]. intros n.
        destruct (main_started w key dst query s Hkey Hmkdir)
          as (s1 & pre & _ & _ & Hmain).
        specialize (H n). rewrite Hmain in H.
        apply (pageLoop_OutOfFuel_goes_on w key dir n uri 0 s1).
        fold dir uri in H. destruct (pageLoop w n uri key dir 0 s1) as [[t|c|] s2];
          [discriminate|discriminate|reflexivity].
      * destruct (main_not_started w O key dst query s Hno) as [s1 H1].
        specialize (H O). rewrite H1 in H. discriminate.
    + intros [Hst Hgo] fuel.
      destruct (Hloop Hst Hgo fuel) as (s' & _ & _ & -> & _). reflexivity.
  - intros Hst Hgo fuel.
    destruct (Hloop Hst Hgo fuel) as (s' & pre & evs & -> & Htr & Hpre & Hlen).
    cbn [snd]. rewrite (new_events_app _ _ _ Htr), requests_app, Hpre. exact Hlen.
Qed.

Lemma endless_served uri :
  parses uri -> page_served world_endless uri "abc" endless_page.
Proof. intros H. split; [exact H|]. exists "{}". split; reflexivity. Defined.

Lemma endless_next_parses : parses (NextPage endless_page).
Proof. eexists. vm_compute. reflexivity. Defined.

Lemma first_uri_parses query : parses (first_uri query).
Proof.
  unfold first_uri. rewrite compileFirstURL_eq. eexists.
  apply Parse_built, QueryEscape_qsafe.
Qed.

Lemma endless_goes_on dir n :
  forall uri, parses uri -> after_pages world_endless "abc" dir n uri (fun _ => True).
Proof.
  induction n as [|n IH]; intros uri Huri; [exact I|].
  exists endless_page. split; [exact (endless_served uri Huri)|].
  split; [constructor|]. split; [discriminate|]. apply IH, endless_next_parses.
Defined.

Lemma pagination_termination_witness :
  (forall fuel,
      fst (main world_endless fuel "abc" "" "cats" empty_sys) = OutOfFuel
      /\ List.length
           (List.filter is_page_request
              (requests (new_events empty_sys
                           (snd (main world_endless fuel "abc" "" "cats" empty_sys)))))
         = fuel)
  /\ (exists fuel s', main world_cats fuel "abc" "" "cats" empty_sys = (Ret tt, s'))
  /\ (exists fuel status s',
         main world_500 fuel "abc" "" "cats" empty_sys = (Exit status, s')).
Proof.
  split; [|split].
  - pose proof (pagination_termination world_endless "abc" "" "cats" empty_sys) as H.
    cbv zeta in H. destruct H as (_ & _ & _ & _ & Hforever & Hcount).
    assert (Hstarted : "abc" <> "" /\ mkdir_ok world_endless (destination ""))
      by (split; [discriminate|exact I]).
    assert (Hgo : goes_on_forever world_endless "abc" (destination "") (first_uri "cats"))
      by (intros n; apply endless_goes_on, first_uri_parses).
    intros fuel. split.
    + exact (proj2 Hforever (conj Hstarted Hgo) fuel).
    + exact (Hcount Hstarted Hgo fuel).
  - pose proof (pagination_termination world_cats "abc" "" "cats" empty_sys) as H.
    cbv zeta in H. destruct H as (Hret & _).
    apply Hret. split; [split; [discriminate|exact I]|].
    exists O, cats_page. split; [|split; [|reflexivity]].
    + split; [apply first_uri_parses|]. exists cats_body.
      split; [vm_compute; reflexivity|reflexivity].
    + constructor; [|constructor]. exists "JPEG".
      split; [exact cats_photo_parses|]. repeat split; reflexivity.
  - pose proof (pagination_termination world_500 "abc" "" "cats" empty_sys) as H.
    cbv zeta in H. destruct H as (_ & Hexit & _).
    apply Hexit. right. right. exists O. left.
    intros (r & _ & body & Hdo & _). discriminate Hdo.
Defined.

(** * Further properties of the program *)

(** ** File names ([processPhoto], lines 165-170) *)

Lemma lastIndex_from_last_pos x s :
  forall i found,
    lastIndex_from s (String x "") i found
    = match last_pos x s with
      | Some k => i + Z.of_nat k
      | None => found
      end.
Proof.
  induction s as [|c s IH]; intros i found; [reflexivity|].
  rewrite lastIndex_from_cons, HasPrefix_byte, IH. cbn [last_pos].
  destruct (last_pos x s) as [k|]; [lia|].
  destruct (Ascii.eqb c x); [lia|reflexivity].
Qed.

Lemma last_pos_cons x c s :
  last_pos x (String c s)
  = match last_pos x s with
    | Some k => Some (S k)
    | None => if Ascii.eqb c x then Some O else None
    end.
Proof. reflexivity. Qed.

Lemma last_pos_None x s : last_pos x s = None <-> lacks x s = true.
Proof.
  induction s as [|c s IH]; [split; reflexivity|].
  rewrite last_pos_cons. cbn [lacks string_forallb]. fold (lacks x s).
  destruct (last_pos x s) as [k|].
  - split; [discriminate|]. intros H. apply andb_prop in H as [_ H].
    apply IH in H. discriminate.
  - destruct (Ascii.eqb c x); cbn [negb andb]; [split; discriminate|].
    split; intros _; [apply IH|]; reflexivity.
Qed.


Lemma last_pos_app x a b :
  lacks x b = true -> last_pos x (a ++ String x b) = Some (String.length a).
Proof.
  intros Hb. apply last_pos_None in Hb. induction a as [|c a IH].
  - change ("" ++ String x b) with (String x b).
    rewrite last_pos_cons, Hb, Ascii.eqb_refl. reflexivity.
  - change (String c a ++ String x b) with (String c (a ++ String x b)).
    rewrite last_pos_cons, IH. reflexivity.
Qed.

Lemma strings_LastIndex_last_pos x s :
  strings_LastIndex s (String x "")
  = match last_pos x s with
    | Some k => Z.of_nat k
    | None => -1
    end.
Proof.
  unfold strings_LastIndex. rewrite lastIndex_from_last_pos.
  destruct (last_pos x s); reflexivity.
Qed.

Lemma lacks_drop x n s : lacks x s = true -> lacks x (string_drop n s) = true.
Proof.
  revert s. induction n as [|n IH]; intros s H; [exact H|].
  destruct s as [|c s]; [reflexivity|]. cbn [string_drop].
  cbn [lacks string_forallb] in H. apply andb_prop in H as [_ H]. apply IH, H.
Qed.



Lemma cutQueryArgs_app u q :
  lacks "?" q = true -> cutQueryArgs (u ++ String "?" q) = u.
Proof.
  intros Hq. unfold cutQueryArgs. rewrite strings_LastIndex_last_pos.
  rewrite (last_pos_app _ u _ Hq).
  replace (Z.of_nat (String.length u) =? -1) with false
    by (symmetry; apply Z.eqb_neq; lia).
  unfold slice_to. rewrite Nat2Z.id. apply string_take_length.
Qed.

(** X2. A query string without question marks does not reach the file name:
    the name of [u?q] is the last path segment of [u], whatever [q] is. *)
Theorem photoName_ignores_query (u q : string) :
  lacks "?" q = true ->
  photoName (u ++ String "?" q) = path_Base u.
Proof. intros Hq. unfold photoName. rewrite (cutQueryArgs_app _ _ Hq). reflexivity. Qed.

Lemma photoName_ignores_query_witness :
  lacks "?" "auto=compress&cs=tinysrgb" = true
  /\ photoName ("https://images.example.com/photos/42/pic.jpg"
                  ++ String "?" "auto=compress&cs=tinysrgb")
     = path_Base "https://images.example.com/photos/42/pic.jpg".
Proof.
  split; [reflexivity|].
  apply (photoName_ignores_query "https://images.example.com/photos/42/pic.jpg"
           "auto=compress&cs=tinysrgb").
  reflexivity.
Defined.

(** ** The first URL ([compileFirstURL], lines 110-124) *)

Lemma append_inj_l a b c : a ++ b = a ++ c -> b = c.
Proof.
  induction a as [|x a IH]; intros H; [exact H|].
  apply IH. change (String x a ++ b) with (String x (a ++ b)) in H.
  change (String x a ++ c) with (String x (a ++ c)) in H. congruence.
Qed.

(** X3. Different queries give different first URLs. *)
Theorem compileFirstURL_injective (q1 q2 : string) :
  compileFirstURL q1 = compileFirstURL q2 -> q1 = q2.
Proof.
  rewrite !compileFirstURL_eq. intros H.
  assert (He : url.QueryEscape q1 = url.QueryEscape q2).
  { injection H as H. exact (append_inj_l _ _ _ H). }
  pose proof (QueryUnescape_QueryEscape q1) as H1.
  rewrite He, QueryUnescape_QueryEscape in H1. congruence.
Qed.

Lemma compileFirstURL_injective_witness :
  compileFirstURL "black cat" = compileFirstURL "black cat"
  /\ "black cat" = "black cat".
Proof.
  split; [reflexivity|].
  apply (compileFirstURL_injective "black cat" "black cat"). reflexivity.
Defined.

Lemma qsafe_printable c : implb (qsafe c) (printable c) = true.
Proof.
  revert c. apply (byte_cases (fun c => implb _ _)). vm_compute. reflexivity.
Qed.

(** X4. Whatever the query, the first URL consists of printable ASCII bytes
    only: blanks, control bytes and bytes beyond ASCII of the query are all
    escaped. *)
Theorem compileFirstURL_printable (query : string) :
  string_forallb printable (fst (compileFirstURL query)) = true.
Proof.
  rewrite compileFirstURL_eq. cbn [fst]. rewrite string_forallb_app.
  apply andb_true_intro. split; [vm_compute; reflexivity|].
  apply (string_forallb_impl qsafe); [exact qsafe_printable|apply QueryEscape_qsafe].
Qed.

(** ** What a run does and what it never does ([main], lines 51-108) *)

Lemma run_effect_refl w key dir s : run_effect w key dir s s.
Proof.
  exists []. rewrite app_nil_r. repeat split; try constructor; auto.
Qed.

Lemma run_effect_trans w key dir s1 s2 s3 :
  run_effect w key dir s1 s2 -> run_effect w key dir s2 s3 -> run_effect w key dir s1 s3.
Proof.
  intros (e1 & Ht1 & Hr1 & Hc1 & Hd1 & Hf1) (e2 & Ht2 & Hr2 & Hc2 & Hd2 & Hf2).
  exists (e1 ++ e2)%list. rewrite Ht2, Ht1, app_assoc, requests_app, created_app.
  split; [reflexivity|]. split; [apply Forall_app; auto|].
  split; [apply Forall_app; auto|]. split; [set_solver|].
  intros path Hp. rewrite Hf2, Hf1; [reflexivity| |]; set_solver.
Qed.

(** Log lines and the making of the directory have no effect on requests
    and files. *)
Lemma run_effect_quiet w key dir s evs :
  requests evs = [] -> created evs = [] ->
  run_effect w key dir s (add_events s evs).
Proof.
  intros Hr Hc. exists evs. rewrite Hr, Hc. cbn [add_events files trace].
  repeat split; try constructor; auto.
Qed.

Lemma run_effect_sendRequest w key dir uri s :
  run_effect w key dir s (snd (sendRequest w uri key s)).
Proof.
  assert (Hreq : forall evs',
    requests evs' = [] -> created evs' = [] ->
    run_effect w key dir s (add_events s (EvDo (pageRequest uri key) :: evs'))).
  { intros evs' Hr Hc. eexists. cbn [add_events files trace].
    split; [reflexivity|]. cbn [requests created]. rewrite Hr, Hc.
    repeat split; try constructor; auto. exists uri. left. reflexivity. }
  rewrite sendRequest_eq. destruct (url.Parse uri); cbv zeta;
    [|apply run_effect_refl].
  destruct (client_Do w _) as [resp|]; [destruct (negb _)|];
    [| destruct (body_err _); [|destruct (json_Unmarshal w _)] |];
    cbn [snd]; apply Hreq; reflexivity.
Qed.

Lemma photo_file_intro w dir photoURL :
  photo_file w dir (filepath_Join w dir (photoName photoURL)).
Proof. exists photoURL. reflexivity. Qed.

Lemma run_effect_processPhoto w key dir photoURL s :
  run_effect w key dir s (snd (processPhoto w photoURL dir s)).
Proof.
  assert (Himg : forall evs', requests evs' = [] -> created evs' = [] ->
    run_effect w key dir s (add_events s (EvDo (imageRequest photoURL) :: evs'))).
  { intros evs' Hr Hc. eexists. cbn [add_events files trace].
    split; [reflexivity|]. cbn [requests created]. rewrite Hr, Hc.
    repeat split; try constructor; auto. exists photoURL. right. reflexivity. }
  rewrite processPhoto_eq, downloadImage_eq. destruct (url.Parse photoURL); cbv zeta;
    [|apply run_effect_refl].
  destruct (client_Do w _) as [resp|]; [|apply (Himg []); reflexivity].
  destruct (negb _); [apply (Himg []); reflexivity|].
  set (path := filepath_Join w dir (photoName photoURL)).
  destruct (os_Create w path).
  - cbn [snd add_events files trace].
    exists [EvDo (imageRequest photoURL); EvCreate path].
    cbn [add_events files trace]. rewrite <- app_assoc. split; [reflexivity|]. cbn [requests created].
    repeat split; auto; repeat constructor.
    + exists photoURL. right. reflexivity.
    + apply photo_file_intro.
  - assert (Heff : run_effect w key dir s
      {| files := <[path := fst (copied w path (RespBody resp))]>
                    (files (add_events s [EvDo (imageRequest photoURL)]));
         trace := (trace (add_events s [EvDo (imageRequest photoURL)])
                   ++ [EvCreate path; EvCopy path (fst (copied w path (RespBody resp)))])%list |}).
    { exists [EvDo (imageRequest photoURL); EvCreate path;
              EvCopy path (fst (copied w path (RespBody resp)))].
      cbn [add_events files trace]. rewrite <- app_assoc.
      split; [reflexivity|]. cbn [requests created].
      split; [repeat constructor; exists photoURL; right; reflexivity|].
      split; [repeat constructor; apply photo_file_intro|].
      split; [rewrite dom_insert_L; set_solver|].
      intros p Hp. apply lookup_insert_ne. set_solver. }
    destruct (snd (copied w path (RespBody resp))); exact Heff.
Qed.

Lemma run_effect_photosLoop w key dir photos :
  forall s, run_effect w key dir s (snd (photosLoop w photos dir s)).
Proof.
  induction photos as [|p photos IH]; intros s; [apply run_effect_refl|].
  cbn [photosLoop]. unfold bind.
  pose proof (run_effect_processPhoto w key dir (Large2x (PhotoSrc p)) s) as Hp.
  destruct (processPhoto_returns w (Large2x (PhotoSrc p)) dir s) as (e & s1 & Hrun).
  rewrite Hrun in *. cbn [snd] in Hp. destruct e as [err|].
  - eapply run_effect_trans; [exact Hp|]. cbn [snd].
    apply (run_effect_quiet w key dir s1 [EvFatal _ _]); reflexivity.
  - eapply run_effect_trans; [exact Hp|apply IH].
Qed.

Lemma run_effect_pageLoop w key dir fuel :
  forall uri total s, run_effect w key dir s (snd (pageLoop w fuel uri key dir total s)).
Proof.
  induction fuel as [|fuel IH]; intros uri total s; [apply run_effect_refl|].
  rewrite pageLoop_S.
  pose proof (run_effect_sendRequest w key dir uri s) as Hs.
  destruct (sendRequest w uri key s) as [[[resp|err]|c|] s1]; cbn [snd] in *;
    try exact Hs.
  - cbv zeta. pose proof (run_effect_photosLoop w key dir (Photos resp) s1) as Hp.
    destruct (photosLoop w (Photos resp) dir s1) as [[[]|c|] s2]; cbn [snd] in *;
      try (eapply run_effect_trans; [exact Hs|exact Hp]).
    assert (Hlog : run_effect w key dir s
      (add_events s2 [EvLog "processed: %d"
         [AInt (int_add total (Z.of_nat (List.length (Photos resp))))]])).
    { eapply run_effect_trans; [exact Hs|]. eapply run_effect_trans; [exact Hp|].
      apply run_effect_quiet; reflexivity. }
    destruct (String.eqb (NextPage resp) ""); [exact Hlog|].
    eapply run_effect_trans; [exact Hlog|apply IH].
  - eapply run_effect_trans; [exact Hs|]. apply run_effect_quiet; reflexivity.
Qed.

Lemma run_effect_main w fuel key dst query s :
  run_effect w key (destination dst) s (snd (main w fuel key dst query s)).
Proof.
  rewrite main_eq. destruct (String.eqb key "");
    [apply run_effect_quiet; reflexivity|]. cbv zeta.
  set (s0 := if String.eqb dst "" then _ else s).
  assert (H0 : run_effect w key (destination dst) s s0).
  { subst s0. destruct (String.eqb dst "");
      [apply run_effect_quiet; reflexivity|apply run_effect_refl]. }
  set (s1 := add_events s0 [EvMkdir (destination dst)]).
  assert (H1 : run_effect w key (destination dst) s s1).
  { eapply run_effect_trans; [exact H0|]. apply run_effect_quiet; reflexivity. }
  clearbody s1. clear H0. clearbody s0.
  set (loop := match pageLoop _ _ _ _ _ _ _ with (Ret t, s2) => _ | _ => _ end).
  assert (Hloop : run_effect w key (destination dst) s (snd loop)).
  { subst loop.
    pose proof (run_effect_pageLoop w key (destination dst) fuel (first_uri query) 0 s1)
      as Hp.
    destruct (pageLoop _ _ _ _ _ _ _) as [[t|c|] s2]; cbn [snd] in *;
      try (eapply run_effect_trans; [exact H1|exact Hp]).
    eapply run_effect_trans; [exact H1|]. eapply run_effect_trans; [exact Hp|].
    apply run_effect_quiet; reflexivity. }
  destruct (os_Mkdir w _); [destruct (negb _)|]; try exact Hloop.
  eapply run_effect_trans; [exact H1|]. apply run_effect_quiet; reflexivity.
Qed.


(** X6. A run never removes a file, creates files only under names derived
    from photo URLs in the destination directory, and leaves the content of
    every file it did not create as it was. *)
Theorem run_touches_photo_files_only w fuel key dst query s :
  let s' := snd (main w fuel key dst query s) in
  dom (files s) ⊆ dom (files s')
  /\ Forall (photo_file w (destination dst)) (created (new_events s s'))
  /\ (forall path, path ∉ created (new_events s s') ->
                   files s' !! path = files s !! path).
Proof.
  intros s'. subst s'.
  destruct (run_effect_main w fuel key dst query s) as (evs & Htr & _ & Hcr & Hdom & Hfs).
  rewrite (new_events_app _ _ _ Htr). auto.
Qed.

Lemma run_touches_photo_files_only_witness :
  let s := {| files := {[ "notes.txt" := "keep" ]}; trace := [] |} in
  let s' := snd (main world_cats 1 "abc" "" "cats" s) in
  created (new_events s s') = ["output/cats1.jpg"]
  /\ files s' !! "notes.txt" = Some "keep".
Proof.
  intros s s'.
  assert (Hc : created (new_events s s') = ["output/cats1.jpg"])
    by (vm_compute; reflexivity).
  split; [exact Hc|]. unfold s' in *.
  rewrite (proj2 (proj2 (run_touches_photo_files_only world_cats 1 "abc" "" "cats" s))
             "notes.txt").
  - reflexivity.
  - rewrite Hc. intros H. apply list_elem_of_singleton in H. discriminate.
Defined.

Lemma last_add_events s evs e :
  last (trace (add_events s (evs ++ [e])%list)) = Some e.
Proof. cbn [add_events trace]. rewrite app_assoc. apply last_snoc. Qed.

Lemma log_Fatalf_ends {A} format args s :
  ends_properly (@log_Fatalf A format args s).
Proof.
  split; [reflexivity|]. exists format, args. cbn. apply last_snoc.
Qed.

Lemma sendRequest_ends w uri key s : ends_properly (sendRequest w uri key s).
Proof.
  rewrite sendRequest_eq. destruct (url.Parse uri); cbv zeta; [|exact I].
  destruct (client_Do w _) as [resp|]; [|exact I].
  destruct (negb _); [exact I|]. destruct (body_err _); [exact I|].
  destruct (json_Unmarshal w _); [exact I|].
  split; [reflexivity|]. eexists _, _. cbn [snd].
  apply (last_add_events s [EvDo (pageRequest uri key)]).
Qed.

Lemma photosLoop_ends_properly w photos dst :
  forall s, ends_properly (photosLoop w photos dst s).
Proof.
  induction photos as [|p photos IH]; intros s; [exact I|].
  cbn [photosLoop]. unfold bind.
  destruct (processPhoto_returns w (Large2x (PhotoSrc p)) dst s) as (e & s1 & ->).
  destruct e as [err|]; [apply log_Fatalf_ends|apply IH].
Qed.

Lemma pageLoop_ends_properly w key dst fuel :
  forall uri total s, ends_properly (pageLoop w fuel uri key dst total s).
Proof.
  induction fuel as [|fuel IH]; intros uri total s; [exact I|].
  rewrite pageLoop_S. pose proof (sendRequest_ends w uri key s) as Hs.
  destruct (sendRequest w uri key s) as [[[resp|err]|c|] s1]; try exact Hs.
  - cbv zeta. pose proof (photosLoop_ends_properly w (Photos resp) dst s1) as Hp.
    destruct (photosLoop w (Photos resp) dst s1) as [[[]|c|] s2]; try exact Hp.
    destruct (String.eqb (NextPage resp) ""); [exact I|apply IH].
  - split; [reflexivity|]. eexists _, _. cbn [snd]. apply (last_add_events s1 []).
Qed.

(** X7. Once [flag.Parse] has returned (from line 58 on), however the run
    goes, when the process ends it ends in one of two ways: it returns from
    [main], status 0, and the last line logged is the total count; or it
    exits with status 1, and the last line logged is the fatal message.
    From there on there is no other status and no exit without a message.
    (Before that, [flag.Parse] itself ends the process on a command line it
    does not accept; that is outside [main] as modelled here.) *)
Theorem run_ends_properly w fuel key dst query s :
  match main w fuel key dst query s with
  | (Ret _, s') =>
      exists total, last (trace s') = Some (EvLog "done, total count is %d" [AInt total])
  | (Exit status, s') =>
      status = 1 /\ exists format args, last (trace s') = Some (EvFatal format args)
  | (OutOfFuel, _) => True
  end.
Proof.
  rewrite main_eq. destruct (String.eqb key "").
  { split; [reflexivity|]. eexists _, _. apply (last_add_events s []). }
  cbv zeta. set (s0 := if String.eqb dst "" then _ else s). clearbody s0.
  set (s1 := add_events s0 [EvMkdir (destination dst)]).
  set (loop := match pageLoop _ _ _ _ _ _ _ with (Ret t, s2) => _ | _ => _ end).
  assert (Hloop : match loop with
    | (Ret _, s') =>
        exists total, last (trace s') = Some (EvLog "done, total count is %d" [AInt total])
    | (Exit status, s') =>
        status = 1 /\ exists format args, last (trace s') = Some (EvFatal format args)
    | (OutOfFuel, _) => True
    end).
  { subst loop.
    pose proof (pageLoop_ends_properly w key (destination dst) fuel (first_uri query) 0 s1)
      as Hp.
    destruct (pageLoop _ _ _ _ _ _ _) as [[t|c|] s2]; [|exact Hp|exact I].
    exists t. apply (last_add_events s2 []). }
  destruct (os_Mkdir w _); [destruct (negb _)|]; try exact Hloop.
  split; [reflexivity|]. eexists _, _. apply (last_add_events s1 []).
Qed.

(** X8. Without a key, or when the destination directory cannot be made
    for a reason other than its being there already, the process exits with
    status 1 before it sends any request: nothing is downloaded, and no file
    is touched. *)
Theorem startup_failures w fuel key dst query s :
  (key = "" ->
   main w fuel key dst query s = (Exit 1, add_events s [EvFatal "no key provided" []]))
  /\ (forall err,
         key <> "" ->
         os_Mkdir w (destination dst) = Some err ->
         os_IsExist w err = false ->
         exists s',
           main w fuel key dst query s = (Exit 1, s')
           /\ requests (new_events s s') = []
           /\ created (new_events s s') = []
           /\ files s' = files s
           /\ last (trace s')
              = Some (EvFatal "cannot create destination directory: %s" [AErr err])).
Proof.
  split.
  - intros ->. rewrite main_eq. reflexivity.
  - intros err Hkey Hmk Hex. rewrite main_eq. apply String.eqb_neq in Hkey.
    rewrite Hkey. cbv zeta. rewrite Hmk, Hex. cbn [negb].
    eexists. split; [reflexivity|].
    destruct (String.eqb dst "").
    + erewrite new_events_app
        by (cbn [add_events trace]; rewrite <- ?app_assoc; reflexivity).
      repeat split; try reflexivity. apply (last_add_events _ []).
    + erewrite new_events_app
        by (cbn [add_events trace]; rewrite <- ?app_assoc; reflexivity).
      repeat split; try reflexivity. apply (last_add_events _ []).
Qed.

Lemma startup_failures_witness :
  main world_cats 5 "" "photos" "cats" empty_sys
  = (Exit 1, add_events empty_sys [EvFatal "no key provided" []])
  /\ exists s',
       main world_no_dir 5 "abc" "photos" "cats" empty_sys = (Exit 1, s')
       /\ requests (new_events empty_sys s') = []
       /\ files s' = ∅.
Proof.
  split.
  - apply (proj1 (startup_failures world_cats 5 "" "photos" "cats" empty_sys) eq_refl).
  - destruct (proj2 (startup_failures world_no_dir 5 "abc" "photos" "cats" empty_sys)
                (ErrorString "mkdir: permission denied"))
      as (s' & Hrun & Hreq & _ & Hfs & _);
      [discriminate|reflexivity|reflexivity|].
    exists s'. auto.
Defined.

Lemma pageLoop_first_request w key dst fuel uri total s :
  parses uri ->
  exists evs,
    trace (snd (pageLoop w (S fuel) uri key dst total s))
    = (trace s ++ EvDo (pageRequest uri key) :: evs)%list.
Proof.
  intros [u Hu]. rewrite pageLoop_S, sendRequest_eq, Hu. cbv zeta.
  set (s1 := add_events s [EvDo (pageRequest uri key)]).
  assert (Hext : forall s2, run_effect w key dst s1 s2 ->
            exists evs, trace s2 = (trace s ++ EvDo (pageRequest uri key) :: evs)%list).
  { intros s2 (evs & Htr & _). exists evs. rewrite Htr. subst s1.
    cbn [add_events trace]. rewrite <- app_assoc. reflexivity. }
  destruct (client_Do w _) as [resp|].
  2:{ apply Hext. apply run_effect_quiet; reflexivity. }
  destruct (negb _).
  { apply Hext. apply run_effect_quiet; reflexivity. }
  destruct (body_err _).
  { apply Hext. apply run_effect_quiet; reflexivity. }
  destruct (json_Unmarshal w _) as [r|err].
  2:{ cbn [snd]. eexists. cbn [add_events trace]. reflexivity. }
  pose proof (run_effect_photosLoop w key dst (Photos r) s1) as Hp.
  destruct (photosLoop w (Photos r) dst s1) as [[[]|c|] s2]; cbn [snd] in *;
    try (apply Hext, Hp).
  assert (Hlog : run_effect w key dst s1
    (add_events s2 [EvLog "processed: %d"
       [AInt (int_add total (Z.of_nat (List.length (Photos r))))]])).
  { eapply run_effect_trans; [exact Hp|]. apply run_effect_quiet; reflexivity. }
  destruct (String.eqb (NextPage r) ""); [apply Hext, Hlog|].
  apply Hext. eapply run_effect_trans; [exact Hlog|apply run_effect_pageLoop].
Qed.

(** X9. With a key and a destination directory that could be made or was
    there already, the first request of the run is the page request for the
    compiled URL, carrying the key: whatever the query, building that
    request does not fail. *)
Theorem run_starts_with_search w fuel key dst query s :
  key <> "" ->
  mkdir_ok w (destination dst) ->
  exists rest,
    requests (new_events s (snd (main w (S fuel) key dst query s)))
    = pageRequest (first_uri query) key :: rest.
Proof.
  intros Hkey Hmk. rewrite main_eq. apply String.eqb_neq in Hkey. rewrite Hkey.
  cbv zeta. set (s0 := if String.eqb dst "" then _ else s).
  assert (H0 : exists evs0, trace s0 = (trace s ++ evs0)%list /\ requests evs0 = []).
  { subst s0. destruct (String.eqb dst "").
    - eexists. split; reflexivity.
    - exists []. rewrite app_nil_r. auto. }
  destruct H0 as (evs0 & Htr0 & Hreq0). clearbody s0.
  set (s1 := add_events s0 [EvMkdir (destination dst)]).
  set (loop := match pageLoop _ _ _ _ _ _ _ with (Ret t, s2) => _ | _ => _ end).
  assert (Hloop : exists rest,
    requests (new_events s (snd loop)) = pageRequest (first_uri query) key :: rest).
  { subst loop.
    destruct (pageLoop_first_request w key (destination dst) fuel (first_uri query) 0 s1
                (first_uri_parses query)) as (evs & Htr).
    destruct (pageLoop _ _ _ _ _ _ _) as [[t|c|] s2]; cbn [snd] in *.
    - exists (requests evs). erewrite new_events_app.
      2:{ cbn [add_events trace]. rewrite Htr. subst s1. cbn [add_events trace].
          rewrite Htr0, <- !app_assoc. reflexivity. }
      rewrite !requests_app, Hreq0. cbn [requests app]. rewrite ?app_nil_r.
      reflexivity.
    - exists (requests evs). erewrite new_events_app.
      2:{ rewrite Htr. subst s1. cbn [add_events trace].
          rewrite Htr0, <- !app_assoc. reflexivity. }
      rewrite !requests_app, Hreq0. reflexivity.
    - exists (requests evs). erewrite new_events_app.
      2:{ rewrite Htr. subst s1. cbn [add_events trace].
          rewrite Htr0, <- !app_assoc. reflexivity. }
      rewrite !requests_app, Hreq0. reflexivity. }
  unfold mkdir_ok in Hmk.
  destruct (os_Mkdir w _); [rewrite Hmk|]; exact Hloop.
Qed.

Lemma run_starts_with_search_witness :
  "abc" <> "" /\ mkdir_ok world_dir_exists (destination "photos")
  /\ exists rest,
       requests (new_events empty_sys
                   (snd (main world_dir_exists 1 "abc" "photos" "black cat" empty_sys)))
       = pageRequest (first_uri "black cat") "abc" :: rest.
Proof.
  split; [discriminate|]. split; [reflexivity|].
  apply (run_starts_with_search world_dir_exists 0 "abc" "photos" "black cat" empty_sys).
  - discriminate.
  - reflexivity.
Defined.

(** ** Storing a photo ([processPhoto], lines 158-184) *)

(** X10. [processPhoto] calls [os.Create] exactly when the photo URL parses
    and the download is answered with status 200, and then for the file named
    after the URL in the destination directory; in every other case it
    leaves the files as they are. *)
Theorem processPhoto_creates_after_200 w photoURL dst s :
  let s' := snd (processPhoto w photoURL dst s) in
  let path := filepath_Join w dst (photoName photoURL) in
  match url.Parse photoURL, client_Do w (imageRequest photoURL) with
  | inl _, inl resp =>
      if StatusCode resp =? 200
      then created (new_events s s') = [path]
           /\ files s' = match os_Create w path with
                         | Some _ => files s
                         | None => <[path := fst (copied w path (RespBody resp))]> (files s)
                         end
      else created (new_events s s') = [] /\ files s' = files s
  | _, _ => created (new_events s s') = [] /\ files s' = files s
  end.
Proof.
  cbv zeta. rewrite processPhoto_eq, downloadImage_eq.
  assert (Hnil : new_events s s = []).
  { apply new_events_app. rewrite app_nil_r. reflexivity. }
  destruct (url.Parse photoURL); cbv zeta; [|cbn [snd]; rewrite Hnil; auto].
  destruct (client_Do w _) as [resp|].
  2:{ cbn [snd]. erewrite new_events_app by reflexivity. auto. }
  destruct (StatusCode resp =? 200); cbn [negb].
  2:{ cbn [snd]. erewrite new_events_app by reflexivity. auto. }
  destruct (os_Create w _).
  - cbn [snd]. erewrite new_events_app
      by (cbn [add_events trace]; rewrite <- app_assoc; reflexivity). auto.
  - destruct (snd (copied w _ _)); cbn [snd];
      (erewrite new_events_app
         by (cbn [add_events trace]; rewrite <- app_assoc; reflexivity)); auto.
Qed.

Lemma photosLoop_failing w dst before p after s err s1 :
  photos_stored w dst before ->
  processPhoto w (Large2x (PhotoSrc p)) dst (fold_left (store_photo w dst) before s)
  = (Ret (Some err), s1) ->
  photosLoop w (before ++ p :: after)%list dst s
  = (Exit 1,
     add_events s1 [EvFatal "failed to process photo %s: %s"
                      [AStr (Large2x (PhotoSrc p)); AErr err]]).
Proof.
  intros Hbefore Hp. rewrite (photosLoop_app _ _ _ _ _ Hbefore).
  cbn [photosLoop]. unfold bind. rewrite Hp. reflexivity.
Qed.

(** X11. When the file of a photo cannot be created, the run exits with
    status 1 after the download of that photo: the photos before it are
    stored, nothing is stored for it, the photos after it are not requested,
    and the last line logged names the photo URL, the file and the cause. *)
Theorem create_failure_aborts w dst before p after resp err s :
  let photoURL := Large2x (PhotoSrc p) in
  photos_stored w dst before ->
  parses photoURL ->
  client_Do w (imageRequest photoURL) = inl resp ->
  StatusCode resp = 200 ->
  os_Create w (photo_path w dst p) = Some err ->
  exists s',
    photosLoop w (before ++ p :: after)%list dst s = (Exit 1, s')
    /\ files s' = store_files w dst before (files s)
    /\ requests (new_events s s')
       = (map (fun q => imageRequest (Large2x (PhotoSrc q))) before
            ++ [imageRequest photoURL])%list
    /\ last (trace s')
       = Some (EvFatal "failed to process photo %s: %s"
                 [AStr photoURL;
                  AErr (Errorf_w "create file %s: %w" [photo_path w dst p] err)]).
Proof.
  cbv zeta. intros Hbefore [u Hu] Hdo Hst Hcreate.
  erewrite photosLoop_failing; [|exact Hbefore|].
  2:{ rewrite processPhoto_eq, downloadImage_eq, Hu. cbv zeta. rewrite Hdo, Hst.
      cbn [negb Z.eqb Pos.eqb]. fold (photo_path w dst p). rewrite Hcreate. reflexivity. }
  eexists. split; [reflexivity|]. cbn [add_events files trace].
  rewrite store_photos_files. split; [reflexivity|]. split.
  - erewrite new_events_app.
    2:{ cbn [add_events trace]. rewrite store_photos_trace, <- !app_assoc. reflexivity. }
    rewrite !requests_app, stored_events_requests. reflexivity.
  - apply last_snoc.
Qed.

Lemma create_failure_aborts_witness :
  exists s',
    photosLoop world_read_only [photo_of "https://x/cats1.jpg"; photo_of "https://x/cats2.jpg"]
      "output" empty_sys = (Exit 1, s')
    /\ files s' = ∅
    /\ requests (new_events empty_sys s') = [imageRequest "https://x/cats1.jpg"].
Proof.
  destruct (create_failure_aborts world_read_only "output" []
              (photo_of "https://x/cats1.jpg") [photo_of "https://x/cats2.jpg"]
              (ok_response "JPEG") (ErrorString "open: read-only file system") empty_sys)
    as (s' & Hrun & Hfs & Hreq & _).
  - constructor.
  - exact cats_photo_parses.
  - reflexivity.
  - reflexivity.
  - reflexivity.
  - exists s'. auto.
Defined.

(** X12. When copying the image into its file fails, because a write fails
    or because the download breaks off, the run exits with status 1 and the
    file stays on disk with the bytes that were written: there is no clean-up
    of a partial file. *)
Theorem copy_failure_leaves_partial_file w dst before p after resp err s :
  let photoURL := Large2x (PhotoSrc p) in
  let path := photo_path w dst p in
  photos_stored w dst before ->
  parses photoURL ->
  client_Do w (imageRequest photoURL) = inl resp ->
  StatusCode resp = 200 ->
  os_Create w path = None ->
  snd (copied w path (RespBody resp)) = Some err ->
  exists s',
    photosLoop w (before ++ p :: after)%list dst s = (Exit 1, s')
    /\ files s' = <[path := fst (copied w path (RespBody resp))]>
                    (store_files w dst before (files s))
    /\ last (trace s')
       = Some (EvFatal "failed to process photo %s: %s"
                 [AStr photoURL; AErr (Errorf_w "write file %s: %w" [path] err)]).
Proof.
  cbv zeta. intros Hbefore [u Hu] Hdo Hst Hcreate Hcopy.
  erewrite photosLoop_failing; [|exact Hbefore|].
  2:{ rewrite processPhoto_eq, downloadImage_eq, Hu. cbv zeta. rewrite Hdo, Hst.
      cbn [negb Z.eqb Pos.eqb]. fold (photo_path w dst p).
      rewrite Hcreate, Hcopy. reflexivity. }
  eexists. split; [reflexivity|]. cbn [add_events files trace].
  rewrite store_photos_files. split; [reflexivity|apply last_snoc].
Qed.

Lemma copy_failure_leaves_partial_file_witness :
  exists s',
    photosLoop world_disk_full [photo_of "https://x/cats1.jpg"] "output" empty_sys
    = (Exit 1, s')
    /\ files s' = <["output/cats1.jpg" := "JP"]> ∅.
Proof.
  destruct (copy_failure_leaves_partial_file world_disk_full "output" []
              (photo_of "https://x/cats1.jpg") [] (ok_response "JPEG")
              (ErrorString "write: no space left on device") empty_sys)
    as (s' & Hrun & Hfs & _).
  - constructor.
  - exact cats_photo_parses.
  - reflexivity.
  - reflexivity.
  - reflexivity.
  - reflexivity.
  - exists s'. auto.
Defined.

(** ** Files with the same name (lines 170-179) *)

Lemma store_files_other w dst photos :
  forall fs path,
    Forall (fun q => photo_path w dst q <> path) photos ->
    store_files w dst photos fs !! path = fs !! path.
Proof.
  induction photos as [|q photos IH]; intros fs path H; [reflexivity|].
  inversion H as [|? ? Hq Hrest]; subst. unfold store_files in *. cbn [fold_left].
  rewrite (IH _ _ Hrest). apply lookup_insert_ne, Hq.
Qed.

(** X13. When several photos of a page have the same file name, the file
    holds the bytes of the last of them once the page is processed: a later
    photo overwrites an earlier one, and nothing reports it. *)
Theorem last_photo_wins w dst earlier p later s :
  photos_stored w dst (earlier ++ p :: later)%list ->
  Forall (fun q => photo_path w dst q <> photo_path w dst p) later ->
  exists s',
    photosLoop w (earlier ++ p :: later)%list dst s = (Ret tt, s')
    /\ files s' !! photo_path w dst p = Some (photo_data w p).
Proof.
  intros Hstored Hlater. rewrite (photosLoop_stored _ _ _ _ Hstored).
  eexists. split; [reflexivity|].
  rewrite store_photos_files, store_files_app.
  change (p :: later) with ([p] ++ later)%list. rewrite store_files_app.
  rewrite (store_files_other _ _ _ _ _ Hlater). unfold store_files. cbn [fold_left].
  apply lookup_insert_eq.
Qed.

Lemma last_photo_wins_witness :
  let first := photo_of "https://x/a/1.jpg" in
  let second := photo_of "https://y/b/1.jpg?w=2" in
  photo_path world_echo "output" first = photo_path world_echo "output" second
  /\ exists s',
       photosLoop world_echo [first; second] "output" empty_sys = (Ret tt, s')
       /\ files s' !! "output/1.jpg" = Some "https://y/b/1.jpg?w=2".
Proof.
  intros first second. split; [reflexivity|].
  destruct (last_photo_wins world_echo "output" [first] second [] empty_sys)
    as (s' & Hrun & Hfile).
  - repeat constructor; eexists;
      (split; [eexists; vm_compute; reflexivity|]); repeat split; reflexivity.
  - constructor.
  - exists s'. split; [exact Hrun|exact Hfile].
Defined.

(** ** The count of photos ([main], lines 81-107) *)

Lemma wrap64_small z : - 2 ^ 63 <= z < 2 ^ 63 -> wrap64 z = z.
Proof. intros H. unfold wrap64. rewrite Z.mod_small; lia. Qed.

Lemma length_all_photos_cons r rest :
  List.length (all_photos (r :: rest))
  = (List.length (Photos r) + List.length (all_photos rest))%nat.
Proof. unfold all_photos. cbn [map List.concat]. apply length_app. Qed.

(** Below [2^63] photos the count does not wrap around. *)
Lemma count_photos_exact pages :
  forall total,
    0 <= total ->
    total + Z.of_nat (List.length (all_photos pages)) < 2 ^ 63 ->
    count_photos total pages = total + Z.of_nat (List.length (all_photos pages)).
Proof.
  induction pages as [|r rest IH]; intros total H0 Hlt.
  - cbn. lia.
  - rewrite count_photos_cons. rewrite length_all_photos_cons in *.
    unfold int_add. rewrite wrap64_small by lia. rewrite IH; lia.
Qed.

Lemma progress_app a b : progress (a ++ b) = (progress a ++ progress b)%list.
Proof. apply omap_app. Qed.

Lemma stored_events_progress w dst photos : progress (stored_events w dst photos) = [].
Proof.
  induction photos as [|p photos IH]; [reflexivity|].
  unfold stored_events in *. cbn [map List.concat]. rewrite progress_app, IH. reflexivity.
Qed.

(** The totals logged over a chain, as long as they stay below [2^63]. *)
Lemma chain_state_progress w key dst pages :
  forall uri total s,
    0 <= total ->
    total + Z.of_nat (List.length (all_photos pages)) < 2 ^ 63 ->
    exists evs,
      trace (chain_state w key dst uri pages total s) = (trace s ++ evs)%list
      /\ progress evs = running_totals total pages.
Proof.
  induction pages as [|r rest IH]; intros uri total s H0 Hlt.
  - exists []. cbn. rewrite app_nil_r. auto.
  - rewrite length_all_photos_cons in Hlt. cbn [chain_state].
    assert (Hadd : int_add total (Z.of_nat (List.length (Photos r)))
                   = total + Z.of_nat (List.length (Photos r))).
    { unfold int_add. apply wrap64_small. lia. }
    rewrite Hadd.
    edestruct (IH (NextPage r) (total + Z.of_nat (List.length (Photos r))))
      as (evs & Htr & Hpr); [lia|lia|].
    rewrite Htr. cbn [add_events trace]. rewrite store_photos_trace.
    cbn [add_events trace]. eexists. rewrite <- !app_assoc. split; [reflexivity|].
    rewrite !progress_app, stored_events_progress, Hpr. reflexivity.
Qed.

Lemma main_over_chain w key dst query pages s fuel :
  let dir := destination dst in
  key <> "" ->
  mkdir_ok w dir ->
  served_chain w key (first_uri query) pages ->
  photos_stored w dir (all_photos pages) ->
  Z.of_nat (List.length (all_photos pages)) < 2 ^ 63 ->
  (List.length pages <= fuel)%nat ->
  exists s',
    main w fuel key dst query s = (Ret tt, s')
    /\ requests (new_events s s') = chain_requests key (first_uri query) pages
    /\ created (new_events s s') = map (photo_path w dir) (all_photos pages)
    /\ files s' = store_files w dir (all_photos pages) (files s)
    /\ progress (new_events s s') = running_totals 0 pages
    /\ last (trace s')
       = Some (EvLog "done, total count is %d"
                 [AInt (Z.of_nat (List.length (all_photos pages)))]).
Proof.
  intros dir Hkey Hmk Hchain Hphotos Hlt Hfuel.
  rewrite main_eq. apply String.eqb_neq in Hkey. rewrite Hkey. cbv zeta. fold dir.
  set (s0 := if String.eqb dst "" then _ else s).
  assert (H0 : exists evs0, trace s0 = (trace s ++ evs0)%list /\ created evs0 = []
                            /\ progress evs0 = [] /\ requests evs0 = []
                            /\ files s0 = files s).
  { subst s0. destruct (String.eqb dst "").
    - eexists. repeat split; reflexivity.
    - exists []. rewrite app_nil_r. auto. }
  destruct H0 as (evs0 & Htr0 & Hcr0 & Hpr0 & Hrq0 & Hfs0). clearbody s0.
  rewrite (pageLoop_chain _ _ _ _ _ _ _ _ Hchain Hphotos Hfuel).
  rewrite (count_photos_exact pages 0) by lia. rewrite Z.add_0_l.
  set (s1 := add_events s0 [EvMkdir dir]).
  destruct (chain_state_trace w key dir pages (first_uri query) 0 s1)
    as (evs & Htr & Hrq & Hcr).
  destruct (chain_state_progress w key dir pages (first_uri query) 0 s1)
    as (evs' & Htr' & Hpr); [lia|lia|].
  assert (evs' = evs) as -> by (rewrite Htr in Htr'; eapply app_inv_head, eq_sym, Htr').
  exists (add_events (chain_state w key dir (first_uri query) pages 0 s1)
            [EvLog "done, total count is %d"
               [AInt (Z.of_nat (List.length (all_photos pages)))]]).
  split.
  { unfold mkdir_ok in Hmk. destruct (os_Mkdir w dir); [rewrite Hmk|]; reflexivity. }
  erewrite new_events_app.
  2:{ cbn [add_events trace]. rewrite Htr. subst s1. cbn [add_events trace].
      rewrite Htr0, <- !app_assoc. reflexivity. }
  rewrite !created_app, !progress_app, !requests_app, Hcr0, Hpr0, Hrq0, Hcr, Hpr, Hrq.
  cbn [add_events files]. rewrite chain_state_files. subst s1. cbn [add_events files].
  rewrite Hfs0.
  split; [cbn; rewrite app_nil_r; reflexivity|].
  split; [cbn; rewrite app_nil_r; reflexivity|]. split; [reflexivity|].
  split; [cbn; rewrite app_nil_r; reflexivity|apply last_snoc].
Qed.


(** X14. A run with a key and a usable directory, over a chain of served
    pages that starts at the compiled URL and whose photos can all be stored,
    returns from [main]: the files created are those of the photos, the
    totals logged after the pages are the numbers of photos processed so
    far, and the total count logged at the end is the number of all photos
    (counts are exact below [2^63]). *)
Theorem run_over_chain w key dst query pages s fuel :
  let dir := destination dst in
  key <> "" ->
  mkdir_ok w dir ->
  served_chain w key (first_uri query) pages ->
  photos_stored w dir (all_photos pages) ->
  Z.of_nat (List.length (all_photos pages)) < 2 ^ 63 ->
  (List.length pages <= fuel)%nat ->
  exists s',
    main w fuel key dst query s = (Ret tt, s')
    /\ created (new_events s s') = map (photo_path w dir) (all_photos pages)
    /\ files s' = store_files w dir (all_photos pages) (files s)
    /\ progress (new_events s s') = running_totals 0 pages
    /\ last (trace s')
       = Some (EvLog "done, total count is %d"
                 [AInt (Z.of_nat (List.length (all_photos pages)))]).
Proof.
  intros dir Hkey Hmk Hchain Hphotos Hlt Hfuel.
  destruct (main_over_chain w key dst query pages s fuel Hkey Hmk Hchain Hphotos Hlt Hfuel)
    as (s' & Hrun & _ & Hcr & Hfs & Hpr & Hlast).
  exists s'. auto.
Qed.

Lemma first_uri_cats :
  first_uri "cats" = "https://api.pexels.com/v1/search?page=1&per_page=80&query=cats".
Proof. vm_compute. reflexivity. Defined.

Lemma run_over_chain_witness :
  exists s',
    main world_two_pages 2 "abc" "" "cats" empty_sys = (Ret tt, s')
    /\ created (new_events empty_sys s')
       = ["output/a.jpg"; "output/b.jpg"; "output/c.jpg"]
    /\ progress (new_events empty_sys s') = [2; 3]
    /\ last (trace s') = Some (EvLog "done, total count is %d" [AInt 3]).
Proof.
  destruct (run_over_chain world_two_pages "abc" "" "cats" two_pages empty_sys 2)
    as (s' & Hrun & Hcr & _ & Hpr & Hlast).
  - discriminate.
  - exact I.
  - rewrite first_uri_cats. exact two_pages_served.
  - exact two_pages_stored.
  - reflexivity.
  - apply le_n.
  - exists s'. split; [exact Hrun|]. split; [exact Hcr|]. split; [exact Hpr|exact Hlast].
Defined.

(** ** The other failures of a page request ([sendRequest], lines 126-147) *)

Lemma unparsed_uri_aborts w fuel uri key dst total s err :
  url.Parse uri = inr err ->
  pageLoop w (S fuel) uri key dst total s
  = (Exit 1,
     add_events s
       [EvFatal "send request: %s, url: %s"
          [AErr (Errorf_w "create new request: %w" [] err); AStr uri]]).
Proof.
  intros Hu. rewrite pageLoop_S, sendRequest_eq, Hu. reflexivity.
Qed.

(** X15. When a served page names a cursor that does not parse as a URL, the
    photos of that page are downloaded and stored, and then the run exits
    with status 1 without sending any request for the cursor; the fatal line
    names the cursor and the parse error. *)
Theorem invalid_cursor_aborts w fuel uri key dst total s r err :
  page_served w uri key r ->
  photos_stored w dst (Photos r) ->
  NextPage r <> "" ->
  url.Parse (NextPage r) = inr err ->
  exists s',
    pageLoop w (S (S fuel)) uri key dst total s = (Exit 1, s')
    /\ requests (new_events s s')
       = pageRequest uri key
           :: map (fun p => imageRequest (Large2x (PhotoSrc p))) (Photos r)
    /\ files s' = store_files w dst (Photos r) (files s)
    /\ last (trace s')
       = Some (EvFatal "send request: %s, url: %s"
                 [AErr (Errorf_w "create new request: %w" [] err); AStr (NextPage r)]).
Proof.
  intros Hserved Hphotos Hne Herr.
  rewrite pageLoop_S, (sendRequest_served _ _ _ _ _ Hserved). cbv zeta.
  rewrite (photosLoop_stored _ _ _ _ Hphotos). apply String.eqb_neq in Hne.
  rewrite Hne, (unparsed_uri_aborts _ _ _ _ _ _ _ _ Herr).
  eexists. split; [reflexivity|].
  erewrite new_events_app.
  2:{ cbn [add_events trace]. rewrite store_photos_trace. cbn [add_events trace].
      rewrite <- !app_assoc. reflexivity. }
  rewrite !requests_app, stored_events_requests. cbn [add_events files].
  rewrite store_photos_files. cbn [add_events files requests app].
  split; [rewrite app_nil_r; reflexivity|]. split; [reflexivity|apply last_snoc].
Qed.

Lemma invalid_cursor_aborts_witness :
  let uri := "https://api.pexels.com/v1/search?page=1&per_page=80&query=cats" in
  exists s',
    pageLoop world_bad_cursor 2 uri "abc" "output" 0 empty_sys = (Exit 1, s')
    /\ requests (new_events empty_sys s')
       = [pageRequest uri "abc"; imageRequest "https://x/cats1.jpg"]
    /\ files s' = <["output/cats1.jpg" := "JPEG"]> ∅.
Proof.
  intros uri.
  destruct (invalid_cursor_aborts world_bad_cursor 0 uri "abc" "output" 0 empty_sys
              bad_cursor_page
              (url_Error "parse" "https://api.pexels.com /v1/search?page=2"
                 (InvalidHostError " ")))
    as (s' & Hrun & Hreq & Hfs & _).
  - split; [exact search_uri_parses|]. exists "page". split; reflexivity.
  - repeat constructor. exists "JPEG".
    split; [exact cats_photo_parses|]. repeat split; reflexivity.
  - discriminate.
  - vm_compute. reflexivity.
  - exists s'. split; [exact Hrun|]. split; [exact Hreq|exact Hfs].
Defined.

(** X16. When the body of a page answered with status 200 cannot be read to
    its end, [sendRequest] returns the read error without consulting the
    decoder on the bytes it has, and the run exits with status 1 on the
    [send request] line: there is no [cannot unmarshal] stop and no retry. *)
Theorem read_error_aborts w fuel uri key dst total s resp err :
  parses uri ->
  client_Do w (pageRequest uri key) = inl resp ->
  StatusCode resp = 200 ->
  body_err (RespBody resp) = Some err ->
  sendRequest w uri key s
  = (Ret (inr (Errorf_w "cannot read response: %w" [] err)),
     add_events s [EvDo (pageRequest uri key)])
  /\ pageLoop w (S fuel) uri key dst total s
     = (Exit 1,
        add_events s
          [EvDo (pageRequest uri key);
           EvFatal "send request: %s, url: %s"
             [AErr (Errorf_w "cannot read response: %w" [] err); AStr uri]]).
Proof.
  intros [u Hu] Hdo Hst Herr.
  assert (Hsend : sendRequest w uri key s
                  = (Ret (inr (Errorf_w "cannot read response: %w" [] err)),
                     add_events s [EvDo (pageRequest uri key)])).
  { rewrite sendRequest_eq, Hu. cbv zeta. rewrite Hdo, Hst, Herr. reflexivity. }
  split; [exact Hsend|]. rewrite pageLoop_S, Hsend.
  unfold add_events. cbn [files trace]. rewrite <- app_assoc. reflexivity.
Qed.

Lemma read_error_aborts_witness :
  let uri := "https://api.pexels.com/v1/search?page=1&per_page=80&query=cats" in
  pageLoop world_truncated 1 uri "abc" "output" 0 empty_sys
  = (Exit 1,
     add_events empty_sys
       [EvDo (pageRequest uri "abc");
        EvFatal "send request: %s, url: %s"
          [AErr (Errorf_w "cannot read response: %w" [] (ErrorString "unexpected EOF"));
           AStr uri]]).
Proof.
  intros uri.
  apply (proj2 (read_error_aborts world_truncated 0 uri "abc" "output" 0 empty_sys
                  {| StatusCode := 200;
                     RespBody := {| body_bytes := "{total_res";
                                    body_err := Some (ErrorString "unexpected EOF") |} |}
                  (ErrorString "unexpected EOF")
                  search_uri_parses eq_refl eq_refl eq_refl)).
Defined.

(** ** Running again *)

Lemma store_files_cons w dst p photos fs :
  store_files w dst (p :: photos) fs
  = store_files w dst photos (<[photo_path w dst p := photo_data w p]> fs).
Proof. reflexivity. Qed.

(** What the photos leave at a path: the bytes of the last photo with that
    file, or what was there. *)
Lemma store_files_lookup w dst photos :
  forall fs path,
    store_files w dst photos fs !! path
    = match last_data w dst path photos with
      | Some d => Some d
      | None => fs !! path
      end.
Proof.
  induction photos as [|p photos IH]; intros fs path; [reflexivity|].
  rewrite store_files_cons, IH. cbn [last_data].
  destruct (last_data w dst path photos); [reflexivity|].
  destruct (String.eqb_spec (photo_path w dst p) path) as [->|Hne].
  - apply lookup_insert_eq.
  - apply lookup_insert_ne, Hne.
Qed.

Lemma store_files_idempotent w dst photos fs :
  store_files w dst photos (store_files w dst photos fs) = store_files w dst photos fs.
Proof.
  apply map_eq. intros path. rewrite !store_files_lookup.
  destruct (last_data w dst path photos); reflexivity.
Qed.

(** X17. Nothing is remembered between runs: a second run against the same
    server sends the same requests again, downloads every photo again, and
    leaves the files exactly as the first run left them. *)
Theorem second_run_repeats_first w key dst query pages s fuel :
  key <> "" ->
  mkdir_ok w (destination dst) ->
  served_chain w key (first_uri query) pages ->
  photos_stored w (destination dst) (all_photos pages) ->
  Z.of_nat (List.length (all_photos pages)) < 2 ^ 63 ->
  (List.length pages <= fuel)%nat ->
  exists s1 s2,
    main w fuel key dst query s = (Ret tt, s1)
    /\ main w fuel key dst query s1 = (Ret tt, s2)
    /\ requests (new_events s1 s2) = requests (new_events s s1)
    /\ created (new_events s1 s2) = created (new_events s s1)
    /\ files s2 = files s1.
Proof.
  intros Hkey Hmk Hchain Hphotos Hlt Hfuel.
  destruct (main_over_chain w key dst query pages s fuel Hkey Hmk Hchain Hphotos Hlt Hfuel)
    as (s1 & Hrun1 & Hrq1 & Hcr1 & Hfs1 & _).
  destruct (main_over_chain w key dst query pages s1 fuel Hkey Hmk Hchain Hphotos Hlt Hfuel)
    as (s2 & Hrun2 & Hrq2 & Hcr2 & Hfs2 & _).
  exists s1, s2. rewrite Hrq1, Hrq2, Hcr1, Hcr2, Hfs2, Hfs1.
  repeat split; auto. apply store_files_idempotent.
Qed.

Lemma second_run_repeats_first_witness :
  exists s1 s2,
    main world_two_pages 2 "abc" "" "cats" empty_sys = (Ret tt, s1)
    /\ main world_two_pages 2 "abc" "" "cats" s1 = (Ret tt, s2)
    /\ requests (new_events s1 s2) = requests (new_events empty_sys s1)
    /\ files s2 = files s1.
Proof.
  destruct (second_run_repeats_first world_two_pages "abc" "" "cats" two_pages empty_sys 2)
    as (s1 & s2 & Hrun1 & Hrun2 & Hrq & _ & Hfs).
  - discriminate.
  - exact I.
  - rewrite first_uri_cats. exact two_pages_served.
  - exact two_pages_stored.
  - reflexivity.
  - apply le_n.
  - exists s1, s2. split; [exact Hrun1|]. split; [exact Hrun2|].
    split; [exact Hrq|exact Hfs].
Defined.

(** ** The last path segment *)

Lemma trim_trailing_slashes_cons c s :
  trim_trailing_slashes (String c s)
  = match trim_trailing_slashes s with
    | EmptyString => if Ascii.eqb c "/" then EmptyString else String c EmptyString
    | t => String c t
    end.
Proof. reflexivity. Qed.

Lemma trim_no_trailing_slash n :
  n <> "" -> lacks "/" n = true -> trim_trailing_slashes n = n.
Proof.
  induction n as [|c n IH]; intros Hne Hn; [contradiction|].
  cbn [lacks string_forallb] in Hn. apply andb_prop in Hn as [Hc Hn].
  apply negb_true_iff in Hc. rewrite trim_trailing_slashes_cons.
  destruct n as [|d n].
  - cbn [trim_trailing_slashes]. rewrite Hc. reflexivity.
  - rewrite IH by (discriminate || exact Hn). reflexivity.
Qed.

Lemma trim_app a x n :
  n <> "" -> lacks "/" n = true ->
  trim_trailing_slashes (a ++ String x n) = a ++ String x n.
Proof.
  intros Hne Hn.
  assert (Hbase : trim_trailing_slashes (String x n) = String x n).
  { rewrite trim_trailing_slashes_cons, (trim_no_trailing_slash _ Hne Hn).
    destruct n; [contradiction|reflexivity]. }
  induction a as [|c a IH]; [exact Hbase|].
  change (String c a ++ String x n) with (String c (a ++ String x n)).
  rewrite trim_trailing_slashes_cons, IH.
  destruct (a ++ String x n) eqn:E; [|reflexivity].
  destruct a; discriminate.
Qed.

Lemma path_Base_segment d n :
  n <> "" -> lacks "/" n = true -> path_Base (d ++ String "/" n) = n.
Proof.
  intros Hne Hn. unfold path_Base. rewrite append_nonempty, (trim_app _ _ _ Hne Hn).
  rewrite strings_LastIndex_last_pos, (last_pos_app _ d _ Hn).
  replace (0 <=? Z.of_nat (String.length d)) with true by (symmetry; apply Z.leb_le; lia).
  unfold slice_from. replace (Z.to_nat (Z.of_nat (String.length d) + 1))
    with (S (String.length d)) by lia.
  rewrite string_drop_first. destruct (String.eqb_spec n ""); [contradiction|reflexivity].
Qed.

Lemma cutQueryArgs_lacks u : lacks "?" u = true -> cutQueryArgs u = u.
Proof.
  intros H. unfold cutQueryArgs. rewrite strings_LastIndex_last_pos.
  apply last_pos_None in H. rewrite H. reflexivity.
Qed.

(** X18. The file name is the last path segment of the URL: for a URL
    [d/n] whose last segment [n] is not empty and has no slash, followed or
    not by a query without question marks, the name is [n], whatever the
    scheme, the host and the directories [d] are; so photos whose URLs end in
    the same segment share one file. *)
Theorem photoName_last_segment (d n q : string) :
  n <> "" -> lacks "/" n = true -> lacks "?" q = true ->
  photoName ((d ++ String "/" n) ++ String "?" q) = n
  /\ (lacks "?" (d ++ String "/" n) = true -> photoName (d ++ String "/" n) = n).
Proof.
  intros Hne Hn Hq. unfold photoName. split.
  - rewrite (cutQueryArgs_app _ _ Hq). apply path_Base_segment; assumption.
  - intros H. rewrite (cutQueryArgs_lacks _ H). apply path_Base_segment; assumption.
Qed.

Lemma photoName_last_segment_witness :
  photoName (("https://images.pexels.com/photos/42" ++ String "/" "pexels-42.jpeg")
               ++ String "?" "auto=compress&h=650")
  = "pexels-42.jpeg"
  /\ photoName ("https://cdn.example.org/other" ++ String "/" "pexels-42.jpeg")
     = "pexels-42.jpeg".
Proof.
  split.
  - refine (proj1 (photoName_last_segment "https://images.pexels.com/photos/42"
                      "pexels-42.jpeg" "auto=compress&h=650" _ _ _));
      [discriminate|reflexivity|reflexivity].
  - refine (proj2 (photoName_last_segment "https://cdn.example.org/other"
                      "pexels-42.jpeg" "" _ _ _) _);
      [discriminate|reflexivity|reflexivity|reflexivity].
Defined.
